(** * ip2asn: the delegated-statistics parser and loader

    A shallow embedding of [ip_asn_allocations.go]: the line scanner, the
    three regular expressions and the matcher they are run with, the numeric
    conversions of [strconv], the header assembler, the relational store
    with its uniqueness constraints ([db_schema.txt]) and the streaming loop
    of [parseData].  Text is a [string] of bytes, as in Go. *)

From Stdlib Require Import String Ascii ZArith NArith List Lia Bool Arith.
Import ListNotations.

Open Scope string_scope.

(** ** Bytes and strings *)

Definition byteN (c : ascii) : N := N_of_ascii c.

Definition inRange (lo hi : ascii) (c : ascii) : bool :=
  (byteN lo <=? byteN c)%N && (byteN c <=? byteN hi)%N.

Definition isDigit (c : ascii) : bool := inRange "0" "9" c.

Definition LF : ascii := "010"%char.
Definition CR : ascii := "013"%char.

Fixpoint drop (n : nat) (s : string) : string :=
  match n, s with
  | O, _ => s
  | S n', String _ t => drop n' t
  | S _, EmptyString => EmptyString
  end.

Definition take (n : nat) (s : string) : string := substring 0 n s.

(** ** UTF-8: the width of the first rune of a string

    Go's [regexp] steps through the text rune by rune
    ([utf8.DecodeRuneInString]); an ill-formed sequence counts as one rune of
    width 1.  Only [.] needs the width: every other atom of the three
    patterns is an ASCII byte or class, which no lead byte of a longer
    sequence satisfies. *)

Definition between (lo hi : N) (c : ascii) : bool :=
  (lo <=? byteN c)%N && (byteN c <=? hi)%N.

Definition isCont (c : ascii) : bool := between 0x80 0xBF c.

Definition runeLen (s : string) : nat :=
  match s with
  | EmptyString => 0
  | String b0 t =>
      let x := byteN b0 in
      if (x <? 0x80)%N then 1
      else if between 0xC2 0xDF b0 then
        match t with
        | String b1 _ => if isCont b1 then 2 else 1
        | _ => 1
        end
      else if between 0xE0 0xEF b0 then
        match t with
        | String b1 (String b2 _) =>
            let ok1 :=
              if (x =? 0xE0)%N then between 0xA0 0xBF b1
              else if (x =? 0xED)%N then between 0x80 0x9F b1
              else isCont b1 in
            if ok1 && isCont b2 then 3 else 1
        | _ => 1
        end
      else if between 0xF0 0xF4 b0 then
        match t with
        | String b1 (String b2 (String b3 _)) =>
            let ok1 :=
              if (x =? 0xF0)%N then between 0x90 0xBF b1
              else if (x =? 0xF4)%N then between 0x80 0x8F b1
              else isCont b1 in
            if ok1 && isCont b2 && isCont b3 then 4 else 1
        | _ => 1
        end
      else 1
  end.

(** ** Regular expressions with capture groups

    The matcher is a backtracking one in continuation-passing style; the
    order in which it tries alternatives (left branch first, one more
    iteration before leaving a loop) is the leftmost-first preference of
    Go's [regexp].  The three patterns of the program all start with [^],
    so a match is only ever attempted at the start of the line. *)

Inductive regex : Type :=
| Eps : regex
| Class : (ascii -> bool) -> regex
| AnyNoNL : regex
| Seq : regex -> regex -> regex
| Alt : regex -> regex -> regex
| Star : regex -> regex
| Group : nat -> regex -> regex
| Eol : regex.

Definition captures := list string.

Fixpoint upd (i : nat) (v : string) (l : captures) : captures :=
  match l, i with
  | [], _ => []
  | _ :: t, O => v :: t
  | h :: t, S i' => h :: upd i' v t
  end.

Definition cap (i : nat) (l : captures) : string := nth i l "".

Inductive result : Type :=
| Matched : captures -> result
| NoMatch : result
| OutOfFuel : result.

Definition orElse (a : result) (b : unit -> result) : result :=
  match a with
  | NoMatch => b tt
  | _ => a
  end.

Fixpoint run (fuel : nat) :
  regex -> string -> captures -> (string -> captures -> result) -> result :=
  fix go (r : regex) (s : string) (caps : captures)
         (k : string -> captures -> result) {struct r} : result :=
    match r with
    | Eps => k s caps
    | Class p =>
        match s with
        | String c t => if p c then k t caps else NoMatch
        | EmptyString => NoMatch
        end
    | AnyNoNL =>
        match s with
        | String c t =>
            if Ascii.eqb c LF then NoMatch else k (drop (runeLen s - 1) t) caps
        | EmptyString => NoMatch
        end
    | Seq a b => go a s caps (fun s' c' => go b s' c' k)
    | Alt a b => orElse (go a s caps k) (fun _ => go b s caps k)
    | Star a =>
        match fuel with
        | O => OutOfFuel
        | S f =>
            orElse
              (go a s caps
                  (fun s' c' =>
                     if Nat.ltb (String.length s') (String.length s) then run f (Star a) s' c' k
                     else NoMatch))
              (fun _ => k s caps)
        end
    | Group i a =>
        go a s caps
           (fun s' c' => k s' (upd i (take (String.length s - String.length s') s) c'))
    | Eol =>
        match s with
        | EmptyString => k s caps
        | _ => NoMatch
        end
    end.

Definition Plus (a : regex) : regex := Seq a (Star a).

Definition Chr (c : ascii) : regex := Class (Ascii.eqb c).

Fixpoint Str (w : string) : regex :=
  match w with
  | EmptyString => Eps
  | String c t => Seq (Chr c) (Str t)
  end.

Declare Scope regex_scope.
Delimit Scope regex_scope with re.
Bind Scope regex_scope with regex.
Infix "+>" := Seq (at level 61, right associativity) : regex_scope.
Infix "<|>" := Alt (at level 62, right associativity) : regex_scope.

(** [re.FindStringSubmatch(line)]: [None] is Go's [nil]; in [Some m],
    [cap i m] is [matches[i]]. *)
Definition FindStringSubmatch (ngroups : nat) (re : regex) (line : string)
  : option captures :=
  match run (S (String.length line)) (Group 0 re) line (repeat "" (S ngroups))
            (fun _ c => Matched c) with
  | Matched c => Some c
  | _ => None
  end.

(** The patterns of the source. *)

Definition registryRe : regex :=
  (Str "afrinic" <|> Str "apnic" <|> Str "arin" <|> Str "lacnic" <|>
   Str "ripencc")%re.

Definition typeRe : regex := (Str "asn" <|> Str "ipv4" <|> Str "ipv6")%re.

Definition bar : regex := Chr "|".

Definition digits : regex := Plus (Class isDigit).

Definition isVersionChar (c : ascii) : bool :=
  inRange "1" "9" c || Ascii.eqb c ".".

(** The version line: one or more of group 1 [[1-9.]], then the registry
    (group 2), four runs of digits (groups 3 to 6) and, as group 7, the rest
    of the line (any runes but a line feed), each preceded by a bar.  There
    is no end anchor. *)
Definition versionRe : regex :=
  (Plus (Group 1 (Class isVersionChar)) +>
   bar +> Group 2 registryRe +>
   bar +> Group 3 digits +>
   bar +> Group 4 digits +>
   bar +> Group 5 digits +>
   bar +> Group 6 digits +>
   bar +> Group 7 (Star AnyNoNL))%re.

(** The summary line: registry (group 1), a star, the record type (group 2),
    a star, digits (group 3) and the word summary, separated by bars. *)
Definition summaryRe : regex :=
  (Group 1 registryRe +> bar +> Chr "*" +> bar +> Group 2 typeRe +>
   bar +> Chr "*" +> bar +> Group 3 digits +> bar +> Str "summary")%re.

(** The record line: registry (1), country code [[A-Z].] or empty (2),
    record type (3), value [[0-9a-f:.]+] (4), digits (5), digits or empty
    (6), state (7) and the rest of the line (8), anchored at the end. *)
Definition isValueChar (c : ascii) : bool :=
  isDigit c || inRange "a" "f" c || Ascii.eqb c ":" || Ascii.eqb c ".".

Definition stateRe : regex :=
  (Str "allocated" <|> Str "assigned" <|> Str "available" <|>
   Str "reserved")%re.

Definition recordRe : regex :=
  (Group 1 registryRe +>
   bar +> Group 2 ((Class (inRange "A" "Z") +> AnyNoNL) <|> Eps) +>
   bar +> Group 3 typeRe +>
   bar +> Group 4 (Plus (Class isValueChar)) +>
   bar +> Group 5 digits +>
   bar +> Group 6 (digits <|> Eps) +>
   bar +> Group 7 stateRe +>
   Group 8 (Star AnyNoNL) +> Eol)%re.

(** ** [strconv]: decimal numerals

    [strconv.ParseUint(s, 10, bitSize)] and [strconv.ParseInt(s, 10, bitSize)]
    over 64-bit machine integers, the wrap-around of [uint64] written out.
    On a range error Go returns the largest value of the requested size
    together with the error; on a syntax error it returns 0. *)

Open Scope Z_scope.

Definition wrap64 (x : Z) : Z := x mod 2 ^ 64.

Definition maxUint64 : Z := 2 ^ 64 - 1.

Inductive numError : Type := ErrSyntax | ErrRange.

Definition digitVal (c : ascii) : Z := Z.of_N (byteN c) - 48.

Definition cutoff10 : Z := maxUint64 / 10 + 1.

Fixpoint parseUintLoop (maxVal : Z) (s : string) (n : Z)
  : Z * option numError :=
  match s with
  | EmptyString => (n, None)
  | String c t =>
      if isDigit c then
        if n >=? cutoff10 then (maxVal, Some ErrRange)
        else
          let n10 := wrap64 (n * 10) in
          let n1 := wrap64 (n10 + digitVal c) in
          if (n1 <? n10) || (n1 >? maxVal) then (maxVal, Some ErrRange)
          else parseUintLoop maxVal t n1
      else (0, Some ErrSyntax)
  end.

Definition ParseUint (s : string) (bitSize : Z) : Z * option numError :=
  match s with
  | EmptyString => (0, Some ErrSyntax)
  | _ => parseUintLoop (2 ^ bitSize - 1) s 0
  end.

Definition ParseInt (s : string) (bitSize : Z) : Z * option numError :=
  match s with
  | EmptyString => (0, Some ErrSyntax)
  | String c0 t =>
      let neg := Ascii.eqb c0 "-" in
      let body := if Ascii.eqb c0 "+" || neg then t else s in
      match ParseUint body bitSize with
      | (_, Some ErrSyntax) => (0, Some ErrSyntax)
      | (un, _) =>
          let cutoff := 2 ^ (bitSize - 1) in
          if negb neg && (un >=? cutoff) then (cutoff - 1, Some ErrRange)
          else if neg && (un >? cutoff) then (- cutoff, Some ErrRange)
          else ((if neg then - un else un), None)
      end
  end.

(** ** How a call ends

    A call returns, or the process exits through [log.Fatal], or the
    goroutine panics.  Store errors are either a [*mysql.MySQLError], which
    carries the server's error number, or any other [error] value (a lost
    connection, [sql.ErrNoRows], ...). *)

Inductive dbError : Type :=
| MySQLError (Number : Z)
| OtherError.

Inductive fatal : Type :=
| InvalidFileHeader
| StoreFailure (e : dbError).

Inductive panic : Type :=
| IndexOutOfRange
| NilDereference
| UnknownRecordType (ty : string).

Inductive ending (A : Type) : Type :=
| Returns : A -> ending A
| Fatal : fatal -> ending A
| Panics : panic -> ending A.
Arguments Returns {A} _.
Arguments Fatal {A} _.
Arguments Panics {A} _.

Definition bindE {A B : Type} (e : ending A) (k : A -> ending B) : ending B :=
  match e with
  | Returns a => k a
  | Fatal f => Fatal f
  | Panics p => Panics p
  end.

Notation "x <- e ;; k" := (bindE e (fun x => k))
  (at level 100, e at next level, right associativity).
Notation "' pat <- e ;; k" := (bindE e (fun x => match x with pat => k end))
  (at level 100, pat pattern, e at next level, right associativity).

(** ** The header *)

Record FileHeader : Type := mkHeader {
  version : string;
  registry : string;
  serial : Z;
  records : Z;
  startdate : string;
  enddate : string;
  UTCoffset : Z;
  asnCount : Z;
  ipv4Count : Z;
  ipv6Count : Z
}.

(** [var hdr FileHeader]: Go's zero value. *)
Definition zeroHeader : FileHeader := mkHeader "" "" 0 0 "" "" 0 0 0 0.

Record Flags : Type := mkFlags {
  f_force : bool;
  f_invalid_hdr_ok : bool
}.

Definition parseVersionLine (fl : Flags) (hdr : FileHeader) (line : string)
  : ending (FileHeader * bool) :=
  match FindStringSubmatch 7 versionRe line with
  | None =>
      if negb (f_invalid_hdr_ok fl) then Fatal InvalidFileHeader
      else Returns (hdr, false)
  | Some matches =>
      let sd := cap 5 matches in
      Returns
        (mkHeader (cap 1 matches) (cap 2 matches)
                  (fst (ParseUint (cap 3 matches) 32))
                  (fst (ParseUint (cap 4 matches) 32))
                  (if String.eqb sd "00000000" then "19700101" else sd)
                  (cap 6 matches)
                  (Z.quot (fst (ParseInt (cap 7 matches) 32)) 100)
                  (asnCount hdr) (ipv4Count hdr) (ipv6Count hdr),
         true)
  end.

Definition setIpv4Count (hdr : FileHeader) (n : Z) : FileHeader :=
  mkHeader (version hdr) (registry hdr) (serial hdr) (records hdr)
           (startdate hdr) (enddate hdr) (UTCoffset hdr)
           (asnCount hdr) n (ipv6Count hdr).

Definition setAsnCount (hdr : FileHeader) (n : Z) : FileHeader :=
  mkHeader (version hdr) (registry hdr) (serial hdr) (records hdr)
           (startdate hdr) (enddate hdr) (UTCoffset hdr)
           n (ipv4Count hdr) (ipv6Count hdr).

Definition setIpv6Count (hdr : FileHeader) (n : Z) : FileHeader :=
  mkHeader (version hdr) (registry hdr) (serial hdr) (records hdr)
           (startdate hdr) (enddate hdr) (UTCoffset hdr)
           (asnCount hdr) (ipv4Count hdr) n.

Definition parseSummaryLine (hdr : FileHeader) (line : string)
  : ending FileHeader :=
  match FindStringSubmatch 3 summaryRe line with
  | Some matches =>
      let n := fst (ParseUint (cap 3 matches) 64) in
      let ty := cap 2 matches in
      if String.eqb ty "ipv4" then Returns (setIpv4Count hdr n)
      else if String.eqb ty "asn" then Returns (setAsnCount hdr n)
      else if String.eqb ty "ipv6" then Returns (setIpv6Count hdr n)
      else Panics (UnknownRecordType ty)
  | None => Returns hdr
  end.

(** ** [bufio.Scanner] with [ScanLines]

    The text is cut at line feeds, one trailing carriage return is dropped
    from each line, and an empty piece after the last line feed is no line.
    A line of more than 65535 bytes does not fit the scanner's buffer
    ([MaxScanTokenSize]): that [Scan] fails, the next one hands out the
    buffer's 65536 bytes as a last token, and nothing after them is read.
    A scanner is the list of the results its successive [Scan]s will give,
    [None] for a failing one; when the list is used up every [Scan] fails. *)

Definition MaxScanTokenSize : nat := 64 * 1024.

Fixpoint splitOnLF (s : string) : list string :=
  match s with
  | EmptyString => [EmptyString]
  | String c t =>
      if Ascii.eqb c LF then EmptyString :: splitOnLF t
      else match splitOnLF t with
           | l :: ls => String c l :: ls
           | [] => [String c EmptyString]
           end
  end.

Fixpoint dropCR (s : string) : string :=
  match s with
  | EmptyString => EmptyString
  | String c EmptyString => if Ascii.eqb c CR then EmptyString else s
  | String c t => String c (dropCR t)
  end.

Definition Scanner := list (option string).

Fixpoint tokens (pieces : list string) : Scanner :=
  match pieces with
  | [] => []
  | [EmptyString] => []
  | l :: ls =>
      if Nat.ltb (String.length l) MaxScanTokenSize
      then Some (dropCR l) :: tokens ls
      else [None; Some (dropCR (take MaxScanTokenSize l))]
  end.

Definition NewScanner (data : string) : Scanner := tokens (splitOnLF data).

Definition scanOk (ev : option string) : bool :=
  match ev with Some _ => true | None => false end.

Definition scanText (ev : option string) : string :=
  match ev with Some l => l | None => EmptyString end.

(** [ok := scanner.Scan(); line := scanner.Text()] *)
Definition Scan (sc : Scanner) : bool * string * Scanner :=
  match sc with
  | [] => (false, EmptyString, [])
  | ev :: r => (scanOk ev, scanText ev, r)
  end.

Definition isCommentStart (c : ascii) : bool :=
  Ascii.eqb c "#" || Ascii.eqb c CR.

(** The loop [for line[0] == '#' || line[0] == '\r'] of [parseHeader],
    entered with the line just read; indexing an empty line panics. *)
Fixpoint skipComments (line : string) (sc : Scanner) {struct sc}
  : ending (string * Scanner) :=
  match line with
  | EmptyString => Panics IndexOutOfRange
  | String c _ =>
      if isCommentStart c then
        match sc with
        | [] => Panics IndexOutOfRange
        | ev :: r => skipComments (scanText ev) r
        end
      else Returns (line, sc)
  end.

(** [for i := 0; i < 3 && scanner.Scan(); i++] *)
Fixpoint summaryLoop (n : nat) (hdr : FileHeader) (sc : Scanner)
  : ending (FileHeader * Scanner) :=
  match n with
  | O => Returns (hdr, sc)
  | S n' =>
      let '(ok, line, sc') := Scan sc in
      if ok then (hdr' <- parseSummaryLine hdr line ;; summaryLoop n' hdr' sc')
      else Returns (hdr, sc')
  end.

Definition parseHeader (fl : Flags) (sc : Scanner) (hdr : FileHeader)
  : ending (FileHeader * Scanner) :=
  let '(_, line, sc1) := Scan sc in
  '(line', sc2) <- skipComments line sc1 ;;
  '(hdr', ok) <- parseVersionLine fl hdr line' ;;
  if ok then summaryLoop 3 hdr' sc2 else Returns (hdr', sc2).

(** ** The store

    The tables of [db_schema.txt] with their [UNIQUE] constraints: Datasets
    on (registry, serial), Summaries on (dataset, record type), each Records
    table on (registry, country code, value, extra, date, state).  A row
    holds the values of the [INSERT] that made it, as the program passed
    them; identifiers are handed out in sequence.  An insert that meets an
    existing key fails with the server's error 1062 and leaves the table as
    it was. *)

Record DatasetRow : Type := mkDataset {
  ds_ID : Z;
  ds_registry : string;
  ds_serial : Z;
  ds_version : string;
  ds_records : Z;
  ds_startdate : string;
  ds_enddate : string;
  ds_UTCoffset : Z
}.

Record SummaryRow : Type := mkSummary {
  sm_ID : Z;
  sm_dataset : Z;
  sm_type : string;
  sm_count : Z;
  sm_time : string
}.

(** The eight arguments of a record [Exec]. *)
Record RecordArgs : Type := mkArgs {
  a_registry : string;
  a_cc : string;
  a_value : string;
  a_extra : string;
  a_date : string;
  a_state : string;
  a_opaque : string;
  a_ext : string
}.

Record RecordRow : Type := mkRecord {
  rc_ID : Z;
  rc_dataset : Z;
  rc_args : RecordArgs;
  rc_time : string
}.

Inductive RecordType : Type := ipv4 | asn | ipv6.

Record DB : Type := mkDB {
  Datasets : list DatasetRow;
  Summaries : list SummaryRow;
  Records_ipv4 : list RecordRow;
  Records_asn : list RecordRow;
  Records_ipv6 : list RecordRow
}.

Definition emptyDB : DB := mkDB [] [] [] [] [].

Definition Records (ty : RecordType) (db : DB) : list RecordRow :=
  match ty with
  | ipv4 => Records_ipv4 db
  | asn => Records_asn db
  | ipv6 => Records_ipv6 db
  end.

Definition withRecords (ty : RecordType) (rows : list RecordRow) (db : DB)
  : DB :=
  match ty with
  | ipv4 => mkDB (Datasets db) (Summaries db) rows (Records_asn db)
                 (Records_ipv6 db)
  | asn => mkDB (Datasets db) (Summaries db) (Records_ipv4 db) rows
                (Records_ipv6 db)
  | ipv6 => mkDB (Datasets db) (Summaries db) (Records_ipv4 db)
                 (Records_asn db) rows
  end.

Definition nextID {A : Type} (rows : list A) : Z :=
  Z.of_nat (List.length rows) + 1.

Definition ER_DUP_ENTRY : Z := 1062.

(** What the program sends to the store. *)
Inductive statement : Type :=
| InsertDataset (hdr : FileHeader)
| SelectDatasetID (reg : string) (ser : Z)
| InsertSummary (lastID : Z) (k : string) (count : Z) (time : string)
| PrepareRecords (ty : RecordType) (lastID : Z) (time : string)
| InsertRecord (ty : RecordType) (lastID : Z) (time : string)
               (args : RecordArgs).

Definition typeName (ty : RecordType) : string :=
  match ty with
  | ipv4 => "ipv4"
  | asn => "asn"
  | ipv6 => "ipv6"
  end.

(** [recordTypes[k]] and [summaries[k]] are looked up by name. *)
Definition typeOfName (k : string) : option RecordType :=
  if String.eqb k "ipv4" then Some ipv4
  else if String.eqb k "asn" then Some asn
  else if String.eqb k "ipv6" then Some ipv6
  else None.

Definition sameDataset (reg : string) (ser : Z) (r : DatasetRow) : bool :=
  String.eqb (ds_registry r) reg && (ds_serial r =? ser).

Definition sameSummary (ds : Z) (k : string) (r : SummaryRow) : bool :=
  (sm_dataset r =? ds) && String.eqb (sm_type r) k.

Definition sameRecord (a : RecordArgs) (r : RecordRow) : bool :=
  let b := rc_args r in
  String.eqb (a_registry b) (a_registry a) && String.eqb (a_cc b) (a_cc a) &&
  String.eqb (a_value b) (a_value a) && String.eqb (a_extra b) (a_extra a) &&
  String.eqb (a_date b) (a_date a) && String.eqb (a_state b) (a_state a).

Record Counters : Type := mkCounters {
  c_ipv4 : Z;
  c_asn : Z;
  c_ipv6 : Z;
  c_all : Z;
  c_invalid : Z
}.

Record IngestReport : Type := mkReport {
  counts : Counters;
  datasetID : Z
}.

(** [if matches[6] == "00000000" || matches[6] == ""]: the date is replaced
    by the epoch date. *)
Definition recordDate (date : string) : string :=
  if String.eqb date "00000000" || String.eqb date "" then "1970-01-01"
  else date.

Section Pipeline.

(** The store's verdict on a statement apart from uniqueness: [None] lets
    it through, [Some e] fails it with [e] (a value the server rejects, a
    statement it cannot prepare, a lost connection). *)
Variable server : statement -> option dbError.

Variable fl : Flags.

Definition execInsertDataset (hdr : FileHeader) (db : DB)
  : DB * (Z + dbError) :=
  match server (InsertDataset hdr) with
  | Some e => (db, inr e)
  | None =>
      if existsb (sameDataset (registry hdr) (serial hdr)) (Datasets db)
      then (db, inr (MySQLError ER_DUP_ENTRY))
      else
        let id := nextID (Datasets db) in
        (mkDB (Datasets db ++
                 [mkDataset id (registry hdr) (serial hdr) (version hdr)
                            (records hdr) (startdate hdr) (enddate hdr)
                            (UTCoffset hdr)])
              (Summaries db) (Records_ipv4 db) (Records_asn db)
              (Records_ipv6 db),
         inl id)
  end.

(** [db.QueryRow("SELECT ID FROM Datasets WHERE ...").Scan(&lastID)] *)
Definition queryDatasetID (reg : string) (ser : Z) (db : DB)
  : Z + dbError :=
  match server (SelectDatasetID reg ser) with
  | Some e => inr e
  | None =>
      match find (sameDataset reg ser) (Datasets db) with
      | Some r => inl (ds_ID r)
      | None => inr OtherError
      end
  end.

Definition execInsertSummary (lastID : Z) (k : string) (count : Z)
           (time : string) (db : DB) : DB * option dbError :=
  match server (InsertSummary lastID k count time) with
  | Some e => (db, Some e)
  | None =>
      if existsb (sameSummary lastID k) (Summaries db)
      then (db, Some (MySQLError ER_DUP_ENTRY))
      else
        (mkDB (Datasets db)
              (Summaries db ++
                 [mkSummary (nextID (Summaries db)) lastID k count time])
              (Records_ipv4 db) (Records_asn db) (Records_ipv6 db),
         None)
  end.

Definition execInsertRecord (ty : RecordType) (lastID : Z) (time : string)
           (args : RecordArgs) (db : DB) : DB * option dbError :=
  match server (InsertRecord ty lastID time args) with
  | Some e => (db, Some e)
  | None =>
      if existsb (sameRecord args) (Records ty db)
      then (db, Some (MySQLError ER_DUP_ENTRY))
      else
        (withRecords ty
           (Records ty db ++
              [mkRecord (nextID (Records ty db)) lastID args time]) db,
         None)
  end.

(** [for k := range summaries]: Go leaves the order of a map's keys open;
    the rows written do not depend on it. *)
Definition summaryKeys : list string := ["ipv4"; "asn"; "ipv6"].

Definition summaryValue (hdr : FileHeader) (k : string) : Z :=
  match typeOfName k with
  | Some ipv4 => ipv4Count hdr
  | Some asn => asnCount hdr
  | Some ipv6 => ipv6Count hdr
  | None => 0
  end.

Fixpoint saveSummaries (keys : list string) (lastID : Z) (hdr : FileHeader)
         (db : DB) : DB :=
  match keys with
  | [] => db
  | k :: ks =>
      saveSummaries ks lastID hdr
        (fst (execInsertSummary lastID k (summaryValue hdr k)
                                (enddate hdr) db))
  end.

Definition saveHeaderData (db : DB) (hdr : FileHeader) : DB * ending Z :=
  let '(db1, res) := execInsertDataset hdr db in
  let got :=
    match res with
    | inl id => Returns id
    | inr (MySQLError n) =>
        if (n =? ER_DUP_ENTRY) && f_force fl then
          match queryDatasetID (registry hdr) (serial hdr) db1 with
          | inl id => Returns id
          | inr e => Fatal (StoreFailure e)
          end
        else Fatal (StoreFailure (MySQLError n))
    | inr OtherError => Panics NilDereference
    end in
  match got with
  | Returns lastID =>
      (saveSummaries summaryKeys lastID hdr db1, Returns lastID)
  | Fatal f => (db1, Fatal f)
  | Panics p => (db1, Panics p)
  end.

(** [db.Prepare]: on an error the statement is [nil]. *)
Definition prepared (lastID : Z) (time : string) (ty : RecordType) : bool :=
  match server (PrepareRecords ty lastID time) with
  | None => true
  | Some _ => false
  end.

Definition bump (ty : RecordType) (c : Counters) : Counters :=
  match ty with
  | ipv4 => mkCounters (wrap64 (c_ipv4 c + 1)) (c_asn c) (c_ipv6 c)
                       (c_all c) (c_invalid c)
  | asn => mkCounters (c_ipv4 c) (wrap64 (c_asn c + 1)) (c_ipv6 c)
                      (c_all c) (c_invalid c)
  | ipv6 => mkCounters (c_ipv4 c) (c_asn c) (wrap64 (c_ipv6 c + 1))
                       (c_all c) (c_invalid c)
  end.

Definition bumpInvalid (c : Counters) : Counters :=
  mkCounters (c_ipv4 c) (c_asn c) (c_ipv6 c) (c_all c)
             (wrap64 (c_invalid c + 1)).

Definition bumpAll (c : Counters) : Counters :=
  mkCounters (c_ipv4 c) (c_asn c) (c_ipv6 c) (wrap64 (c_all c + 1))
             (c_invalid c).

(** The record decoder: the pattern and the date correction. *)
Definition decode (line : string) : option (string * RecordArgs) :=
  match FindStringSubmatch 8 recordRe line with
  | None => None
  | Some matches =>
      let d := cap 6 matches in
      Some (cap 3 matches,
            mkArgs (cap 1 matches) (cap 2 matches) (cap 4 matches)
                   (cap 5 matches) (recordDate d)
                   (cap 7 matches) (cap 8 matches) "")
  end.

(** The body of the streaming loop for one line. *)
Definition processLine (lastID : Z) (time : string) (line : string)
           (c : Counters) (db : DB) : DB * ending Counters :=
  match decode line with
  | Some (k, args) =>
      match typeOfName k with
      | None => (db, Panics NilDereference)
      | Some ty =>
          if prepared lastID time ty then
            match execInsertRecord ty lastID time args db with
            | (db', Some OtherError) => (db', Panics NilDereference)
            | (db', _) => (db', Returns (bump ty c))
            end
          else (db, Panics NilDereference)
      end
  | None => (db, Returns (bumpInvalid c))
  end.

(** [for counter["all"] = 0; scanner.Scan(); counter["all"]++] *)
Fixpoint streamRecords (lastID : Z) (time : string) (sc : Scanner)
         (c : Counters) (db : DB) : DB * ending Counters :=
  match sc with
  | [] => (db, Returns c)
  | None :: _ => (db, Returns c)
  | Some line :: r =>
      match processLine lastID time line c db with
      | (db', Returns c') => streamRecords lastID time r (bumpAll c') db'
      | stop => stop
      end
  end.

Definition zeroCounters : Counters := mkCounters 0 0 0 0 0.

(** The deferred [Close] of each prepared statement runs when [parseData]
    returns; closing a [nil] statement panics. *)
Definition closeAll (lastID : Z) (time : string) : bool :=
  forallb (prepared lastID time) [ipv4; asn; ipv6].

(** [parseData] from [lastID = saveHeaderData(db, hdr)] on. *)
Definition afterHeader (db : DB) (hdr : FileHeader) (sc : Scanner)
  : DB * ending IngestReport :=
  match saveHeaderData db hdr with
  | (db1, Returns lastID) =>
      match streamRecords lastID (enddate hdr) sc zeroCounters db1 with
      | (db2, Returns c) =>
          if closeAll lastID (enddate hdr)
          then (db2, Returns (mkReport c lastID))
          else (db2, Panics NilDereference)
      | (db2, Fatal f) => (db2, Fatal f)
      | (db2, Panics p) => (db2, Panics p)
      end
  | (db1, Fatal f) => (db1, Fatal f)
  | (db1, Panics p) => (db1, Panics p)
  end.

(** [parseData] once the scanner is set up. *)
Definition ingest (db : DB) (sc : Scanner) : DB * ending IngestReport :=
  match parseHeader fl sc zeroHeader with
  | Returns (hdr, sc') => afterHeader db hdr sc'
  | Fatal f => (db, Fatal f)
  | Panics p => (db, Panics p)
  end.

Definition parseData (db : DB) (data : string) : DB * ending IngestReport :=
  ingest db (NewScanner data).

End Pipeline.

(** ** Vocabulary of the statements *)

(** *** Matches

    [Match r s c s' c']: [r] matches a prefix of [s], leaving [s'], and
    turns the captures [c] into [c']. *)
Inductive Match : regex -> string -> captures -> string -> captures -> Prop :=
| MEps s c : Match Eps s c s c
| MClass p ch t c : p ch = true -> Match (Class p) (String ch t) c t c
| MAny ch t c :
    Ascii.eqb ch LF = false ->
    Match AnyNoNL (String ch t) c (drop (runeLen (String ch t) - 1) t) c
| MSeq a b s c s1 c1 s2 c2 :
    Match a s c s1 c1 -> Match b s1 c1 s2 c2 -> Match (Seq a b) s c s2 c2
| MAltL a b s c s' c' : Match a s c s' c' -> Match (Alt a b) s c s' c'
| MAltR a b s c s' c' : Match b s c s' c' -> Match (Alt a b) s c s' c'
| MStar0 a s c : Match (Star a) s c s c
| MStarS a s c s1 c1 s2 c2 :
    Match a s c s1 c1 -> Match (Star a) s1 c1 s2 c2 ->
    Match (Star a) s c s2 c2
| MGroup i a s c s' c' :
    Match a s c s' c' ->
    Match (Group i a) s c s'
          (upd i (take (String.length s - String.length s') s) c')
| MEol c : Match Eol EmptyString c EmptyString c.

(** The capture groups a pattern can set. *)
Fixpoint groups (r : regex) : list nat :=
  match r with
  | Seq a b | Alt a b => groups a ++ groups b
  | Star a => groups a
  | Group i a => i :: groups a
  | _ => []
  end.

(** *** Fields *)

Definition registryNames : list string :=
  ["afrinic"; "apnic"; "arin"; "lacnic"; "ripencc"].

Definition typeNames : list string := ["asn"; "ipv4"; "ipv6"].

Definition stateNames : list string :=
  ["allocated"; "assigned"; "available"; "reserved"].

(** Alternatives of literal words, as in [(afrinic|apnic|...)]. *)
Fixpoint AltWords (ws : list string) : regex :=
  match ws with
  | [] => Eps
  | [w] => Str w
  | w :: ws' => Alt (Str w) (AltWords ws')
  end.

(** Two words differ at a position both have. *)
Fixpoint clash (w r : string) : bool :=
  match w, r with
  | String a w', String b r' => if Ascii.eqb a b then clash w' r' else true
  | _, _ => false
  end.

(** Every character of [w] is in the class [p]. *)
Fixpoint allb (p : ascii -> bool) (w : string) : bool :=
  match w with
  | EmptyString => true
  | String ch t => p ch && allb p t
  end.

(** [s] does not go on with a character of the class [p]. *)
Definition headFails (p : ascii -> bool) (s : string) : bool :=
  match s with
  | EmptyString => true
  | String ch _ => negb (p ch)
  end.

Definition notLF (c : ascii) : bool := negb (Ascii.eqb c LF).

(** The last character of [w] as a string, [v] when [w] is empty: what a
    group inside a loop holds after the loop. *)
Fixpoint lastOr (v : string) (w : string) : string :=
  match w with
  | EmptyString => v
  | String ch t => lastOr (String ch EmptyString) t
  end.

(** A non-empty run of digits. *)
Definition numeral (w : string) : Prop :=
  allb isDigit w = true /\ w <> EmptyString.

Fixpoint decimalAcc (w : string) (acc : Z) : Z :=
  match w with
  | EmptyString => acc
  | String c t => decimalAcc t (acc * 10 + digitVal c)
  end.

(** The number a string of digits denotes. *)
Definition decimal (w : string) : Z := decimalAcc w 0.

(** An optionally signed numeral and the number it denotes. *)
Inductive sign : Type := NoSign | PlusSign | MinusSign.

Definition signText (sg : sign) : string :=
  match sg with
  | NoSign => ""
  | PlusSign => "+"
  | MinusSign => "-"
  end.

Definition signed (sg : sign) (x : Z) : Z :=
  match sg with
  | MinusSign => - x
  | _ => x
  end.

(** *** Lines *)

Definition nl : string := String LF EmptyString.

(** The version line with the given fields; [rest] is all that follows the
    sixth bar. *)
Definition versionLine (v r ser n sd ed rest : string) : string :=
  v ++ "|" ++ r ++ "|" ++ ser ++ "|" ++ n ++ "|" ++ sd ++ "|" ++ ed ++ "|"
    ++ rest.

Record wfVersion (v r ser n sd ed rest : string) : Prop := {
  wf_version : allb isVersionChar v = true /\ v <> EmptyString;
  wf_registry : In r registryNames;
  wf_serial : numeral ser;
  wf_records : numeral n;
  wf_start : numeral sd;
  wf_end : numeral ed;
  wf_rest : allb notLF rest = true
}.

(** A line [parseHeader] skips: it starts with [#] or a carriage return. *)
Definition isCommentLine (l : string) : bool :=
  match l with
  | EmptyString => false
  | String c _ => isCommentStart c
  end.

(** A scanner that still holds the lines [ls], then whatever [sc] holds. *)
Definition linesThen (ls : list string) (sc : Scanner) : Scanner :=
  (map Some ls ++ sc)%list.

(** The record line with the given fields; [rest] follows the state
    directly. *)
Definition recordLine (reg cc ty value extra date state rest : string)
  : string :=
  reg ++ "|" ++ cc ++ "|" ++ ty ++ "|" ++ value ++ "|" ++ extra ++ "|"
      ++ date ++ "|" ++ state ++ rest.

(** One rune as the dot of a pattern takes it: any byte but the line feed
    together with the continuation bytes that complete its UTF-8 sequence;
    a byte that starts no complete sequence is a rune of its own. *)
Definition oneRune (r : string) : Prop :=
  match r with
  | EmptyString => False
  | String ch _ => notLF ch = true /\ runeLen r = String.length r
  end.

(** A country code the pattern takes: nothing, or a capital letter and one
    more rune, of one byte or of several. *)
Definition countryCode (cc : string) : Prop :=
  cc = EmptyString \/
  exists c1 r, cc = String c1 r /\ inRange "A" "Z" c1 = true /\ oneRune r.

Record wfRecord (reg cc ty value extra date state rest : string) : Prop := {
  wr_registry : In reg registryNames;
  wr_cc : countryCode cc;
  wr_type : In ty typeNames;
  wr_value : allb isValueChar value = true /\ value <> EmptyString;
  wr_extra : numeral extra;
  wr_date : allb isDigit date = true;
  wr_state : In state stateNames;
  wr_rest : allb notLF rest = true
}.

(** The lines the streaming loop gets to see: those before the first
    failing [Scan]. *)
Fixpoint streamed (sc : Scanner) : nat :=
  match sc with
  | Some _ :: r => S (streamed r)
  | _ => O
  end.

(** *** Runs *)

Definition strict : Flags := mkFlags false false.
Definition forced : Flags := mkFlags true false.
Definition tolerant : Flags := mkFlags false true.

(** A store that lets every statement through. *)
Definition noFaults : statement -> option dbError := fun _ => None.

(** A store whose connection is lost when a record is sent. *)
Definition lostConnection (st : statement) : option dbError :=
  match st with
  | InsertRecord _ _ _ _ => Some OtherError
  | _ => None
  end.

(** A store that refuses every record with the server's error 1048. *)
Definition rejectingServer (st : statement) : option dbError :=
  match st with
  | InsertRecord _ _ _ _ => Some (MySQLError 1048)
  | _ => None
  end.

Definition sampleHeader : FileHeader :=
  mkHeader "2" "apnic" 20230101 3 "19830613" "20230101" 10 1 2 0.

Definition sampleFeed : string :=
  "# delegated statistics" ++ nl ++
  "2|apnic|20230101|3|19830613|20230101|+1000" ++ nl ++
  "apnic|*|asn|*|1|summary" ++ nl ++
  "apnic|*|ipv4|*|2|summary" ++ nl ++
  "apnic|*|ipv6|*|0|summary" ++ nl ++
  "apnic|JP|asn|173|1|20020801|allocated" ++ nl ++
  "apnic|JP|ipv4|103.2.0.0|1024|20120101|allocated" ++ nl ++
  "not a record" ++ nl ++
  "apnic|JP|ipv4|103.2.0.0|1024|20120101|allocated" ++ nl.

Definition duplicateEntry : fatal := StoreFailure (MySQLError ER_DUP_ENTRY).

(** Every key of a Records table of [db] is a key of the same table of
    [db2]; likewise for Summaries. *)
Definition coversR (db db2 : DB) : Prop :=
  forall ty a, existsb (sameRecord a) (Records ty db) = true ->
               existsb (sameRecord a) (Records ty db2) = true.

Definition coversS (db db2 : DB) : Prop :=
  forall id k, existsb (sameSummary id k) (Summaries db) = true ->
               existsb (sameSummary id k) (Summaries db2) = true.

Definition sumOf (c : Counters) : Z :=
  c_invalid c + c_ipv4 c + c_asn c + c_ipv6 c.

(** The counters after [n] lines. *)
Definition countersAt (c : Counters) (n : Z) : Prop :=
  c_all c = n /\ sumOf c = n /\
  0 <= c_invalid c /\ 0 <= c_ipv4 c /\ 0 <= c_asn c /\ 0 <= c_ipv6 c.

(** *** What a pattern consumes

    [consumes r P]: whenever [r] matches, it leaves the captures alone and
    the text it takes satisfies [P]. *)
Definition consumes (r : regex) (P : string -> Prop) : Prop :=
  forall s c s' c',
    Match r s c s' c' -> exists w, s = (w ++ s')%string /\ c' = c /\ P w.

(** One character of the class [p]. *)
Definition oneOf (p : ascii -> bool) (w : string) : Prop :=
  exists ch, w = String ch EmptyString /\ p ch = true.

(** The country code as the pattern sees it: nothing, or a capital letter
    followed by one rune. *)
Definition countryShape (w : string) : Prop :=
  w = EmptyString \/
  exists c1 t, w = String c1 t /\ inRange "A" "Z" c1 = true /\
               t <> EmptyString.

(** The summary line with the given fields; [rest] is whatever follows the
    word summary. *)
Definition summaryLine (reg ty count rest : string) : string :=
  reg ++ "|*|" ++ ty ++ "|*|" ++ count ++ "|summary" ++ rest.

Record wfSummary (reg ty count : string) : Prop := {
  ws_registry : In reg registryNames;
  ws_type : In ty typeNames;
  ws_count : numeral count
}.

(** The descriptor with the declared count of the named type set. *)
Definition setCount (hdr : FileHeader) (ty : string) (n : Z) : FileHeader :=
  match typeOfName ty with
  | Some ipv4 => setIpv4Count hdr n
  | Some asn => setAsnCount hdr n
  | Some ipv6 => setIpv6Count hdr n
  | None => hdr
  end.

(** Lines of a feed that are no records: the empty line, a comment line,
    a summary line. *)
Definition notARecord (l : string) : Prop :=
  l = EmptyString \/ isCommentLine l = true \/
  exists reg ty count rest,
    wfSummary reg ty count /\ l = summaryLine reg ty count rest.

(** The lines [ls], each followed by the line end [eol]. *)
Fixpoint joinLines (eol : string) (ls : list string) : string :=
  match ls with
  | [] => EmptyString
  | l :: ls' => l ++ eol ++ joinLines eol ls'
  end.

Definition CRLF : string := String CR nl.

(** A line the scanner can hold: no line feed in it, and room for its
    line end in the buffer. *)
Definition scannable (l : string) : Prop :=
  allb notLF l = true /\ (String.length l + 1 < MaxScanTokenSize)%nat.

(** [new] is [old] with at most [n] rows added at its end, each
    satisfying [P]. *)
Definition appended {A : Type} (old new : list A) (P : A -> Prop) (n : nat)
  : Prop :=
  exists added,
    new = (old ++ added)%list /\ Forall P added /\
    (List.length added <= n)%nat.

(** A Summary or Record row written for the Dataset [id] at time [t]. *)
Definition summaryOf (id : Z) (t : string) (r : SummaryRow) : Prop :=
  sm_dataset r = id /\ sm_time r = t.

Definition recordOf (id : Z) (t : string) (r : RecordRow) : Prop :=
  rc_dataset r = id /\ rc_time r = t.

Definition counterOf (ty : RecordType) (c : Counters) : Z :=
  match ty with
  | ipv4 => c_ipv4 c
  | asn => c_asn c
  | ipv6 => c_ipv6 c
  end.

(** The store after the sample feed has been ingested once into an empty
    store. *)
Definition sampleStore : DB :=
  fst (parseData noFaults strict emptyDB sampleFeed).

Definition sampleReport : IngestReport := mkReport (mkCounters 2 1 0 4 1) 1.

(** [db2] is [db1] after more imports: Datasets has grown at its end, and
    every Summary and Record key of [db1] is still there. *)
Definition grownFrom (db1 db2 : DB) : Prop :=
  (exists more, Datasets db2 = (Datasets db1 ++ more)%list) /\
  coversS db1 db2 /\ coversR db1 db2.

(** ** The command line and [main]

    The flags as [flag.Parse] leaves them; [f_mode] holds [-force] and
    [-invalid-header-ok].  [flag.Parse] itself and the printing of the
    unprocessed arguments are not part of the model. *)
Record Options : Type := mkOptions {
  f_inputFileName : string;
  f_URL : string;
  f_source : string;
  f_verbose : Z;
  f_debug : bool;
  f_mode : Flags
}.

(** The defaults of the flag declarations. *)
Definition flagDefaults : Options :=
  mkOptions "" "" "" 1 false (mkFlags false false).

Definition setSource (s : string) (o : Options) : Options :=
  mkOptions (f_inputFileName o) (f_URL o) s (f_verbose o) (f_debug o)
            (f_mode o).

Definition setURL (u : string) (o : Options) : Options :=
  mkOptions (f_inputFileName o) u (f_source o) (f_verbose o) (f_debug o)
            (f_mode o).

Definition setVerbose (v : Z) (o : Options) : Options :=
  mkOptions (f_inputFileName o) (f_URL o) (f_source o) v (f_debug o)
            (f_mode o).

Definition isEmpty (s : string) : bool := String.eqb s "".

(** The three [log.Fatal] calls of [parseArguments]. *)
Inductive usage : Type :=
  | OnlyURLOrFile
  | NeedFileName
  | NeedURL.

(** [parseArguments] after [flag.Parse()]. *)
Definition parseArguments (parsed : Options) : Options + usage :=
  if negb (isEmpty (f_URL parsed)) && negb (isEmpty (f_inputFileName parsed))
     && isEmpty (f_source parsed)
  then inr OnlyURLOrFile
  else
    let o1 := if isEmpty (f_source parsed)
                 && negb (isEmpty (f_inputFileName parsed))
              then setSource "file" parsed else parsed in
    let o2 := if isEmpty (f_source o1) && negb (isEmpty (f_URL o1))
              then setSource "download" o1 else o1 in
    if String.eqb (f_source o2) "file" && isEmpty (f_inputFileName o2)
    then inr NeedFileName
    else if String.eqb (f_source o2) "download" && isEmpty (f_URL o2)
    then inr NeedURL
    else inl (if f_debug o2 then setVerbose 5 o2 else o2).

(** What the program meets outside the tables it writes: whether the
    store can be opened and pinged, the answer of the Registries table to
    the lookup of a short name ([None] for any error, a missing row
    included), the content of a file, and the body answering the [n]-th
    GET of the run ([None] when the request or the reading of the body
    fails). *)
Record World : Type := mkWorld {
  w_connects : bool;
  w_registryURL : string -> option string;
  w_ReadFile : string -> option string;
  w_Get : nat -> string -> option string
}.

(** The ways [main] ends by [log.Fatal]. *)
Inductive exit : Type :=
  | Usage (u : usage)
  | NoConnection
  | ReadFailed (name : string)
  | NoRegistryURL (reg : string)
  | GetFailed (url : string)
  | InvalidSourceType (s : string)
  | RunFatal (f : fatal).

Inductive outcome : Type :=
  | Done
  | Exit (e : exit)
  | Panic (p : panic).

Definition getRegistryURL (w : World) (reg : string) : string + exit :=
  match w_registryURL w reg with
  | Some url => inl url
  | None => inr (NoRegistryURL reg)
  end.

Definition downloadFile (w : World) (n : nat) (url : string)
  : string + exit :=
  match w_Get w n url with
  | Some body => inl body
  | None => inr (GetFailed url)
  end.

Definition setupDB (w : World) : bool := w_connects w.

Section Main.

Variable server : statement -> option dbError.
Variable w : World.

(** One call of [parseData] from [main]: its report is dropped. *)
Definition runOn (fl : Flags) (db : DB) (data : string) : DB * outcome :=
  match parseData server fl db data with
  | (db', Returns _) => (db', Done)
  | (db', Fatal f) => (db', Exit (RunFatal f))
  | (db', Panics p) => (db', Panic p)
  end.

(** [data := downloadFile(f_URL); parseData(db, data)] for the [n]-th GET. *)
Definition download (fl : Flags) (n : nat) (url : string) (db : DB)
  : DB * outcome :=
  match downloadFile w n url with
  | inl data => runOn fl db data
  | inr e => (db, Exit e)
  end.

(** The loop of the [all] case, from its [n]-th round on. *)
Fixpoint eachRegistry (fl : Flags) (n : nat) (registries : list string)
         (db : DB) : DB * outcome :=
  match registries with
  | [] => (db, Done)
  | reg :: rest =>
      match getRegistryURL w reg with
      | inl url =>
          match download fl n url db with
          | (db', Done) => eachRegistry fl (S n) rest db'
          | stop => stop
          end
      | inr e => (db, Exit e)
      end
  end.

Definition main (parsed : Options) (db : DB) : DB * outcome :=
  match parseArguments parsed with
  | inr u => (db, Exit (Usage u))
  | inl o =>
      if negb (setupDB w) then (db, Exit NoConnection)
      else
        let src := f_source o in
        if String.eqb src "file" then
          match w_ReadFile w (f_inputFileName o) with
          | Some data => runOn (f_mode o) db data
          | None => (db, Exit (ReadFailed (f_inputFileName o)))
          end
        else if existsb (String.eqb src)
                        ["afrinic"; "apnic"; "arin"; "lacnic"; "ripencc"]
        then
          match getRegistryURL w src with
          | inl url => download (f_mode o) 0 url db
          | inr e => (db, Exit e)
          end
        else if String.eqb src "download" then
          download (f_mode o) 0 (f_URL o) db
        else if String.eqb src "all" then
          eachRegistry (f_mode o) 0
                       ["afrinic"; "apnic"; "arin"; "lacnic"; "ripencc"] db
        else (db, Exit (InvalidSourceType src))
  end.

End Main.

(** Both of [-in] and [-url] replaced. *)
Definition withInputs (name url : string) (o : Options) : Options :=
  mkOptions name url (f_source o) (f_verbose o) (f_debug o) (f_mode o).

(** A second feed, and the store after it has been ingested on top of the
    sample. *)
Definition laterFeed : string :=
  "2|arin|20230102|1|19830613|20230102|-0500" ++ nl ++
  "arin|*|asn|*|0|summary" ++ nl ++
  "arin|*|ipv4|*|1|summary" ++ nl ++
  "arin|*|ipv6|*|0|summary" ++ nl ++
  "arin|US|ipv4|3.0.0.0|4096|19880101|assigned" ++ nl.

Definition laterStore : DB :=
  fst (parseData noFaults forced sampleStore laterFeed).

Definition laterReport : IngestReport := mkReport (mkCounters 1 0 0 1 0) 2.

(** A world in which every registry is served the sample feed. *)
Definition sampleWorld : World :=
  mkWorld true (fun reg => Some ("http://mirror.example/" ++ reg))
          (fun _ => None) (fun _ _ => Some sampleFeed).

(** The store lets the loop pass a record: the statement of the record's
    type was prepared, and the answer to the insert is success or a server
    error. *)
Definition storeAnswers (server : statement -> option dbError) (lastID : Z)
           (time : string) (t : RecordType) (a : RecordArgs) : bool :=
  prepared server lastID time t &&
  match server (InsertRecord t lastID time a) with
  | Some OtherError => false
  | _ => true
  end.

(** A line that is blank, a comment or a summary line. *)
Definition isHeaderKind (l : string) : bool :=
  match l with
  | EmptyString => true
  | _ =>
      isCommentLine l ||
      match FindStringSubmatch 3 summaryRe l with
      | Some _ => true
      | None => false
      end
  end.

(** The streamed lines that are not blank, comment or summary lines. *)
Fixpoint streamedRecords (sc : Scanner) : nat :=
  match sc with
  | Some l :: r =>
      if isHeaderKind l then streamedRecords r else S (streamedRecords r)
  | _ => O
  end.

(** A feed with a comment, a blank line and a fourth summary line after
    the header, and one record. *)
Definition mixedFeed : string :=
  "2|apnic|20230101|1|19830613|20230101|+1000" ++ nl ++
  "apnic|*|asn|*|0|summary" ++ nl ++
  "apnic|*|ipv4|*|1|summary" ++ nl ++
  "apnic|*|ipv6|*|0|summary" ++ nl ++
  "# records follow" ++ nl ++
  nl ++
  "apnic|*|asn|*|0|summary" ++ nl ++
  "apnic|JP|ipv4|103.2.0.0|1024|20120101|allocated" ++ nl.

(** * Properties *)

(** ** The matcher: unfolding equations *)

Lemma run_Eps fuel s c k : run fuel Eps s c k = k s c.
Proof. destruct fuel; reflexivity. Qed.

Lemma run_Class fuel p s c k :
  run fuel (Class p) s c k =
  match s with
  | String ch t => if p ch then k t c else NoMatch
  | EmptyString => NoMatch
  end.
Proof. destruct fuel; reflexivity. Qed.

Lemma run_Any fuel s c k :
  run fuel AnyNoNL s c k =
  match s with
  | String ch t =>
      if Ascii.eqb ch LF then NoMatch else k (drop (runeLen s - 1) t) c
  | EmptyString => NoMatch
  end.
Proof. destruct fuel; reflexivity. Qed.

Lemma run_Seq fuel a b s c k :
  run fuel (Seq a b) s c k = run fuel a s c (fun s' c' => run fuel b s' c' k).
Proof. destruct fuel; reflexivity. Qed.

Lemma run_Alt fuel a b s c k :
  run fuel (Alt a b) s c k =
  orElse (run fuel a s c k) (fun _ => run fuel b s c k).
Proof. destruct fuel; reflexivity. Qed.

Lemma run_Star fuel a s c k :
  run (S fuel) (Star a) s c k =
  orElse
    (run (S fuel) a s c
         (fun s' c' =>
            if Nat.ltb (String.length s') (String.length s)
            then run fuel (Star a) s' c' k else NoMatch))
    (fun _ => k s c).
Proof. reflexivity. Qed.

Lemma run_Star_0 a s c k : run 0 (Star a) s c k = OutOfFuel.
Proof. reflexivity. Qed.

Lemma run_Group fuel i a s c k :
  run fuel (Group i a) s c k =
  run fuel a s c
      (fun s' c' =>
         k s' (upd i (take (String.length s - String.length s') s) c')).
Proof. destruct fuel; reflexivity. Qed.

Lemma run_Eol fuel s c k :
  run fuel Eol s c k =
  match s with
  | EmptyString => k s c
  | _ => NoMatch
  end.
Proof. destruct fuel; reflexivity. Qed.

Lemma orElse_Matched a b m :
  orElse a b = Matched m -> a = Matched m \/ (a = NoMatch /\ b tt = Matched m).
Proof. destruct a; simpl; intros H; auto; discriminate. Qed.

(** ** What a match means

    Every answer of the matcher is a [Match] followed by a successful
    continuation. *)

Lemma run_sound fuel :
  forall r s c k m,
    run fuel r s c k = Matched m ->
    exists s' c', Match r s c s' c' /\ k s' c' = Matched m.
Proof.
  induction fuel as [|f IHf]; induction r; intros s c k m H.
  all: try (rewrite run_Eps in H; exists s, c; split; [constructor | exact H]).
  all: try (rewrite run_Class in H; destruct s as [|ch t]; [discriminate|];
            destruct (b ch) eqn:E; [|discriminate];
            exists t, c; split; [constructor; exact E | exact H]).
  all: try (rewrite run_Any in H; destruct s as [|ch t]; [discriminate|];
            destruct (Ascii.eqb ch LF) eqn:E; [discriminate|];
            eexists _, c; split; [constructor; exact E | exact H]).
  all: try (rewrite run_Seq in H; apply IHr1 in H;
            destruct H as (s1 & c1 & M1 & H); apply IHr2 in H;
            destruct H as (s2 & c2 & M2 & H);
            exists s2, c2; split; [econstructor; eassumption | exact H]).
  all: try (rewrite run_Alt in H; apply orElse_Matched in H;
            destruct H as [H | [_ H]];
            [apply IHr1 in H; destruct H as (s1 & c1 & M1 & H); exists s1, c1;
             split; [apply MAltL; exact M1 | exact H]
            |apply IHr2 in H; destruct H as (s1 & c1 & M1 & H); exists s1, c1;
             split; [apply MAltR; exact M1 | exact H]]).
  all: try (rewrite run_Group in H; apply IHr in H;
            destruct H as (s1 & c1 & M1 & H);
            eexists _, _; split; [apply MGroup; exact M1 | exact H]).
  all: try (rewrite run_Eol in H; destruct s; [|discriminate];
            exists EmptyString, c; split; [constructor | exact H]).
  - rewrite run_Star_0 in H. discriminate.
  - rewrite run_Star in H. apply orElse_Matched in H.
    destruct H as [H | [_ H]].
    + apply IHr in H. destruct H as (s1 & c1 & M1 & H).
      destruct (Nat.ltb (String.length s1) (String.length s)); [|discriminate].
      apply IHf in H. destruct H as (s2 & c2 & M2 & H).
      exists s2, c2. split; [eapply MStarS; eassumption | exact H].
    + exists s, c. split; [constructor | exact H].
Qed.

Lemma orElse_decided a b :
  a <> OutOfFuel -> (a = NoMatch -> b tt <> OutOfFuel) ->
  orElse a b <> OutOfFuel.
Proof. destruct a; simpl; auto. Qed.

Lemma drop_length n : forall t,
  (String.length (drop n t) <= String.length t)%nat.
Proof. induction n as [|n IH]; intros [|ch t]; simpl; auto. Qed.

(** The fuel [FindStringSubmatch] starts with is never used up: a loop
    goes round again only on a shorter rest of the line. *)
Lemma run_fuel_enough fuel :
  forall r s c k,
    (String.length s < fuel)%nat ->
    (forall s' c', (String.length s' <= String.length s)%nat ->
                   k s' c' <> OutOfFuel) ->
    run fuel r s c k <> OutOfFuel.
Proof.
  induction fuel as [|f IHf]; [intros; lia|].
  induction r; intros s c k L K.
  - rewrite run_Eps. apply K. lia.
  - rewrite run_Class. destruct s as [|ch t]; [discriminate|].
    destruct (b ch); [|discriminate]. apply K. simpl. lia.
  - rewrite run_Any. destruct s as [|ch t]; [discriminate|].
    destruct (Ascii.eqb ch LF); [discriminate|]. apply K.
    pose proof (drop_length (runeLen (String ch t) - 1) t).
    change (String.length (String ch t)) with (S (String.length t)). lia.
  - rewrite run_Seq. apply IHr1; [exact L|].
    intros s1 c1 L1. apply IHr2; [lia|].
    intros s2 c2 L2. apply K. lia.
  - rewrite run_Alt. apply orElse_decided; [apply IHr1 | intros _; apply IHr2];
      auto.
  - rewrite run_Star. apply orElse_decided; [|intros _; apply K; lia].
    apply IHr; [exact L|]. intros s1 c1 L1.
    destruct (Nat.ltb (String.length s1) (String.length s)) eqn:E;
      [|discriminate].
    apply Nat.ltb_lt in E. apply IHf; [lia|].
    intros s2 c2 L2. apply K. lia.
  - rewrite run_Group. apply IHr; [exact L|].
    intros s1 c1 L1. apply K. exact L1.
  - rewrite run_Eol. destruct s; [|discriminate]. apply K. simpl. lia.
Qed.

(** So [nil] from [FindStringSubmatch] means that the pattern does not
    match. *)
Lemma FindStringSubmatch_nil n re line :
  FindStringSubmatch n re line = None ->
  run (S (String.length line)) (Group 0 re) line (repeat "" (S n))
      (fun _ c => Matched c) = NoMatch.
Proof.
  unfold FindStringSubmatch. intros H.
  pose proof (run_fuel_enough (S (String.length line)) (Group 0 re) line
                (repeat "" (S n)) (fun _ c => Matched c)
                (Nat.lt_succ_diag_r _)) as F.
  destruct (run _ _ _ _ _); [discriminate | reflexivity |].
  exfalso. apply F; [|reflexivity]. intros; discriminate.
Qed.

(** ** Strings *)

Lemma str_app_assoc (a b c : string) : ((a ++ b) ++ c = a ++ (b ++ c))%string.
Proof. induction a; simpl; congruence. Qed.

Lemma str_app_nil_r (a : string) : (a ++ "")%string = a.
Proof. induction a; simpl; congruence. Qed.

Lemma str_length_app (a b : string) :
  String.length (a ++ b) = (String.length a + String.length b)%nat.
Proof. induction a; simpl; congruence. Qed.

Lemma take_app (a b : string) : take (String.length a) (a ++ b) = a.
Proof.
  unfold take. induction a as [|ch a IH]; simpl.
  - destruct b; reflexivity.
  - now rewrite IH.
Qed.

Lemma take_consumed (a b : string) :
  take (String.length (a ++ b) - String.length b) (a ++ b) = a.
Proof.
  rewrite str_length_app.
  replace (String.length a + String.length b - String.length b)%nat
    with (String.length a) by lia.
  apply take_app.
Qed.

Lemma drop_suffix (n : nat) (t : string) :
  exists w, t = (w ++ drop n t)%string.
Proof.
  revert t. induction n as [|n IH]; intros t.
  - exists EmptyString. reflexivity.
  - destruct t as [|ch t]; simpl.
    + exists EmptyString. reflexivity.
    + destruct (IH t) as [w Hw]. exists (String ch w). simpl. now rewrite <- Hw.
Qed.


(** ** Captures *)

Lemma upd_length i v l : List.length (upd i v l) = List.length l.
Proof.
  revert i. induction l as [|h t IH]; intros [|i]; simpl; auto.
Qed.

Lemma cap_upd_same i v l : (i < List.length l)%nat -> cap i (upd i v l) = v.
Proof.
  unfold cap. revert i. induction l as [|h t IH]; intros [|i] H; simpl in *;
    try lia; auto. apply IH. lia.
Qed.

Lemma cap_upd_other i j v l : i <> j -> cap j (upd i v l) = cap j l.
Proof.
  unfold cap. revert i j. induction l as [|h t IH]; intros [|i] [|j] H; simpl;
    auto; try congruence.
Qed.

Lemma Match_caps r s c s' c' :
  Match r s c s' c' ->
  List.length c' = List.length c /\
  forall j, ~ In j (groups r) -> cap j c' = cap j c.
Proof.
  induction 1; simpl; try (split; [reflexivity | reflexivity]).
  - destruct IHMatch1 as [L1 P1], IHMatch2 as [L2 P2]. split; [congruence|].
    intros j Hj. rewrite P2, P1; auto; intros ?; apply Hj, in_or_app; auto.
  - destruct IHMatch as [L P]. split; [exact L|].
    intros j Hj. apply P. intros ?; apply Hj, in_or_app; auto.
  - destruct IHMatch as [L P]. split; [exact L|].
    intros j Hj. apply P. intros ?; apply Hj, in_or_app; auto.
  - destruct IHMatch1 as [L1 P1], IHMatch2 as [L2 P2]. split; [congruence|].
    intros j Hj. rewrite P2, P1; auto.
  - destruct IHMatch as [L P]. split; [now rewrite upd_length|].
    intros j Hj. rewrite cap_upd_other; [apply P|]; intuition.
Qed.

Lemma Match_suffix r s c s' c' :
  Match r s c s' c' -> exists w, s = (w ++ s')%string.
Proof.
  induction 1; try (exists EmptyString; reflexivity); try assumption.
  - exists (String ch EmptyString). reflexivity.
  - destruct (drop_suffix (runeLen (String ch t) - 1) t) as [w Hw].
    exists (String ch w). cbn [append]. f_equal. exact Hw.
  - destruct IHMatch1 as [w1 ->], IHMatch2 as [w2 ->].
    exists (w1 ++ w2)%string. now rewrite str_app_assoc.
  - destruct IHMatch1 as [w1 ->], IHMatch2 as [w2 ->].
    exists (w1 ++ w2)%string. now rewrite str_app_assoc.
Qed.

Lemma Match_Seq_inv a b s c s2 c2 :
  Match (Seq a b) s c s2 c2 ->
  exists s1 c1, Match a s c s1 c1 /\ Match b s1 c1 s2 c2.
Proof. inversion 1; subst; eauto. Qed.

Lemma Match_Alt_inv a b s c s' c' :
  Match (Alt a b) s c s' c' -> Match a s c s' c' \/ Match b s c s' c'.
Proof. inversion 1; subst; auto. Qed.

Lemma Match_Group_inv i a s c s' c' :
  Match (Group i a) s c s' c' ->
  exists c1, Match a s c s' c1 /\
             c' = upd i (take (String.length s - String.length s') s) c1.
Proof. inversion 1; subst; eauto. Qed.

Lemma Match_Str w : forall s c s' c',
  Match (Str w) s c s' c' -> s = (w ++ s')%string /\ c' = c.
Proof.
  induction w as [|ch w IH]; simpl; intros s c s' c' H.
  - inversion H; subst; auto.
  - apply Match_Seq_inv in H. destruct H as (s1 & c1 & H1 & H2).
    apply IH in H2. destruct H2 as [-> ->].
    inversion H1 as [ | p ch' t c0 E | | | | | | | | ]; subst.
    apply Ascii.eqb_eq in E. subst. auto.
Qed.

(** A group around a word list captures one of the words. *)
Lemma Match_Group_word i r s c s' c' (words : list string) :
  (forall s0 c0 s1 c1, Match r s0 c0 s1 c1 ->
     exists w, In w words /\ s0 = (w ++ s1)%string /\ c1 = c0) ->
  Match (Group i r) s c s' c' ->
  exists w, In w words /\ s = (w ++ s')%string /\ c' = upd i w c.
Proof.
  intros Hr H. apply Match_Group_inv in H. destruct H as (c1 & H & ->).
  apply Hr in H. destruct H as (w & Hw & -> & ->).
  exists w. rewrite take_consumed. auto.
Qed.

Lemma Match_typeRe s c s' c' :
  Match typeRe s c s' c' ->
  exists w, In w typeNames /\ s = (w ++ s')%string /\ c' = c.
Proof.
  unfold typeRe, typeNames. intros H.
  repeat (apply Match_Alt_inv in H; destruct H as [H | H]);
    apply Match_Str in H; destruct H as [-> ->];
    eexists; (split; [|split; reflexivity]); simpl; auto.
Qed.

Lemma typeNames_known w : In w typeNames -> typeOfName w <> None.
Proof.
  unfold typeNames. simpl. intros [<- | [<- | [<- | []]]]; discriminate.
Qed.

Lemma FindStringSubmatch_sound n re line m :
  FindStringSubmatch n re line = Some m ->
  exists s' c',
    Match re line (repeat "" (S n)) s' c' /\
    m = upd 0 (take (String.length line - String.length s') line) c'.
Proof.
  unfold FindStringSubmatch. intros H.
  destruct (run _ _ _ _ _) as [m'| |] eqn:E; try discriminate.
  injection H as <-. apply run_sound in E.
  destruct E as (s' & c' & M & E).
  apply Match_Group_inv in M. destruct M as (c1 & M & ->).
  injection E as <-. eauto.
Qed.

(** Splits a sequence and records that its head keeps the number of
    captures. *)
Ltac peel H L :=
  let s1 := fresh "s" in
  let c1 := fresh "c" in
  let M := fresh "M" in
  let L' := fresh "L" in
  apply Match_Seq_inv in H; destruct H as (s1 & c1 & M & H);
  pose proof (proj1 (Match_caps _ _ _ _ _ M)) as L';
  rewrite L in L'; clear L; rename L' into L; clear M.

Lemma record_type_known line m :
  FindStringSubmatch 8 recordRe line = Some m -> In (cap 3 m) typeNames.
Proof.
  intros H. apply FindStringSubmatch_sound in H.
  destruct H as (s' & c' & H & ->).
  assert (L : List.length (repeat "" 9) = 9%nat) by reflexivity.
  unfold recordRe in H.
  peel H L. peel H L. peel H L. peel H L.
  apply Match_Seq_inv in H. destruct H as (s3 & c3 & M & H).
  apply (Match_Group_word _ _ _ _ _ _ typeNames) in M;
    [|intros; now apply Match_typeRe].
  destruct M as (w & Hw & _ & ->).
  apply Match_caps in H. destruct H as [_ P].
  rewrite cap_upd_other by discriminate.
  rewrite P.
  - rewrite cap_upd_same by (rewrite L; lia). exact Hw.
  - simpl. intuition discriminate.
Qed.

Lemma summary_type_known line m :
  FindStringSubmatch 3 summaryRe line = Some m -> In (cap 2 m) typeNames.
Proof.
  intros H. apply FindStringSubmatch_sound in H.
  destruct H as (s' & c' & H & ->).
  assert (L : List.length (repeat "" 4) = 4%nat) by reflexivity.
  unfold summaryRe in H.
  peel H L. peel H L. peel H L. peel H L.
  apply Match_Seq_inv in H. destruct H as (s3 & c3 & M & H).
  apply (Match_Group_word _ _ _ _ _ _ typeNames) in M;
    [|intros; now apply Match_typeRe].
  destruct M as (w & Hw & _ & ->).
  apply Match_caps in H. destruct H as [_ P].
  rewrite cap_upd_other by discriminate.
  rewrite P.
  - rewrite cap_upd_same by (rewrite L; lia). exact Hw.
  - simpl. intuition discriminate.
Qed.

(** The [default] branch of [parseSummaryLine] is never taken. *)
Lemma parseSummaryLine_returns hdr line :
  exists hdr',
    parseSummaryLine hdr line = Returns hdr' /\
    version hdr' = version hdr /\ registry hdr' = registry hdr /\
    serial hdr' = serial hdr /\ records hdr' = records hdr /\
    startdate hdr' = startdate hdr /\ enddate hdr' = enddate hdr /\
    UTCoffset hdr' = UTCoffset hdr.
Proof.
  unfold parseSummaryLine.
  destruct (FindStringSubmatch 3 summaryRe line) as [m|] eqn:E.
  - apply summary_type_known in E. unfold typeNames in E. simpl in E.
    destruct E as [<- | [<- | [<- | []]]]; simpl;
      eexists; (split; [reflexivity|]); simpl; repeat split.
  - exists hdr. repeat split.
Qed.

Lemma summaryLoop_returns n : forall hdr sc,
  exists hdr' sc',
    summaryLoop n hdr sc = Returns (hdr', sc') /\
    version hdr' = version hdr /\ registry hdr' = registry hdr /\
    serial hdr' = serial hdr /\ records hdr' = records hdr /\
    startdate hdr' = startdate hdr /\ enddate hdr' = enddate hdr /\
    UTCoffset hdr' = UTCoffset hdr.
Proof.
  induction n as [|n IH]; intros hdr sc; simpl.
  - exists hdr, sc. repeat split.
  - destruct sc as [|[l|] r]; simpl.
    + exists hdr, []. repeat split.
    + destruct (parseSummaryLine_returns hdr l)
        as (h1 & -> & V & R & S1 & N & SD & ED & U). simpl.
      destruct (IH h1 r) as (h2 & sc2 & -> & V2 & R2 & S2 & N2 & SD2 & ED2 & U2).
      exists h2, sc2. repeat split; congruence.
    + exists hdr, r. repeat split.
Qed.

(** ** The matcher on well-formed fields

    Each lemma says that a piece of a pattern, run on a field of the right
    shape followed by [s], hands [s] to its continuation; they are stated
    for a continuation that succeeds, which is all the leftmost-first
    search needs to stop there. *)

Arguments run : simpl never.

Lemma take_all (a : string) : take (String.length a - 0) a = a.
Proof.
  rewrite Nat.sub_0_r. rewrite <- (str_app_nil_r a) at 2. apply take_app.
Qed.

Lemma upd_upd i a b l : upd i a (upd i b l) = upd i a l.
Proof.
  revert i. induction l as [|h t IH]; intros [|i]; simpl; auto.
  now rewrite IH.
Qed.

Lemma run_Chr fuel ch s c k : run fuel (Chr ch) (String ch s) c k = k s c.
Proof. unfold Chr. rewrite run_Class. now rewrite Ascii.eqb_refl. Qed.

Lemma run_Str fuel w : forall s c k,
  run fuel (Str w) (w ++ s) c k = k s c.
Proof.
  induction w as [|ch w IH]; intros s c k; simpl.
  - apply run_Eps.
  - rewrite run_Seq, run_Chr. apply IH.
Qed.

Lemma run_star_class fuel p w : forall s c k m,
  allb p w = true -> headFails p s = true ->
  (String.length w < fuel)%nat ->
  k s c = Matched m ->
  run fuel (Star (Class p)) (w ++ s) c k = Matched m.
Proof.
  revert fuel. induction w as [|ch w IH]; intros fuel s c k m A HF L K.
  - destruct fuel as [|f]; [simpl in L; lia|].
    simpl. rewrite run_Star, run_Class.
    destruct s as [|x s]; simpl in *; [exact K|].
    apply negb_true_iff in HF. rewrite HF. simpl. exact K.
  - destruct fuel as [|f]; [simpl in L; lia|].
    simpl in A. apply andb_true_iff in A. destruct A as [Pc A].
    cbn [append]. rewrite run_Star, run_Class, Pc.
    assert (Lt : Nat.ltb (String.length (w ++ s))
                         (String.length (String ch (w ++ s))) = true)
      by (apply Nat.ltb_lt; simpl; lia).
    rewrite Lt. rewrite (IH f s c k m); auto. simpl in L. lia.
Qed.

Lemma run_plus_class fuel i p w s c k m :
  allb p w = true -> w <> EmptyString -> headFails p s = true ->
  (String.length w < fuel)%nat ->
  k s (upd i w c) = Matched m ->
  run fuel (Group i (Plus (Class p))) (w ++ s) c k = Matched m.
Proof.
  intros A NE HF L K. rewrite run_Group. unfold Plus. rewrite run_Seq.
  destruct w as [|ch w]; [congruence|].
  simpl in A. apply andb_true_iff in A. destruct A as [Pc A].
  cbn [append]. rewrite run_Class, Pc.
  apply run_star_class; auto.
  - simpl in L. lia.
  - change (String ch (w ++ s)) with (String ch w ++ s)%string.
    rewrite take_consumed. exact K.
Qed.

Lemma run_star_group_class fuel i p w : forall s v c k m,
  allb p w = true -> headFails p s = true ->
  (String.length w < fuel)%nat ->
  k s (upd i (lastOr v w) c) = Matched m ->
  run fuel (Star (Group i (Class p))) (w ++ s) (upd i v c) k = Matched m.
Proof.
  revert fuel. induction w as [|ch w IH]; intros fuel s v c k m A HF L K.
  - destruct fuel as [|f]; [simpl in L; lia|].
    simpl. rewrite run_Star, run_Group, run_Class.
    destruct s as [|x s]; simpl in *; [exact K|].
    apply negb_true_iff in HF. rewrite HF. simpl. exact K.
  - destruct fuel as [|f]; [simpl in L; lia|].
    simpl in A. apply andb_true_iff in A. destruct A as [Pc A].
    cbn [append]. rewrite run_Star, run_Group, run_Class, Pc.
    assert (Lt : Nat.ltb (String.length (w ++ s))
                         (String.length (String ch (w ++ s))) = true)
      by (apply Nat.ltb_lt; simpl; lia).
    rewrite Lt.
    change (String ch (w ++ s)) with (String ch EmptyString ++ (w ++ s))%string.
    rewrite take_consumed, upd_upd.
    rewrite (IH f s (String ch EmptyString) c k m); auto.
    simpl in L. lia.
Qed.

Lemma run_plus_group_class fuel i p w s c k m :
  allb p w = true -> w <> EmptyString -> headFails p s = true ->
  (String.length w < fuel)%nat ->
  k s (upd i (lastOr EmptyString w) c) = Matched m ->
  run fuel (Plus (Group i (Class p))) (w ++ s) c k = Matched m.
Proof.
  intros A NE HF L K. unfold Plus. rewrite run_Seq, run_Group.
  destruct w as [|ch w]; [congruence|].
  simpl in A. apply andb_true_iff in A. destruct A as [Pc A].
  cbn [append]. rewrite run_Class, Pc.
  change (String ch (w ++ s)) with (String ch EmptyString ++ (w ++ s))%string.
  rewrite take_consumed.
  apply run_star_group_class; auto. simpl in L. lia.
Qed.


Lemma drop_allb p n : forall t, allb p t = true -> allb p (drop n t) = true.
Proof.
  induction n as [|n IH]; intros [|ch t] H; simpl in *; auto.
  apply andb_true_iff in H. destruct H. auto.
Qed.

Lemma run_star_any n : forall fuel t c k m,
  (String.length t <= n)%nat -> allb notLF t = true ->
  (String.length t < fuel)%nat ->
  k EmptyString c = Matched m ->
  run fuel (Star AnyNoNL) t c k = Matched m.
Proof.
  induction n as [|n IH]; intros fuel t c k m Ln A L K.
  - destruct t; [|simpl in Ln; lia].
    destruct fuel as [|f]; [simpl in L; lia|].
    rewrite run_Star, run_Any. simpl. exact K.
  - destruct fuel as [|f]; [lia|].
    destruct t as [|ch t].
    + rewrite run_Star, run_Any. simpl. exact K.
    + simpl in A. apply andb_true_iff in A. destruct A as [Pc A].
      unfold notLF in Pc. apply negb_true_iff in Pc.
      rewrite run_Star, run_Any, Pc.
      pose proof (drop_length (runeLen (String ch t) - 1) t) as D.
      assert (Lt : Nat.ltb (String.length (drop (runeLen (String ch t) - 1) t))
                           (String.length (String ch t)) = true)
        by (apply Nat.ltb_lt;
            change (String.length (String ch t)) with (S (String.length t));
            lia).
      rewrite Lt.
      change (String.length (String ch t)) with (S (String.length t)) in Ln, L.
      rewrite (IH f _ c k m); auto; try lia.
      apply drop_allb. exact A.
Qed.

Lemma run_group_rest fuel i t c k m :
  allb notLF t = true -> (String.length t < fuel)%nat ->
  k EmptyString (upd i t c) = Matched m ->
  run fuel (Group i (Star AnyNoNL)) t c k = Matched m.
Proof.
  intros A L K. rewrite run_Group.
  apply (run_star_any (String.length t)); auto.
  simpl String.length. rewrite take_all. exact K.
Qed.

Lemma run_Str_clash fuel w : forall r s c k,
  clash w r = true -> run fuel (Str w) (r ++ s) c k = NoMatch.
Proof.
  induction w as [|a w IH]; intros [|b r] s c k H; simpl in H;
    try discriminate.
  cbn [Str append]. rewrite run_Seq. unfold Chr. rewrite run_Class.
  destruct (Ascii.eqb a b); [|reflexivity]. now apply IH.
Qed.

Lemma run_AltWords fuel ws : forall r s c k m,
  In r ws ->
  forallb (fun w => String.eqb w r || clash w r) ws = true ->
  k s c = Matched m ->
  run fuel (AltWords ws) (r ++ s) c k = Matched m.
Proof.
  induction ws as [|w ws IH]; intros r s c k m I D K; [destruct I|].
  simpl in D. apply andb_true_iff in D. destruct D as [Dw D].
  destruct ws as [|w2 ws].
  - destruct I as [-> | []]. simpl. now rewrite run_Str.
  - cbn [AltWords]. rewrite run_Alt.
    destruct (String.eqb w r) eqn:E.
    + apply String.eqb_eq in E. subst w. rewrite run_Str, K. reflexivity.
    + simpl in Dw. rewrite run_Str_clash by exact Dw. simpl.
      apply IH; auto. destruct I as [-> | I]; [|exact I].
      rewrite String.eqb_refl in E. discriminate.
Qed.

Lemma run_group_words fuel i ws r s c k m :
  In r ws ->
  forallb (fun w => String.eqb w r || clash w r) ws = true ->
  k s (upd i r c) = Matched m ->
  run fuel (Group i (AltWords ws)) (r ++ s) c k = Matched m.
Proof.
  intros I D K. rewrite run_Group. apply run_AltWords; auto.
  rewrite take_consumed. exact K.
Qed.

Lemma words_distinct (ws : list string) r :
  forallb (fun r => forallb (fun w => String.eqb w r || clash w r) ws) ws
  = true ->
  In r ws -> forallb (fun w => String.eqb w r || clash w r) ws = true.
Proof.
  intros H I. rewrite forallb_forall in H. now apply H.
Qed.

Lemma run_registry fuel i r s c k m :
  In r registryNames ->
  k s (upd i r c) = Matched m ->
  run fuel (Group i registryRe) (r ++ s) c k = Matched m.
Proof.
  intros I K. change registryRe with (AltWords registryNames).
  apply run_group_words; auto. now apply words_distinct.
Qed.

Lemma run_type fuel i r s c k m :
  In r typeNames ->
  k s (upd i r c) = Matched m ->
  run fuel (Group i typeRe) (r ++ s) c k = Matched m.
Proof.
  intros I K. change typeRe with (AltWords typeNames).
  apply run_group_words; auto. now apply words_distinct.
Qed.

Lemma run_state fuel i r s c k m :
  In r stateNames ->
  k s (upd i r c) = Matched m ->
  run fuel (Group i stateRe) (r ++ s) c k = Matched m.
Proof.
  intros I K. change stateRe with (AltWords stateNames).
  apply run_group_words; auto. now apply words_distinct.
Qed.

(** ** Well-formed lines *)

Ltac fuel_ok :=
  match goal with
  | L : (String.length _ < _)%nat |- _ =>
      repeat (rewrite str_length_app in L || cbn [String.length] in L);
      repeat (rewrite str_length_app || cbn [String.length]); lia
  end.

Ltac step_bar := rewrite run_Seq; cbn [append]; unfold bar; rewrite run_Chr.

Lemma versionRe_run fuel v r ser n sd ed rest :
  wfVersion v r ser n sd ed rest ->
  (String.length (versionLine v r ser n sd ed rest) < fuel)%nat ->
  run fuel (Group 0 versionRe) (versionLine v r ser n sd ed rest)
      (repeat "" 8) (fun _ c => Matched c) =
  Matched [versionLine v r ser n sd ed rest; lastOr "" v; r; ser; n; sd; ed;
           rest].
Proof.
  intros [[Av Nv] Ir [As Ns] [An Nn] [Asd Nsd] [Aed Ned] Ar] L.
  rewrite run_Group. unfold versionRe. rewrite run_Seq.
  unfold versionLine in *.
  apply run_plus_group_class; auto; [fuel_ok|].
  step_bar. rewrite run_Seq. apply run_registry; auto.
  step_bar. rewrite run_Seq. apply run_plus_class; auto; [fuel_ok|].
  step_bar. rewrite run_Seq. apply run_plus_class; auto; [fuel_ok|].
  step_bar. rewrite run_Seq. apply run_plus_class; auto; [fuel_ok|].
  step_bar. rewrite run_Seq. apply run_plus_class; auto; [fuel_ok|].
  step_bar. apply run_group_rest; auto; [fuel_ok|].
  rewrite take_all. reflexivity.
Qed.

Lemma versionRe_matches v r ser n sd ed rest :
  wfVersion v r ser n sd ed rest ->
  FindStringSubmatch 7 versionRe (versionLine v r ser n sd ed rest) =
  Some [versionLine v r ser n sd ed rest; lastOr "" v; r; ser; n; sd; ed;
        rest].
Proof.
  intros W. unfold FindStringSubmatch.
  rewrite (versionRe_run _ v r ser n sd ed rest W); auto.
Qed.

(** ** Decimal numerals *)

Lemma isDigit_val c : isDigit c = true -> 0 <= digitVal c <= 9.
Proof.
  unfold isDigit, inRange, digitVal. intros H.
  apply andb_true_iff in H. destruct H as [H1 H2].
  apply N.leb_le in H1, H2.
  change (byteN "0") with 48%N in H1. change (byteN "9") with 57%N in H2.
  lia.
Qed.

Lemma decimalAcc_ge w : forall a,
  allb isDigit w = true -> 0 <= a -> a <= decimalAcc w a.
Proof.
  induction w as [|c w IH]; intros a A Ha; simpl; [lia|].
  simpl in A. apply andb_true_iff in A. destruct A as [Dc A].
  apply isDigit_val in Dc. specialize (IH (a * 10 + digitVal c) A). lia.
Qed.

Lemma parseUintLoop_spec maxVal w : forall n,
  allb isDigit w = true -> 0 <= n <= maxVal -> maxVal <= maxUint64 ->
  parseUintLoop maxVal w n =
  if decimalAcc w n <=? maxVal then (decimalAcc w n, None)
  else (maxVal, Some ErrRange).
Proof.
  induction w as [|c w IH]; intros n A Hn Hm; simpl.
  - destruct (Z.leb_spec n maxVal); [reflexivity | lia].
  - simpl in A. apply andb_true_iff in A. destruct A as [Dc A].
    rewrite Dc. pose proof (isDigit_val c Dc) as Hd.
    pose proof (decimalAcc_ge w (n * 10 + digitVal c) A) as G.
    unfold maxUint64 in Hm.
    destruct (Z.geb_spec n cutoff10) as [C | C].
    + unfold cutoff10, maxUint64 in C.
      change ((2 ^ 64 - 1) / 10 + 1) with 1844674407370955162 in C.
      destruct (Z.leb_spec (decimalAcc w (n * 10 + digitVal c)) maxVal);
        [lia | reflexivity].
    + unfold cutoff10, maxUint64 in C.
      change ((2 ^ 64 - 1) / 10 + 1) with 1844674407370955162 in C.
      assert (W10 : wrap64 (n * 10) = n * 10)
        by (unfold wrap64; apply Z.mod_small; lia).
      rewrite W10.
      destruct (Z_lt_ge_dec (n * 10 + digitVal c) (2 ^ 64)) as [S | B].
      * assert (W1 : wrap64 (n * 10 + digitVal c) = n * 10 + digitVal c)
          by (unfold wrap64; apply Z.mod_small; lia).
        rewrite W1.
        destruct (Z.ltb_spec (n * 10 + digitVal c) (n * 10)); [lia|].
        simpl. destruct (Z.gtb_spec (n * 10 + digitVal c) maxVal).
        -- destruct (Z.leb_spec (decimalAcc w (n * 10 + digitVal c)) maxVal);
             [lia | reflexivity].
        -- apply IH; auto. lia.
      * assert (W1 : wrap64 (n * 10 + digitVal c)
                     = n * 10 + digitVal c - 2 ^ 64).
        { unfold wrap64. symmetry.
          apply (Z.mod_unique_pos _ _ 1); lia. }
        rewrite W1.
        destruct (Z.ltb_spec (n * 10 + digitVal c - 2 ^ 64) (n * 10)); [|lia].
        simpl.
        destruct (Z.leb_spec (decimalAcc w (n * 10 + digitVal c)) maxVal);
          [lia | reflexivity].
Qed.

Lemma ParseUint_numeral w bits :
  numeral w -> 0 <= bits <= 64 ->
  ParseUint w bits =
  if decimal w <=? 2 ^ bits - 1 then (decimal w, None)
  else (2 ^ bits - 1, Some ErrRange).
Proof.
  intros [A NE] Hb. unfold ParseUint, decimal.
  destruct w as [|c w]; [congruence|].
  apply parseUintLoop_spec; auto.
  - assert (0 < 2 ^ bits) by (apply Z.pow_pos_nonneg; lia). lia.
  - unfold maxUint64.
    assert (2 ^ bits <= 2 ^ 64) by (apply Z.pow_le_mono_r; lia). lia.
Qed.

Lemma ParseUint32_numeral w :
  numeral w -> fst (ParseUint w 32) = Z.min (decimal w) 4294967295.
Proof.
  intros N. rewrite ParseUint_numeral by (auto; lia).
  change (2 ^ 32 - 1) with 4294967295.
  destruct (Z.leb_spec (decimal w) 4294967295); simpl; lia.
Qed.

Lemma decimal_nonneg w : allb isDigit w = true -> 0 <= decimal w.
Proof. intros A. apply (decimalAcc_ge w 0 A). lia. Qed.

Lemma digit_not_sign c :
  isDigit c = true -> Ascii.eqb c "+" = false /\ Ascii.eqb c "-" = false.
Proof.
  intros D. split; apply Ascii.eqb_neq; intros ->; discriminate.
Qed.

Lemma ParseInt32_signed sg w :
  numeral w -> decimal w < 2 ^ 31 ->
  ParseInt (signText sg ++ w) 32 = (signed sg (decimal w), None).
Proof.
  intros N B. pose proof (ParseUint_numeral w 32 N ltac:(lia)) as P.
  pose proof (decimal_nonneg w (proj1 N)) as NN.
  change (2 ^ 32 - 1) with 4294967295 in P. change (2 ^ 31) with 2147483648 in B.
  destruct (Z.leb_spec (decimal w) 4294967295); [|lia].
  unfold ParseInt.
  destruct sg; simpl signText; cbn [append].
  - destruct N as [A NE]. destruct w as [|c w]; [congruence|].
    simpl in A. apply andb_true_iff in A. destruct A as [Dc A].
    destruct (digit_not_sign c Dc) as [-> ->]. simpl orb. cbv iota.
    rewrite P. change (2 ^ (32 - 1)) with 2147483648. simpl negb.
    destruct (Z.geb_spec (decimal (String c w)) 2147483648); [lia|].
    reflexivity.
  - change (Ascii.eqb "+" "-") with false. change (Ascii.eqb "+" "+") with true.
    simpl orb. cbv iota. rewrite P. change (2 ^ (32 - 1)) with 2147483648.
    simpl negb.
    destruct (Z.geb_spec (decimal w) 2147483648); [lia|]. reflexivity.
  - change (Ascii.eqb "-" "-") with true. change (Ascii.eqb "-" "+") with false.
    simpl orb. cbv iota. rewrite P. change (2 ^ (32 - 1)) with 2147483648.
    simpl negb. simpl andb.
    destruct (Z.gtb_spec (decimal w) 2147483648); [lia|]. reflexivity.
Qed.

(** ** The header assembler *)

Lemma skipComments_finds cs : forall c0 l sc,
  forallb isCommentLine (c0 :: cs) = true ->
  isCommentLine l = false -> l <> EmptyString ->
  skipComments c0 (linesThen cs (Some l :: sc)) = Returns (l, sc).
Proof.
  induction cs as [|c1 cs IH]; intros c0 l sc C NC NE;
    simpl in C; apply andb_true_iff in C; destruct C as [C0 C].
  - destruct c0 as [|x c0]; [discriminate|]. simpl in C0.
    cbn [linesThen map List.app skipComments]. rewrite C0. cbn [scanText].
    destruct l as [|y l]; [congruence|]. simpl in NC.
    destruct sc; simpl; now rewrite NC.
  - destruct c0 as [|x c0]; [discriminate|]. simpl in C0.
    cbn [linesThen map List.app skipComments]. rewrite C0. cbn [scanText].
    apply (IH c1 l sc); auto.
Qed.

Lemma header_line_found cs l sc :
  forallb isCommentLine cs = true ->
  isCommentLine l = false -> l <> EmptyString ->
  (let '(_, line, sc1) := Scan (linesThen cs (Some l :: sc)) in
   skipComments line sc1) = Returns (l, sc).
Proof.
  intros C NC NE. destruct cs as [|c0 cs].
  - destruct l as [|y l]; [congruence|]. simpl in *.
    destruct sc; simpl; now rewrite NC.
  - cbn [linesThen map List.app Scan scanText].
    now apply skipComments_finds.
Qed.

Lemma versionLine_not_comment v r ser n sd ed rest :
  wfVersion v r ser n sd ed rest ->
  isCommentLine (versionLine v r ser n sd ed rest) = false /\
  versionLine v r ser n sd ed rest <> EmptyString.
Proof.
  intros [[Av Nv] _ _ _ _ _ _]. unfold versionLine.
  destruct v as [|c v]; [congruence|]. simpl in Av.
  apply andb_true_iff in Av. destruct Av as [Vc _].
  cbn [append isCommentLine]. split; [|discriminate].
  unfold isCommentStart.
  destruct (Ascii.eqb_spec c "#") as [->|_]; [discriminate|].
  destruct (Ascii.eqb_spec c CR) as [->|_]; [discriminate|]. reflexivity.
Qed.

(** What the header assembler makes of a well-formed version line, after
    any number of comment lines. *)
Lemma parseHeader_wf fl cs sc hdr v r ser n sd ed rest :
  forallb isCommentLine cs = true ->
  wfVersion v r ser n sd ed rest ->
  exists hdr' sc',
    parseHeader fl (linesThen cs (Some (versionLine v r ser n sd ed rest) :: sc))
                hdr = Returns (hdr', sc') /\
    version hdr' = lastOr "" v /\ registry hdr' = r /\
    serial hdr' = Z.min (decimal ser) 4294967295 /\
    records hdr' = Z.min (decimal n) 4294967295 /\
    startdate hdr' = (if String.eqb sd "00000000" then "19700101" else sd) /\
    enddate hdr' = ed /\
    UTCoffset hdr' = Z.quot (fst (ParseInt rest 32)) 100.
Proof.
  intros C W. destruct (versionLine_not_comment _ _ _ _ _ _ _ W) as [NC NE].
  pose proof (header_line_found cs _ sc C NC NE) as F.
  unfold parseHeader.
  destruct (Scan _) as [[ok line] sc1]. rewrite F. cbn [bindE].
  unfold parseVersionLine. rewrite (versionRe_matches _ _ _ _ _ _ _ W).
  cbn [bindE cap nth].
  rewrite (ParseUint32_numeral ser (wf_serial _ _ _ _ _ _ _ W)).
  rewrite (ParseUint32_numeral n (wf_records _ _ _ _ _ _ _ W)).
  match goal with
  | |- context [summaryLoop 3 ?h sc] =>
      destruct (summaryLoop_returns 3 h sc)
        as (h2 & sc2 & E & V & R & S1 & N & SD & ED & U)
  end.
  exists h2, sc2. rewrite E. simpl in *. repeat split; assumption.
Qed.

Ltac wf_fields :=
  constructor; unfold numeral; repeat split;
  try reflexivity; try discriminate; simpl; auto 10.

(** C3 (amended).  After any number of comment lines, a version line of the
    grammar (a version over [1-9.], one of the five registries, four runs of
    digits, any rest) whose serial and record count are at most 2^32 - 1
    makes [parseHeader] return a descriptor whose registry, serial and
    record count are those of the line, and whose start date is the epoch
    date when the line's start date is 00000000. *)
Theorem parseHeader_echoes_fields fl cs sc hdr v r ser n sd ed rest :
  forallb isCommentLine cs = true ->
  wfVersion v r ser n sd ed rest ->
  decimal ser <= 4294967295 -> decimal n <= 4294967295 ->
  exists hdr' sc',
    parseHeader fl (linesThen cs (Some (versionLine v r ser n sd ed rest) :: sc))
                hdr = Returns (hdr', sc') /\
    registry hdr' = r /\ serial hdr' = decimal ser /\
    records hdr' = decimal n /\
    (sd = "00000000" -> startdate hdr' = "19700101").
Proof.
  intros C W Bs Bn.
  destruct (parseHeader_wf fl cs sc hdr _ _ _ _ _ _ _ C W)
    as (h & sc' & E & _ & R & S1 & N & SD & _ & _).
  exists h, sc'. repeat split; auto; try lia.
  intros ->. exact SD.
Qed.

Lemma parseHeader_echoes_fields_witness :
  wfVersion "2.3" "apnic" "20230101" "3" "00000000" "20230101" "+1000" /\
  exists hdr' sc',
    parseHeader strict
      (linesThen ["# delegated"]
         (Some (versionLine "2.3" "apnic" "20230101" "3" "00000000"
                            "20230101" "+1000") :: []))
      zeroHeader = Returns (hdr', sc') /\
    registry hdr' = "apnic" /\ serial hdr' = decimal "20230101" /\
    records hdr' = decimal "3" /\
    ("00000000" = "00000000" -> startdate hdr' = "19700101").
Proof.
  split; [wf_fields|].
  apply (parseHeader_echoes_fields strict ["# delegated"] [] zeroHeader
           "2.3" "apnic" "20230101" "3" "00000000" "20230101" "+1000");
    [reflexivity | wf_fields | now vm_compute | now vm_compute].
Defined.

(** C3, as stated, fails: a serial of 2^32 is not echoed. *)
Lemma serial_above_32_bits_not_echoed :
  wfVersion "2" "apnic" "4294967296" "3" "20230101" "20230101" "+1000" /\
  exists hdr' sc',
    parseHeader strict
      (NewScanner "2|apnic|4294967296|3|20230101|20230101|+1000")
      zeroHeader = Returns (hdr', sc') /\
    serial hdr' <> decimal "4294967296".
Proof.
  split; [wf_fields|].
  eexists _, _. split; [vm_compute; reflexivity|]. now vm_compute.
Qed.

(** C10 (amended).  A version line whose serial or record count is a
    numeral above 2^32 - 1 still makes [parseHeader] succeed, and the field
    holds 4294967295: the 32-bit parse returns the largest 32-bit value
    with its range error, and the error is dropped. *)
Theorem oversized_numeral_saturates fl cs sc hdr v r ser n sd ed rest :
  forallb isCommentLine cs = true ->
  wfVersion v r ser n sd ed rest ->
  exists hdr' sc',
    parseHeader fl (linesThen cs (Some (versionLine v r ser n sd ed rest) :: sc))
                hdr = Returns (hdr', sc') /\
    (4294967295 < decimal ser -> serial hdr' = 4294967295) /\
    (4294967295 < decimal n -> records hdr' = 4294967295).
Proof.
  intros C W.
  destruct (parseHeader_wf fl cs sc hdr _ _ _ _ _ _ _ C W)
    as (h & sc' & E & _ & R & S1 & N & _).
  exists h, sc'. repeat split; auto; lia.
Qed.

Lemma oversized_numeral_saturates_witness :
  wfVersion "2" "ripencc" "99999999999999999999999" "4294967296" "19700101"
            "20230101" "+0100" /\
  exists hdr' sc',
    parseHeader strict
      (linesThen []
         (Some (versionLine "2" "ripencc" "99999999999999999999999"
                            "4294967296" "19700101" "20230101" "+0100")
          :: [Some "ripencc|*|asn|*|7|summary"]))
      zeroHeader = Returns (hdr', sc') /\
    (4294967295 < decimal "99999999999999999999999" ->
     serial hdr' = 4294967295) /\
    (4294967295 < decimal "4294967296" -> records hdr' = 4294967295).
Proof.
  split; [wf_fields|].
  apply (oversized_numeral_saturates strict [] [Some "ripencc|*|asn|*|7|summary"]
           zeroHeader "2" "ripencc" "99999999999999999999999" "4294967296"
           "19700101" "20230101" "+0100"); [reflexivity | wf_fields].
Defined.

(** C10, as stated, fails: the field does not hold 0. *)
Lemma oversized_numeral_not_zero :
  4294967295 < decimal "5000000000" /\
  4294967295 < decimal "18446744073709551616" /\
  exists hdr' sc',
    parseHeader strict
      (NewScanner "2|arin|5000000000|18446744073709551616|20230101|20230101|-0500")
      zeroHeader = Returns (hdr', sc') /\
    serial hdr' <> 0 /\ records hdr' <> 0.
Proof.
  split; [now vm_compute|]. split; [now vm_compute|].
  eexists _, _. split; [vm_compute; reflexivity|]. split; now vm_compute.
Qed.

(** C4 (amended).  The offset is parsed from the whole rest of the version
    line after the sixth bar.  When that rest is an optionally signed
    numeral below 2^31, the descriptor's offset is the number divided by
    100, truncated toward zero. *)
Theorem utc_offset_whole_hours fl cs sc hdr v r ser n sd ed sg w :
  forallb isCommentLine cs = true ->
  wfVersion v r ser n sd ed (signText sg ++ w) ->
  numeral w -> decimal w < 2 ^ 31 ->
  exists hdr' sc',
    parseHeader fl
      (linesThen cs
         (Some (versionLine v r ser n sd ed (signText sg ++ w)) :: sc))
      hdr = Returns (hdr', sc') /\
    UTCoffset hdr' = Z.quot (signed sg (decimal w)) 100.
Proof.
  intros C W N B.
  destruct (parseHeader_wf fl cs sc hdr _ _ _ _ _ _ _ C W)
    as (h & sc' & E & _ & _ & _ & _ & _ & _ & U).
  exists h, sc'. split; [exact E|].
  rewrite U, (ParseInt32_signed sg w N B). reflexivity.
Qed.

Lemma utc_offset_whole_hours_witness :
  wfVersion "2.3" "apnic" "20230101" "3" "20230101" "20230101" "900" /\
  decimal "900" < 2 ^ 31 /\
  exists hdr' sc',
    parseHeader strict
      (linesThen []
         (Some (versionLine "2.3" "apnic" "20230101" "3" "20230101"
                            "20230101" "900") :: []))
      zeroHeader = Returns (hdr', sc') /\
    UTCoffset hdr' = 9.
Proof.
  split; [wf_fields|]. split; [now vm_compute|].
  apply (utc_offset_whole_hours strict [] [] zeroHeader "2.3" "apnic"
           "20230101" "3" "20230101" "20230101" NoSign "900");
    [reflexivity | wf_fields | wf_fields | now vm_compute].
Defined.

(** C4, as stated, fails: with the bar at its end the spec's example line
    gives offset 0, not 9. *)
Lemma trailing_bar_offset_is_zero :
  exists hdr' sc',
    parseHeader strict
      (NewScanner "2.3|apnic|20230101|3|20230101|20230101|900|")
      zeroHeader = Returns (hdr', sc') /\
    UTCoffset hdr' = 0 /\ UTCoffset hdr' <> 9.
Proof.
  eexists _, _. split; [vm_compute; reflexivity|]. split; now vm_compute.
Qed.

(** Comment lines are skipped, but an empty line among them, or in their
    place, is indexed and panics, whatever follows. *)
Lemma skipComments_blank cs : forall c0 sc,
  forallb isCommentLine (c0 :: cs) = true ->
  skipComments c0 (linesThen cs (Some EmptyString :: sc))
  = Panics IndexOutOfRange.
Proof.
  induction cs as [|c1 cs IH]; intros c0 sc C;
    simpl in C; apply andb_true_iff in C; destruct C as [C0 C];
    destruct c0 as [|x c0]; try discriminate; simpl in C0;
    cbn [linesThen map List.app skipComments]; rewrite C0; cbn [scanText].
  - destruct sc; reflexivity.
  - apply (IH c1 sc). exact C.
Qed.

Lemma parseHeader_blank fl cs sc hdr :
  forallb isCommentLine cs = true ->
  parseHeader fl (linesThen cs (Some EmptyString :: sc)) hdr
  = Panics IndexOutOfRange.
Proof.
  intros C. unfold parseHeader. destruct cs as [|c0 cs].
  - cbn [linesThen map List.app Scan scanText]. destruct sc; reflexivity.
  - cbn [linesThen map List.app Scan scanText].
    change (map Some cs ++ Some EmptyString :: sc)%list
      with (linesThen cs (Some EmptyString :: sc)).
    now rewrite skipComments_blank.
Qed.

(** C9.  An empty line, or one holding only a carriage return, before the
    version line makes [parseHeader] panic: the scanner has already dropped
    the carriage return, and the loop indexes the empty line. *)
Theorem blank_line_before_header_panics :
  parseHeader strict
    (NewScanner ("# comment" ++ nl ++ nl ++
                 "2|apnic|20230101|3|19830613|20230101|+1000" ++ nl))
    zeroHeader = Panics IndexOutOfRange /\
  parseHeader strict
    (NewScanner ("# comment" ++ String CR nl ++ String CR nl ++
                 "2|apnic|20230101|3|19830613|20230101|+1000" ++ String CR nl))
    zeroHeader = Panics IndexOutOfRange.
Proof. split; vm_compute; reflexivity. Qed.

(** The tolerated mode does not skip persistence: the zero descriptor is
    handed to [saveHeaderData]. *)
Lemma ingest_invalid_header server fl db l sc :
  FindStringSubmatch 7 versionRe l = None ->
  isCommentLine l = false -> l <> EmptyString ->
  ingest server fl db (Some l :: sc) =
  if f_invalid_hdr_ok fl then afterHeader server fl db zeroHeader sc
  else (db, Fatal InvalidFileHeader).
Proof.
  intros F NC NE. unfold ingest, parseHeader.
  pose proof (header_line_found [] l sc eq_refl NC NE) as H.
  cbn [linesThen map List.app] in H.
  destruct (Scan (Some l :: sc)) as [[ok line] sc1]. rewrite H.
  cbn [bindE]. unfold parseVersionLine. rewrite F.
  destruct (f_invalid_hdr_ok fl); reflexivity.
Qed.

(** C2 (amended).  When the version line does not match and invalid headers
    are tolerated, [parseVersionLine] returns false and leaves the
    descriptor at its zero value, no summary line is consumed, and the
    caller goes on to [saveHeaderData] with that zero descriptor before it
    streams the lines that follow; when invalid headers are not tolerated
    the run ends fatally with the store untouched. *)
Theorem invalid_header_modes server fl db l sc :
  FindStringSubmatch 7 versionRe l = None ->
  isCommentLine l = false -> l <> EmptyString ->
  (f_invalid_hdr_ok fl = true ->
   parseVersionLine fl zeroHeader l = Returns (zeroHeader, false) /\
   parseHeader fl (Some l :: sc) zeroHeader = Returns (zeroHeader, sc) /\
   ingest server fl db (Some l :: sc) = afterHeader server fl db zeroHeader sc)
  /\
  (f_invalid_hdr_ok fl = false ->
   ingest server fl db (Some l :: sc) = (db, Fatal InvalidFileHeader)).
Proof.
  intros F NC NE.
  pose proof (ingest_invalid_header server fl db l sc F NC NE) as I.
  split; intros M; rewrite M in I; [|exact I].
  assert (V : parseVersionLine fl zeroHeader l = Returns (zeroHeader, false))
    by (unfold parseVersionLine; rewrite F, M; reflexivity).
  repeat split; auto.
  unfold parseHeader.
  pose proof (header_line_found [] l sc eq_refl NC NE) as H.
  cbn [linesThen map List.app] in H.
  destruct (Scan (Some l :: sc)) as [[ok line] sc1]. rewrite H.
  cbn [bindE]. rewrite V. reflexivity.
Qed.

Lemma invalid_header_modes_witness :
  FindStringSubmatch 7 versionRe "2.0|apnic|20230101|3|0|0|+1000" = None /\
  ingest noFaults tolerant emptyDB
         [Some "2.0|apnic|20230101|3|0|0|+1000"; Some "apnic|*|asn|*|1|summary"]
  = afterHeader noFaults tolerant emptyDB zeroHeader
                [Some "apnic|*|asn|*|1|summary"].
Proof.
  split; [reflexivity|].
  apply (invalid_header_modes noFaults tolerant emptyDB
           "2.0|apnic|20230101|3|0|0|+1000" [Some "apnic|*|asn|*|1|summary"]);
    [reflexivity | reflexivity | discriminate | reflexivity].
Defined.

(** C2, as stated, fails: with invalid headers tolerated a Dataset row and
    its Summary rows are written for the zero descriptor. *)
Lemma tolerated_header_is_persisted :
  FindStringSubmatch 7 versionRe "no header here" = None /\
  let db := fst (parseData noFaults tolerant emptyDB
                   ("no header here" ++ nl ++
                    "apnic|JP|ipv4|103.2.0.0|1024|20120101|allocated" ++ nl)) in
  Datasets db = [mkDataset 1 "" 0 "" 0 "" "" 0] /\
  List.length (Summaries db) = 3%nat.
Proof. split; [reflexivity|]. vm_compute. split; reflexivity. Qed.

(** ** The record decoder *)

Lemma run_plus_class0 fuel p w s c k m :
  allb p w = true -> w <> EmptyString -> headFails p s = true ->
  (String.length w < fuel)%nat ->
  k s c = Matched m ->
  run fuel (Plus (Class p)) (w ++ s) c k = Matched m.
Proof.
  intros A NE HF L K. unfold Plus. rewrite run_Seq.
  destruct w as [|ch w]; [congruence|].
  simpl in A. apply andb_true_iff in A. destruct A as [Pc A].
  cbn [append]. rewrite run_Class, Pc.
  apply run_star_class; auto. simpl in L. lia.
Qed.

Lemma drop_app_length (a b : string) : drop (String.length a) (a ++ b) = b.
Proof. induction a as [|ch a IH]; [reflexivity | exact IH]. Qed.

(** A rune is the same rune when a bar follows it. *)
Lemma runeLen_before_bar ch t s :
  runeLen (String ch t) = String.length (String ch t) ->
  runeLen (String ch (t ++ String "|" s)) = String.length (String ch t).
Proof.
  unfold runeLen. cbv zeta.
  destruct (byteN ch <? 0x80)%N;
    [destruct t; [reflexivity | discriminate]|].
  destruct (between 0xC2 0xDF ch).
  { destruct t as [|b1 [|b2 t]]; cbn [append String.length].
    - reflexivity.
    - destruct (isCont b1); [reflexivity | discriminate].
    - destruct (isCont b1); discriminate. }
  destruct (between 0xE0 0xEF ch).
  { destruct t as [|b1 [|b2 [|b3 t]]]; cbn [append String.length];
      try discriminate.
    - intros _. destruct s; [reflexivity|].
      now destruct (byteN ch =? 0xE0)%N, (byteN ch =? 0xED)%N.
    - destruct (_ && _); [reflexivity | discriminate].
    - destruct (_ && _); discriminate. }
  destruct (between 0xF0 0xF4 ch).
  { destruct t as [|b1 [|b2 [|b3 [|b4 t]]]]; cbn [append String.length];
      try discriminate.
    - intros _. destruct s as [|x [|y s]]; try reflexivity.
      now destruct (byteN ch =? 0xF0)%N, (byteN ch =? 0xF4)%N.
    - destruct (_ && _ && _); [reflexivity | discriminate].
    - destruct (_ && _ && _); discriminate. }
  destruct t; [reflexivity | discriminate].
Qed.

Lemma run_countryCode fuel i cc s c k m :
  countryCode cc ->
  k (String "|" s) (upd i cc c) = Matched m ->
  run fuel (Group i ((Class (inRange "A" "Z") +> AnyNoNL) <|> Eps))
      (cc ++ String "|" s) c k = Matched m.
Proof.
  intros [-> | (c1 & r & -> & U & R)] K; rewrite run_Group, run_Alt.
  - cbn [append]. rewrite run_Seq, run_Class. cbn [inRange].
    change (inRange "A" "Z" "|") with false. cbn [orElse].
    rewrite run_Eps, Nat.sub_diag. exact K.
  - destruct r as [|ch t]; [destruct R|]. destruct R as [NL RL].
    cbn [append]. rewrite run_Seq, run_Class, U, run_Any.
    unfold notLF in NL. apply negb_true_iff in NL. rewrite NL.
    rewrite (runeLen_before_bar ch t s RL).
    change (String.length (String ch t)) with (S (String.length t)).
    rewrite Nat.sub_succ, Nat.sub_0_r, drop_app_length.
    change (String c1 (String ch (t ++ String "|" s)))
      with (String c1 (String ch t) ++ String "|" s)%string.
    rewrite take_consumed, K. reflexivity.
Qed.

Lemma run_date fuel i date s c k m :
  allb isDigit date = true -> (String.length date < fuel)%nat ->
  k (String "|" s) (upd i date c) = Matched m ->
  run fuel (Group i (digits <|> Eps)) (date ++ String "|" s) c k = Matched m.
Proof.
  intros A L K. rewrite run_Group, run_Alt.
  destruct date as [|d date].
  - cbn [append]. unfold digits, Plus. rewrite run_Seq, run_Class.
    change (isDigit "|") with false. cbn [orElse].
    rewrite run_Eps, Nat.sub_diag. exact K.
  - unfold digits.
    rewrite (run_plus_class0 fuel isDigit (String d date) (String "|" s) c _ m);
      auto; [discriminate|].
    rewrite take_consumed. exact K.
Qed.

Lemma recordRe_run fuel reg cc ty value extra date state rest :
  wfRecord reg cc ty value extra date state rest ->
  (String.length (recordLine reg cc ty value extra date state rest) < fuel)%nat
  ->
  run fuel (Group 0 recordRe)
      (recordLine reg cc ty value extra date state rest)
      (repeat "" 9) (fun _ c => Matched c) =
  Matched [recordLine reg cc ty value extra date state rest; reg; cc; ty;
           value; extra; date; state; rest].
Proof.
  intros [Ir Cc It [Av Nv] [Ae Ne] Ad Is Ar] L.
  rewrite run_Group. unfold recordRe. rewrite run_Seq.
  unfold recordLine in *.
  apply run_registry; auto.
  step_bar. rewrite run_Seq. apply run_countryCode; auto.
  rewrite run_Seq, run_Chr.
  rewrite run_Seq. apply run_type; auto.
  step_bar. rewrite run_Seq. apply run_plus_class; auto; [fuel_ok|].
  step_bar. rewrite run_Seq. apply run_plus_class; auto; [fuel_ok|].
  step_bar. rewrite run_Seq. apply run_date; auto; [fuel_ok|].
  rewrite run_Seq, run_Chr.
  rewrite run_Seq. apply run_state; auto.
  rewrite run_Seq. apply run_group_rest; auto; [fuel_ok|].
  rewrite run_Eol, take_all. reflexivity.
Qed.

Lemma decode_wf reg cc ty value extra date state rest :
  wfRecord reg cc ty value extra date state rest ->
  decode (recordLine reg cc ty value extra date state rest) =
  Some (ty, mkArgs reg cc value extra (recordDate date) state rest "").
Proof.
  intros W. unfold decode, FindStringSubmatch.
  rewrite (recordRe_run _ _ _ _ _ _ _ _ _ W); auto.
Qed.

Lemma wrap64_succ_neq x : wrap64 (x + 1) <> x.
Proof.
  unfold wrap64. intros E.
  assert (B : 0 <= x < 2 ^ 64)
    by (rewrite <- E; apply Z.mod_pos_bound; reflexivity).
  destruct (Z.eq_dec x (2 ^ 64 - 1)) as [-> | N].
  - vm_compute in E. discriminate.
  - rewrite Z.mod_small in E by lia. lia.
Qed.

Lemma bump_not_invalid t c : bump t c <> bumpInvalid c.
Proof.
  unfold bumpInvalid. intros E.
  apply (wrap64_succ_neq (c_invalid c)).
  destruct t; injection E; intros; congruence.
Qed.

(** C5 (amended).  A line is counted invalid exactly when the record
    pattern fails on it.  A line built from fields of the pattern's shapes
    (the country code empty or a capital letter and any one rune) is
    decoded as a record of its type whatever its value and extra denote:
    they are passed on to the store as the strings matched.  Such a line is
    never counted invalid: it is counted under its type when the statement
    of its type was prepared and the store answers with success or a
    server error, and processing it panics otherwise. *)
Theorem matching_line_is_a_record server lastID time c db line
        reg cc ty value extra date state rest :
  wfRecord reg cc ty value extra date state rest ->
  (FindStringSubmatch 8 recordRe line = None <->
   snd (processLine server lastID time line c db)
   = Returns (bumpInvalid c)) /\
  decode (recordLine reg cc ty value extra date state rest) =
    Some (ty, mkArgs reg cc value extra (recordDate date) state rest "") /\
  exists t,
    typeOfName ty = Some t /\
    snd (processLine server lastID time
           (recordLine reg cc ty value extra date state rest) c db)
    = if storeAnswers server lastID time t
           (mkArgs reg cc value extra (recordDate date) state rest "")
      then Returns (bump t c)
      else Panics NilDereference.
Proof.
  intros W. split; [|split].
  - unfold processLine, decode.
    destruct (FindStringSubmatch 8 recordRe line) as [m|];
      [|split; reflexivity].
    split; [discriminate|]. intros H. exfalso. cbv zeta in H.
    destruct (typeOfName (cap 3 m)) as [t|]; [|discriminate].
    destruct (prepared server lastID time t); [|discriminate].
    destruct (execInsertRecord _ _ _ _ _ _) as [d [[n|]|]];
      cbn [snd] in H; try discriminate;
      injection H as H; exact (bump_not_invalid _ _ H).
  - exact (decode_wf _ _ _ _ _ _ _ _ W).
  - pose proof (typeNames_known ty (wr_type _ _ _ _ _ _ _ _ W)) as K.
    destruct (typeOfName ty) as [t|] eqn:T; [|congruence].
    exists t. split; [reflexivity|].
    unfold processLine, storeAnswers.
    rewrite (decode_wf _ _ _ _ _ _ _ _ W), T.
    destruct (prepared server lastID time t); [|reflexivity].
    unfold execInsertRecord. cbn [andb].
    destruct (server (InsertRecord t lastID time _)) as [[n|]|];
      try reflexivity.
    destruct (existsb _ _); reflexivity.
Qed.

Lemma matching_line_is_a_record_witness :
  wfRecord "apnic" "Aé" "ipv4" "::::" "99999999999999" "20120101"
           "allocated" "" /\
  decode "apnic|Aé|ipv4|::::|99999999999999|20120101|allocated" =
    Some ("ipv4",
          mkArgs "apnic" "Aé" "::::" "99999999999999" "20120101" "allocated"
                 "" "") /\
  snd (processLine noFaults 1 "20230101"
         "apnic|Aé|ipv4|::::|99999999999999|20120101|allocated"
         zeroCounters emptyDB)
  = Returns (bump ipv4 zeroCounters).
Proof.
  assert (W : wfRecord "apnic" "Aé" "ipv4" "::::" "99999999999999" "20120101"
                       "allocated" "").
  { constructor; unfold numeral; repeat split;
      try reflexivity; try discriminate; simpl; auto 10.
    right. exists "A"%char, "é". repeat split. }
  destruct (matching_line_is_a_record noFaults 1 "20230101" zeroCounters
              emptyDB "" _ _ _ _ _ _ _ _ W) as (_ & D & t & T & P).
  split; [exact W|]. split; [exact D|].
  injection T as <-. exact P.
Defined.

(** C5, as stated, fails: an AS number that is no numeral with a count
    beyond 16 bits is decoded and counted as an asn record. *)
Lemma malformed_value_counted_as_record :
  snd (ParseUint "1.2" 32) = Some ErrSyntax /\
  snd (ParseUint "70000" 16) = Some ErrRange /\
  decode "apnic|JP|asn|1.2|70000|20120101|allocated" =
    Some ("asn",
          mkArgs "apnic" "JP" "1.2" "70000" "20120101" "allocated" "" "") /\
  snd (processLine noFaults 1 "20230101"
         "apnic|JP|asn|1.2|70000|20120101|allocated" zeroCounters emptyDB)
  = Returns (mkCounters 0 1 0 0 0).
Proof. repeat split; vm_compute; reflexivity. Qed.

(** ** The streaming loop *)

Lemma wrap64_succ x : 0 <= x < 2 ^ 64 - 1 -> wrap64 (x + 1) = x + 1.
Proof. intros H. unfold wrap64. apply Z.mod_small. lia. Qed.

Lemma processLine_counts server lastID time line c db db' c' :
  processLine server lastID time line c db = (db', Returns c') ->
  (exists t, c' = bump t c) \/ c' = bumpInvalid c.
Proof.
  unfold processLine.
  destruct (decode line) as [[k a]|]; [|intros H; injection H; auto].
  destruct (typeOfName k) as [t|]; [|discriminate].
  destruct (prepared server lastID time t); [|discriminate].
  destruct (execInsertRecord _ _ _ _ _ _) as [d [[n|]|]];
    intros H; try discriminate; injection H; eauto.
Qed.

Lemma countersAt_step c c' n :
  countersAt c n -> n < 2 ^ 64 - 1 ->
  (exists t, c' = bump t c) \/ c' = bumpInvalid c ->
  countersAt (bumpAll c') (n + 1).
Proof.
  intros (A & S & I & P4 & PA & P6) B H. unfold sumOf in *.
  destruct H as [[t ->] | ->]; [destruct t|]; unfold countersAt, sumOf;
    simpl; rewrite !wrap64_succ by lia; lia.
Qed.

Lemma streamRecords_counts server lastID time sc : forall c db db' c' n,
  streamRecords server lastID time sc c db = (db', Returns c') ->
  countersAt c n -> n + Z.of_nat (List.length sc) < 2 ^ 64 ->
  countersAt c' (n + Z.of_nat (streamed sc)).
Proof.
  induction sc as [|[line|] r IH]; intros c db db' c' n H C B.
  - simpl in H. injection H as _ <-. simpl. now rewrite Z.add_0_r.
  - cbn [streamRecords] in H.
    destruct (processLine server lastID time line c db) as [d [c1| |]] eqn:P;
      try discriminate.
    cbn [List.length] in B. rewrite Nat2Z.inj_succ in B.
    apply processLine_counts in P.
    pose proof (countersAt_step c c1 n C ltac:(lia) P) as C1.
    apply (IH _ _ _ _ (n + 1)) in H; auto; [|lia].
    cbn [streamed]. rewrite Nat2Z.inj_succ.
    replace (n + Z.succ (Z.of_nat (streamed r)))
      with (n + 1 + Z.of_nat (streamed r)) by lia.
    exact H.
  - simpl in H. injection H as _ <-. simpl. now rewrite Z.add_0_r.
Qed.

(** The scanner never holds more entries than the text has bytes, plus
    two. *)
Lemma splitOnLF_length s :
  (List.length (splitOnLF s) <= String.length s + 1)%nat.
Proof.
  induction s as [|c s IH]; simpl; [lia|].
  destruct (Ascii.eqb c LF); simpl; [lia|].
  destruct (splitOnLF s); simpl in *; lia.
Qed.

Lemma tokens_length ps : (List.length (tokens ps) <= List.length ps + 1)%nat.
Proof.
  induction ps as [|l ls IH]; [simpl; lia|].
  cbn [tokens].
  destruct l as [|ch l].
  - destruct ls as [|l2 ls]; [simpl; lia|].
    destruct (Nat.ltb _ _); cbn [List.length] in *; lia.
  - destruct (Nat.ltb _ _); cbn [List.length] in *; lia.
Qed.

Lemma NewScanner_length data :
  (List.length (NewScanner data) <= String.length data + 2)%nat.
Proof.
  unfold NewScanner. pose proof (tokens_length (splitOnLF data)).
  pose proof (splitOnLF_length data). lia.
Qed.

Lemma skipComments_shrinks sc : forall line l sc',
  skipComments line sc = Returns (l, sc') ->
  (List.length sc' <= List.length sc)%nat.
Proof.
  induction sc as [|ev r IH]; intros line l sc' H.
  - destruct line as [|ch t]; simpl in H; [discriminate|].
    destruct (isCommentStart ch); [discriminate|]. injection H as _ <-. lia.
  - destruct line as [|ch t]; cbn [skipComments] in H; [discriminate|].
    destruct (isCommentStart ch).
    + apply IH in H. simpl. lia.
    + injection H as _ <-. lia.
Qed.

Lemma summaryLoop_shrinks n : forall hdr sc hdr' sc',
  summaryLoop n hdr sc = Returns (hdr', sc') ->
  (List.length sc' <= List.length sc)%nat.
Proof.
  induction n as [|n IH]; intros hdr sc hdr' sc' H; simpl in H.
  - injection H as _ <-. lia.
  - destruct sc as [|[l|] r]; simpl in H.
    + injection H as _ <-. simpl. lia.
    + destruct (parseSummaryLine hdr l); simpl in H; try discriminate.
      apply IH in H. simpl. lia.
    + injection H as _ <-. simpl. lia.
Qed.

Lemma parseHeader_shrinks fl sc hdr hdr' sc' :
  parseHeader fl sc hdr = Returns (hdr', sc') ->
  (List.length sc' <= List.length sc)%nat.
Proof.
  unfold parseHeader. intros H.
  destruct (Scan sc) as [[ok line] sc1] eqn:E1.
  assert (L1 : (List.length sc1 <= List.length sc)%nat).
  { destruct sc; simpl in E1; injection E1 as _ _ <-; simpl; lia. }
  destruct (skipComments line sc1) as [[l sc2]| |] eqn:E2; try discriminate.
  apply skipComments_shrinks in E2. cbn [bindE] in H.
  destruct (parseVersionLine fl hdr l) as [[h ok']| |]; try discriminate.
  cbn [bindE] in H. destruct ok'.
  - apply summaryLoop_shrinks in H. lia.
  - injection H as _ <-. lia.
Qed.

(** C6 (amended).  When a run over fewer than 2^63 bytes (all a Go slice
    can hold) returns, its counters satisfy invalid + ipv4 + asn + ipv6 =
    all, and all is the number of lines the scanner delivers after the
    header, whatever they hold: only the version line, the three lines
    after it and the comment lines before it are left out, and a comment,
    blank or summary line further down is counted like any other.  Each
    streamed line adds one to exactly one of the four counters. *)
Theorem counters_add_up server fl db data db' rep :
  Z.of_nat (String.length data) < 2 ^ 63 ->
  parseData server fl db data = (db', Returns rep) ->
  (exists hdr sc,
     parseHeader fl (NewScanner data) zeroHeader = Returns (hdr, sc) /\
     c_all (counts rep) = Z.of_nat (streamed sc) /\
     c_invalid (counts rep) + c_ipv4 (counts rep) + c_asn (counts rep) +
     c_ipv6 (counts rep) = c_all (counts rep)) /\
  (forall lastID time line c d d' c',
     processLine server lastID time line c d = (d', Returns c') ->
     (exists t, c' = bump t c) \/ c' = bumpInvalid c).
Proof.
  intros B H. split; [|intros; eapply processLine_counts; eauto].
  unfold parseData, ingest in H.
  destruct (parseHeader fl (NewScanner data) zeroHeader)
    as [[hdr sc]| |] eqn:PH; try discriminate.
  exists hdr, sc. split; [reflexivity|].
  unfold afterHeader in H.
  destruct (saveHeaderData server fl db hdr) as [db1 [lastID| |]];
    try discriminate.
  destruct (streamRecords server lastID (enddate hdr) sc zeroCounters db1)
    as [db2 [c| |]] eqn:SR; try discriminate.
  destruct (closeAll server lastID (enddate hdr)); try discriminate.
  injection H as _ <-. cbn [counts].
  apply parseHeader_shrinks in PH. pose proof (NewScanner_length data) as NL.
  apply (streamRecords_counts _ _ _ _ _ _ _ _ 0) in SR.
  - destruct SR as (A & S & _). unfold sumOf in S. simpl in A. lia.
  - unfold countersAt, sumOf. simpl. lia.
  - assert (2 ^ 63 + 2 < 2 ^ 64) by reflexivity. lia.
Qed.

Lemma counters_add_up_witness :
  Z.of_nat (String.length sampleFeed) < 2 ^ 63 /\
  exists hdr sc,
    parseHeader strict (NewScanner sampleFeed) zeroHeader = Returns (hdr, sc) /\
    4 = Z.of_nat (streamed sc) /\ 1 + 2 + 1 + 0 = 4.
Proof.
  split; [now vm_compute|].
  apply (proj1 (counters_add_up noFaults strict emptyDB sampleFeed
           (fst (parseData noFaults strict emptyDB sampleFeed))
           (mkReport (mkCounters 2 1 0 4 1) 1)
           ltac:(now vm_compute) ltac:(vm_compute; reflexivity))).
Defined.

(** C6, as stated, fails: comment, blank and summary lines after the
    header are streamed and counted.  On this feed one streamed line is a
    record line, yet the total is 4: the record is counted under ipv4 and
    the comment, the blank line and the fourth summary line under
    invalid. *)
Lemma header_kind_lines_are_counted :
  (exists hdr sc,
     parseHeader strict (NewScanner mixedFeed) zeroHeader = Returns (hdr, sc)
     /\ streamed sc = 4%nat /\ streamedRecords sc = 1%nat) /\
  snd (parseData noFaults strict emptyDB mixedFeed)
  = Returns (mkReport (mkCounters 1 0 0 4 3) 1).
Proof.
  split; [|vm_compute; reflexivity].
  eexists _, _. split; [vm_compute; reflexivity|].
  split; vm_compute; reflexivity.
Qed.

Lemma decode_type_known line k a :
  decode line = Some (k, a) -> typeOfName k <> None.
Proof.
  unfold decode.
  destruct (FindStringSubmatch 8 recordRe line) as [m|] eqn:E; [|discriminate].
  intros H. injection H as <- _.
  apply typeNames_known. now apply record_type_known in E.
Qed.

Lemma processLine_returns server lastID time line c db :
  (forall ty a, server (InsertRecord ty lastID time a) <> Some OtherError) ->
  (forall ty, prepared server lastID time ty = true) ->
  exists db' c',
    processLine server lastID time line c db = (db', Returns c') /\
    c_all c' = c_all c.
Proof.
  intros SE PR. unfold processLine.
  destruct (decode line) as [[k a]|] eqn:D.
  - apply decode_type_known in D.
    destruct (typeOfName k) as [t|]; [|congruence].
    rewrite PR. unfold execInsertRecord.
    specialize (SE t a).
    destruct (server (InsertRecord t lastID time a)) as [[n|]|].
    + eexists _, _. split; [reflexivity|]. destruct t; reflexivity.
    + congruence.
    + destruct (existsb _ _); eexists _, _;
        (split; [reflexivity|]); destruct t; reflexivity.
  - eexists _, _. split; reflexivity.
Qed.

Lemma wrap64_range x : 0 <= wrap64 x < 2 ^ 64.
Proof. unfold wrap64. apply Z.mod_pos_bound. reflexivity. Qed.

Lemma streamRecords_returns server lastID time sc :
  (forall ty a, server (InsertRecord ty lastID time a) <> Some OtherError) ->
  (forall ty, prepared server lastID time ty = true) ->
  forall c db,
    0 <= c_all c < 2 ^ 64 ->
    exists db' c',
      streamRecords server lastID time sc c db = (db', Returns c') /\
      c_all c' = wrap64 (c_all c + Z.of_nat (streamed sc)).
Proof.
  intros SE PR.
  induction sc as [|[line|] r IH]; intros c db R.
  - exists db, c. split; [reflexivity|]. simpl.
    rewrite Z.add_0_r. unfold wrap64. now rewrite Z.mod_small.
  - destruct (processLine_returns server lastID time line c db SE PR)
      as (d1 & c1 & P & A).
    cbn [streamRecords]. rewrite P.
    destruct (IH (bumpAll c1) d1) as (d2 & c2 & S2 & A2).
    { simpl. apply wrap64_range. }
    exists d2, c2. split; [exact S2|].
    rewrite A2. cbn [bumpAll c_all streamed]. rewrite A, Nat2Z.inj_succ.
    unfold wrap64. rewrite Z.add_mod_idemp_l by discriminate.
    f_equal. lia.
  - exists db, c. split; [reflexivity|]. simpl.
    rewrite Z.add_0_r. unfold wrap64. now rewrite Z.mod_small.
Qed.

(** X20.  Once the Dataset is persisted and the three record statements
    are prepared, no line stops the run as long as the errors the store
    answers a record with are server errors (the duplicate-key error or
    any other error number): a line that is not recognised is counted
    invalid, a record the server refuses is passed over, and the run
    returns with every line the scanner delivers counted. *)
Theorem stream_survives_server_errors server fl db hdr sc lastID :
  (forall ty a,
     server (InsertRecord ty lastID (enddate hdr) a) <> Some OtherError) ->
  (forall ty, prepared server lastID (enddate hdr) ty = true) ->
  snd (saveHeaderData server fl db hdr) = Returns lastID ->
  exists db' rep,
    afterHeader server fl db hdr sc = (db', Returns rep) /\
    datasetID rep = lastID /\
    c_all (counts rep) = wrap64 (Z.of_nat (streamed sc)).
Proof.
  intros SE PR SH. unfold afterHeader.
  destruct (saveHeaderData server fl db hdr) as [db1 e]. simpl in SH. subst e.
  destruct (streamRecords_returns server lastID (enddate hdr) sc SE PR
              zeroCounters db1) as (db2 & c & S & A).
  { simpl. split; [lia | reflexivity]. }
  rewrite S. unfold closeAll. simpl. rewrite !PR. simpl.
  eexists _, _. split; [reflexivity|]. split; [reflexivity|]. exact A.
Qed.

Lemma stream_survives_server_errors_witness :
  snd (saveHeaderData rejectingServer strict emptyDB sampleHeader) = Returns 1
  /\
  exists db' rep,
    afterHeader rejectingServer strict emptyDB sampleHeader
      [Some "apnic|JP|asn|173|1|20020801|allocated"; Some ""; Some "junk";
       Some "apnic|JP|ipv4|103.2.0.0|1024|20120101|allocated"]
    = (db', Returns rep) /\
    datasetID rep = 1 /\
    c_all (counts rep) = wrap64 (Z.of_nat 4).
Proof.
  split; [reflexivity|].
  apply (stream_survives_server_errors rejectingServer strict emptyDB
           sampleHeader
           [Some "apnic|JP|asn|173|1|20020801|allocated"; Some ""; Some "junk";
            Some "apnic|JP|ipv4|103.2.0.0|1024|20120101|allocated"] 1).
  - intros ty a. simpl. discriminate.
  - intros []; reflexivity.
  - reflexivity.
Defined.

(** C8.  The streaming loop does not survive every store error.  When
    the store refuses each record with a server error the loop passes over
    it and all four lines of the sample feed are counted; when the error
    is of another kind (here a lost connection) the loop reads the error
    number through a nil pointer, the run panics at the first record and
    the lines after it are not streamed. *)
Theorem driver_error_aborts_stream :
  (exists hdr sc,
     parseHeader strict (NewScanner sampleFeed) zeroHeader = Returns (hdr, sc)
     /\ streamed sc = 4%nat) /\
  snd (parseData rejectingServer strict emptyDB sampleFeed)
  = Returns (mkReport (mkCounters 2 1 0 4 1) 1) /\
  parseData lostConnection strict emptyDB sampleFeed =
  (mkDB [mkDataset 1 "apnic" 20230101 "2" 3 "19830613" "20230101" 10]
        [mkSummary 1 1 "ipv4" 2 "20230101"; mkSummary 2 1 "asn" 1 "20230101";
         mkSummary 3 1 "ipv6" 0 "20230101"] [] [] [],
   Panics NilDereference).
Proof.
  split; [eexists _, _; split; vm_compute; reflexivity|].
  split; vm_compute; reflexivity.
Qed.

(** ** Re-running an import *)

Lemma sameRecord_refl id ds a t : sameRecord a (mkRecord id ds a t) = true.
Proof. unfold sameRecord. simpl. now rewrite !String.eqb_refl. Qed.

Lemma Records_withRecords ty ty' rows db :
  Records ty' (withRecords ty rows db) =
  if match ty, ty' with
     | ipv4, ipv4 | asn, asn | ipv6, ipv6 => true
     | _, _ => false
     end
  then rows else Records ty' db.
Proof. destruct ty, ty'; reflexivity. Qed.

Lemma execInsertRecord_frame server ty id t a db db' r :
  execInsertRecord server ty id t a db = (db', r) ->
  Datasets db' = Datasets db /\ Summaries db' = Summaries db /\
  coversR db db' /\
  (server (InsertRecord ty id t a) = None ->
   existsb (sameRecord a) (Records ty db') = true).
Proof.
  unfold execInsertRecord.
  destruct (server (InsertRecord ty id t a)) as [e|].
  - intros H. injection H as <- _. repeat split; auto; [intros ? ?; auto|].
    discriminate.
  - destruct (existsb (sameRecord a) (Records ty db)) eqn:E.
    + intros H. injection H as <- _. repeat split; auto. intros ? ?; auto.
    + intros H. injection H as <- _.
      split; [destruct ty; reflexivity|].
      split; [destruct ty; reflexivity|]. split.
      * intros ty' a' H. rewrite Records_withRecords.
        destruct ty, ty'; auto; rewrite existsb_app, H; reflexivity.
      * intros _. rewrite Records_withRecords.
        destruct ty; rewrite existsb_app; simpl;
          rewrite sameRecord_refl; apply orb_true_r.
Qed.

Lemma processLine_frame server id t line c db db' e :
  processLine server id t line c db = (db', e) ->
  Datasets db' = Datasets db /\ Summaries db' = Summaries db /\
  coversR db db'.
Proof.
  unfold processLine.
  assert (same : Datasets db = Datasets db /\ Summaries db = Summaries db /\
                 coversR db db) by (repeat split; intros ? ?; auto).
  destruct (decode line) as [[k a]|];
    [|intros H; injection H as <- _; exact same].
  destruct (typeOfName k) as [ty|];
    [|intros H; injection H as <- _; exact same].
  destruct (prepared server id t ty);
    [|intros H; injection H as <- _; exact same].
  destruct (execInsertRecord server ty id t a db) as [d r] eqn:E.
  apply execInsertRecord_frame in E. destruct E as (D & S & C & _).
  destruct r as [[n|]|]; intros H; injection H as <- _; auto.
Qed.

Lemma processLine_again server id t line c db db1 e db2 :
  processLine server id t line c db = (db1, e) ->
  coversR db1 db2 ->
  processLine server id t line c db2 = (db2, e).
Proof.
  unfold processLine.
  destruct (decode line) as [[k a]|];
    [|intros H _; injection H as _ <-; reflexivity].
  destruct (typeOfName k) as [ty|];
    [|intros H _; injection H as _ <-; reflexivity].
  destruct (prepared server id t ty);
    [|intros H _; injection H as _ <-; reflexivity].
  destruct (execInsertRecord server ty id t a db) as [d r] eqn:E.
  pose proof (execInsertRecord_frame _ _ _ _ _ _ _ _ E) as (_ & _ & _ & K).
  unfold execInsertRecord in *.
  destruct (server (InsertRecord ty id t a)) as [err|].
  - injection E as <- <-. destruct err as [n|];
      intros H _; injection H as _ <-; reflexivity.
  - intros H C.
    assert (E2 : existsb (sameRecord a) (Records ty db2) = true).
    { apply C. assert (d = db1) as <-.
      { destruct r as [[n|]|]; now injection H. }
      now apply K. }
    rewrite E2.
    destruct (existsb (sameRecord a) (Records ty db)); injection E as _ <-;
      injection H as _ <-; reflexivity.
Qed.

Lemma coversR_trans a b c : coversR a b -> coversR b c -> coversR a c.
Proof. unfold coversR. auto. Qed.

Lemma streamRecords_frame server id t sc : forall c db db' e,
  streamRecords server id t sc c db = (db', e) ->
  Datasets db' = Datasets db /\ Summaries db' = Summaries db /\
  coversR db db'.
Proof.
  induction sc as [|[line|] r IH]; intros c db db' e H;
    cbn [streamRecords] in H.
  - injection H as <- _. repeat split. intros ? ?; auto.
  - destruct (processLine server id t line c db) as [d [c1| |]] eqn:P;
      pose proof (processLine_frame _ _ _ _ _ _ _ _ P) as (D & S & C).
    + apply IH in H. destruct H as (D' & S' & C').
      repeat split; try congruence. eapply coversR_trans; eauto.
    + injection H as <- _. auto.
    + injection H as <- _. auto.
  - injection H as <- _. repeat split. intros ? ?; auto.
Qed.

Lemma streamRecords_again server id t sc : forall c db db1 e db2,
  streamRecords server id t sc c db = (db1, e) ->
  coversR db1 db2 ->
  streamRecords server id t sc c db2 = (db2, e).
Proof.
  induction sc as [|[line|] r IH]; intros c db db1 e db2 H C;
    cbn [streamRecords] in *.
  - injection H as _ <-. reflexivity.
  - destruct (processLine server id t line c db) as [d o] eqn:P.
    destruct o as [c1| |].
    + pose proof (streamRecords_frame _ _ _ _ _ _ _ _ H) as (_ & _ & C1).
      rewrite (processLine_again _ _ _ _ _ _ _ _ db2 P
                 (coversR_trans _ _ _ C1 C)).
      eapply IH; eauto.
    + injection H as <- <-.
      now rewrite (processLine_again _ _ _ _ _ _ _ _ db2 P C).
    + injection H as <- <-.
      now rewrite (processLine_again _ _ _ _ _ _ _ _ db2 P C).
  - injection H as _ <-. reflexivity.
Qed.

Lemma execInsertSummary_frame server id k n t db :
  let db' := fst (execInsertSummary server id k n t db) in
  Datasets db' = Datasets db /\
  (forall ty, Records ty db' = Records ty db) /\
  coversS db db' /\
  (server (InsertSummary id k n t) = None ->
   existsb (sameSummary id k) (Summaries db') = true).
Proof.
  unfold execInsertSummary.
  destruct (server (InsertSummary id k n t)) as [e|]; simpl.
  - repeat split; auto; [intros ? ?; auto | discriminate].
  - destruct (existsb (sameSummary id k) (Summaries db)) eqn:E; simpl.
    + repeat split; auto. intros ? ?; auto.
    + split; [reflexivity|]. split; [intros []; reflexivity|]. split.
      * intros id' k' H. simpl. now rewrite existsb_app, H.
      * intros _. rewrite existsb_app. simpl. unfold sameSummary at 2. simpl.
        rewrite Z.eqb_refl, String.eqb_refl. apply orb_true_r.
Qed.

Lemma execInsertSummary_again server id k n t db db2 :
  coversS (fst (execInsertSummary server id k n t db)) db2 ->
  fst (execInsertSummary server id k n t db2) = db2.
Proof.
  intros C.
  pose proof (execInsertSummary_frame server id k n t db) as (_ & _ & _ & K).
  unfold execInsertSummary in *.
  destruct (server (InsertSummary id k n t)) as [e|]; [reflexivity|].
  rewrite (C id k (K eq_refl)). reflexivity.
Qed.

Lemma coversS_trans a b c : coversS a b -> coversS b c -> coversS a c.
Proof. unfold coversS. auto. Qed.

Lemma saveSummaries_frame server ks id hdr : forall db,
  Datasets (saveSummaries server ks id hdr db) = Datasets db /\
  (forall ty, Records ty (saveSummaries server ks id hdr db) = Records ty db)
  /\ coversS db (saveSummaries server ks id hdr db).
Proof.
  induction ks as [|k ks IH]; intros db; cbn [saveSummaries].
  - repeat split. intros ? ?; auto.
  - pose proof (execInsertSummary_frame server id k (summaryValue hdr k)
                  (enddate hdr) db) as (D & R & C & _).
    destruct (IH (fst (execInsertSummary server id k (summaryValue hdr k)
                         (enddate hdr) db))) as (D' & R' & C').
    split; [congruence|]. split.
    + intros ty. rewrite R'. apply R.
    + eapply coversS_trans; eauto.
Qed.

Lemma saveSummaries_again server ks id hdr : forall db db2,
  coversS (saveSummaries server ks id hdr db) db2 ->
  saveSummaries server ks id hdr db2 = db2.
Proof.
  induction ks as [|k ks IH]; intros db db2 C; cbn [saveSummaries] in *;
    [reflexivity|].
  pose proof (saveSummaries_frame server ks id hdr
                (fst (execInsertSummary server id k (summaryValue hdr k)
                        (enddate hdr) db))) as (_ & _ & C1).
  rewrite (execInsertSummary_again server id k _ _ db db2
             (coversS_trans _ _ _ C1 C)).
  eapply IH; eauto.
Qed.

Lemma coversS_eq db db2 : Summaries db2 = Summaries db -> coversS db db2.
Proof. intros E id k H. now rewrite E. Qed.

Lemma find_none_existsb {A} (f : A -> bool) l :
  existsb f l = false -> find f l = None.
Proof.
  induction l as [|x l IH]; simpl; [reflexivity|].
  destruct (f x); simpl; [discriminate | exact IH].
Qed.


Lemma find_app_fresh {A} (f : A -> bool) l x :
  existsb f l = false -> f x = true -> find f (l ++ [x]) = Some x.
Proof.
  induction l as [|y l IH]; simpl; intros E F.
  - now rewrite F.
  - destruct (f y); simpl in *; [discriminate | auto].
Qed.

Lemma sameDataset_new id hdr :
  sameDataset (registry hdr) (serial hdr)
    (mkDataset id (registry hdr) (serial hdr) (version hdr) (records hdr)
               (startdate hdr) (enddate hdr) (UTCoffset hdr)) = true.
Proof. unfold sameDataset. simpl. now rewrite String.eqb_refl, Z.eqb_refl. Qed.

(** [saveHeaderData] touches no Records table, and its ending depends on
    the Datasets table alone. *)
Arguments saveSummaries : simpl never.

Lemma saveHeaderData_frame server fl db hdr :
  forall ty, Records ty (fst (saveHeaderData server fl db hdr)) = Records ty db.
Proof.
  intros ty. unfold saveHeaderData, execInsertDataset.
  destruct (server (InsertDataset hdr)) as [[n|]|]; simpl.
  - destruct ((n =? ER_DUP_ENTRY) && f_force fl); simpl; [|reflexivity].
    destruct (queryDatasetID server (registry hdr) (serial hdr) db);
      simpl; [|reflexivity].
    apply (proj1 (proj2 (saveSummaries_frame server _ _ hdr _)) ty).
  - reflexivity.
  - destruct (existsb _ (Datasets db)); simpl.
    + destruct (f_force fl); simpl; [|reflexivity].
      destruct (queryDatasetID server (registry hdr) (serial hdr) db);
        simpl; [|reflexivity].
      apply (proj1 (proj2 (saveSummaries_frame server _ _ hdr _)) ty).
    + rewrite (proj1 (proj2 (saveSummaries_frame server _ _ hdr _)) ty).
      destruct ty; reflexivity.
Qed.

Lemma queryDatasetID_same server reg ser db db2 :
  Datasets db2 = Datasets db ->
  queryDatasetID server reg ser db2 = queryDatasetID server reg ser db.
Proof. intros E. unfold queryDatasetID. now rewrite E. Qed.

Arguments queryDatasetID : simpl never.

Lemma saveHeaderData_eq server fl db hdr :
  saveHeaderData server fl db hdr =
  match execInsertDataset server hdr db with
  | (db1, inl id) => (saveSummaries server summaryKeys id hdr db1, Returns id)
  | (db1, inr (MySQLError n)) =>
      if (n =? ER_DUP_ENTRY) && f_force fl then
        match queryDatasetID server (registry hdr) (serial hdr) db1 with
        | inl id =>
            (saveSummaries server summaryKeys id hdr db1, Returns id)
        | inr e => (db1, Fatal (StoreFailure e))
        end
      else (db1, Fatal (StoreFailure (MySQLError n)))
  | (db1, inr OtherError) => (db1, Panics NilDereference)
  end.
Proof.
  unfold saveHeaderData.
  destruct (execInsertDataset server hdr db) as [db1 [id|[n|]]];
    try reflexivity.
  destruct ((n =? ER_DUP_ENTRY) && f_force fl); [|reflexivity].
  destruct (queryDatasetID server (registry hdr) (serial hdr) db1);
    reflexivity.
Qed.

Lemma execInsertDataset_duplicate server hdr db :
  server (InsertDataset hdr) = None ->
  existsb (sameDataset (registry hdr) (serial hdr)) (Datasets db) = true ->
  execInsertDataset server hdr db = (db, inr (MySQLError ER_DUP_ENTRY)).
Proof. intros H E. unfold execInsertDataset. now rewrite H, E. Qed.

Lemma execInsertDataset_created server hdr db db1 id :
  execInsertDataset server hdr db = (db1, inl id) ->
  server (InsertDataset hdr) = None /\
  existsb (sameDataset (registry hdr) (serial hdr)) (Datasets db) = false /\
  id = nextID (Datasets db) /\
  Datasets db1 =
    (Datasets db ++
       [mkDataset id (registry hdr) (serial hdr) (version hdr) (records hdr)
                  (startdate hdr) (enddate hdr) (UTCoffset hdr)])%list /\
  Summaries db1 = Summaries db.
Proof.
  unfold execInsertDataset.
  destruct (server (InsertDataset hdr)); [discriminate|].
  destruct (existsb _ _); [discriminate|].
  intros H. injection H as <- <-. repeat split.
Qed.

Lemma execInsertDataset_failed server hdr db db1 e :
  execInsertDataset server hdr db = (db1, inr e) ->
  db1 = db /\
  forall db2, Datasets db2 = Datasets db ->
              execInsertDataset server hdr db2 = (db2, inr e).
Proof.
  unfold execInsertDataset.
  destruct (server (InsertDataset hdr)) as [e'|].
  - intros H. injection H as <- <-. split; [reflexivity|]. reflexivity.
  - destruct (existsb _ (Datasets db)) eqn:E; [|discriminate].
    intros H. injection H as <- <-. split; [reflexivity|].
    intros db2 D. now rewrite D, E.
Qed.

(** Running [saveHeaderData] again on a store that kept the Datasets and
    covers the Summaries of the first run: it ends as before and writes
    nothing, unless the lookup of the existing Dataset fails. *)
Lemma saveHeaderData_again server fl db hdr dbh e db2 :
  f_force fl = true ->
  saveHeaderData server fl db hdr = (dbh, e) ->
  Datasets db2 = Datasets dbh -> coversS dbh db2 ->
  saveHeaderData server fl db2 hdr = (db2, e) \/
  exists err,
    server (SelectDatasetID (registry hdr) (serial hdr)) = Some err /\
    saveHeaderData server fl db2 hdr = (db2, Fatal (StoreFailure err)).
Proof.
  intros F H D C. rewrite saveHeaderData_eq in *. rewrite F in *.
  destruct (execInsertDataset server hdr db) as [db1 [id|err]] eqn:X.
  - (* the first run created the Dataset *)
    injection H as <- <-.
    apply execInsertDataset_created in X.
    destruct X as (SV & EX & -> & D1 & _).
    pose proof (saveSummaries_frame server summaryKeys
                  (nextID (Datasets db)) hdr db1) as (D2 & _ & _).
    assert (DD : Datasets db2 =
                 (Datasets db ++
                    [mkDataset (nextID (Datasets db)) (registry hdr)
                       (serial hdr) (version hdr) (records hdr)
                       (startdate hdr) (enddate hdr) (UTCoffset hdr)])%list)
      by congruence.
    rewrite (execInsertDataset_duplicate server hdr db2 SV).
    2:{ rewrite DD, existsb_app. simpl. rewrite sameDataset_new.
        apply orb_true_r. }
    change ((ER_DUP_ENTRY =? ER_DUP_ENTRY) && true) with true. cbv iota.
    unfold queryDatasetID.
    destruct (server (SelectDatasetID (registry hdr) (serial hdr)))
      as [err|] eqn:SS.
    + right. exists err. split; reflexivity.
    + rewrite DD, (find_app_fresh _ _ _ EX (sameDataset_new _ hdr)).
      cbn [ds_ID].
      rewrite (saveSummaries_again server summaryKeys _ hdr db1 db2 C).
      left; reflexivity.
  - (* the first insert failed: nothing was written to Datasets *)
    apply execInsertDataset_failed in X. destruct X as [-> X].
    destruct err as [n|].
    + rewrite andb_true_r in H.
      destruct (n =? ER_DUP_ENTRY) eqn:N.
      * destruct (queryDatasetID server (registry hdr) (serial hdr) db)
          as [id|qe] eqn:Q.
        -- injection H as <- <-.
           pose proof (saveSummaries_frame server summaryKeys id hdr db)
             as (D1 & _ & _).
           assert (DD : Datasets db2 = Datasets db) by congruence.
           rewrite (X db2 DD), N. cbn [andb].
           rewrite (queryDatasetID_same server _ _ db db2 DD), Q.
           rewrite (saveSummaries_again server summaryKeys id hdr db db2 C).
           left; reflexivity.
        -- injection H as <- <-.
           rewrite (X db2 D), N. cbn [andb].
           rewrite (queryDatasetID_same server _ _ db db2 D), Q.
           left; reflexivity.
      * injection H as <- <-. rewrite (X db2 D), N.
        left; reflexivity.
    + injection H as <- <-. rewrite (X db2 D).
      left; reflexivity.
Qed.

Lemma coversR_refl db : coversR db db.
Proof. intros ? ?; auto. Qed.

Lemma afterHeader_again server fl db hdr sc db1 out :
  f_force fl = true ->
  afterHeader server fl db hdr sc = (db1, out) ->
  afterHeader server fl db1 hdr sc = (db1, out) \/
  exists err,
    server (SelectDatasetID (registry hdr) (serial hdr)) = Some err /\
    afterHeader server fl db1 hdr sc = (db1, Fatal (StoreFailure err)).
Proof.
  intros F H. unfold afterHeader in *.
  destruct (saveHeaderData server fl db hdr) as [dbh e] eqn:SH.
  destruct e as [id| |].
  - destruct (streamRecords server id (enddate hdr) sc zeroCounters dbh)
      as [db2 es] eqn:SR.
    pose proof (streamRecords_frame _ _ _ _ _ _ _ _ SR) as (D & S & _).
    assert (E1 : db2 = db1).
    { destruct es; [destruct (closeAll _ _ _)|..]; now injection H. }
    subst db2.
    destruct (saveHeaderData_again server fl db hdr dbh (Returns id) db1 F SH D
                (coversS_eq _ _ S)) as [-> | (err & SS & ->)].
    + left.
      rewrite (streamRecords_again _ _ _ _ _ _ _ _ db1 SR (coversR_refl db1)).
      exact H.
    + right. exists err. split; [exact SS | reflexivity].
  - injection H as <- <-.
    destruct (saveHeaderData_again server fl db hdr dbh (Fatal f) dbh F SH
                eq_refl (coversS_eq _ _ eq_refl)) as [-> | (err & SS & ->)].
    + left. reflexivity.
    + right. exists err. split; [exact SS | reflexivity].
  - injection H as <- <-.
    destruct (saveHeaderData_again server fl db hdr dbh (Panics p) dbh F SH
                eq_refl (coversS_eq _ _ eq_refl)) as [-> | (err & SS & ->)].
    + left. reflexivity.
    + right. exists err. split; [exact SS | reflexivity].
Qed.

(** C1.  With force mode on, ingesting the same bytes a second time leaves
    every table (Datasets, Summaries and the three Records tables) as the
    first run left it; and when the lookup of the existing Dataset
    succeeds, the second run ends as the first did, with the same Dataset
    identifier and the same counters. *)
Theorem reingest_with_force_is_idempotent server fl db data db1 out :
  f_force fl = true ->
  parseData server fl db data = (db1, out) ->
  fst (parseData server fl db1 data) = db1 /\
  ((forall reg ser, server (SelectDatasetID reg ser) = None) ->
   parseData server fl db1 data = (db1, out)).
Proof.
  intros F H. unfold parseData, ingest in *.
  destruct (parseHeader fl (NewScanner data) zeroHeader) as [[hdr sc]| |].
  - destruct (afterHeader_again server fl db hdr sc db1 out F H)
      as [-> | (err & SS & ->)].
    + split; [reflexivity | intros _; reflexivity].
    + split; [reflexivity|]. intros Q. rewrite Q in SS. discriminate.
  - injection H as <- <-. split; [reflexivity | intros _; reflexivity].
  - injection H as <- <-. split; [reflexivity | intros _; reflexivity].
Qed.

Lemma reingest_with_force_is_idempotent_witness :
  f_force forced = true /\
  let once := parseData noFaults forced emptyDB sampleFeed in
  snd once = Returns (mkReport (mkCounters 2 1 0 4 1) 1) /\
  parseData noFaults forced (fst once) sampleFeed = once.
Proof.
  split; [reflexivity|]. split; [vm_compute; reflexivity|].
  apply (proj2 (reingest_with_force_is_idempotent noFaults forced emptyDB
                  sampleFeed
                  (fst (parseData noFaults forced emptyDB sampleFeed))
                  (snd (parseData noFaults forced emptyDB sampleFeed))
                  eq_refl
                  (surjective_pairing _))).
  reflexivity.
Defined.

(** C7.  A Dataset whose (registry, serial) is in the store already makes
    the insert fail as a duplicate: with force mode the existing row is
    looked up and its identifier reused, nothing being added to Datasets;
    without force mode the run ends fatally.  So a second run over the same
    bytes without force mode, after a first run that persisted the Dataset,
    ends fatally in [saveHeaderData] and writes nothing. *)
Theorem duplicate_dataset_needs_force server fl :
  (forall db hdr r,
     server (InsertDataset hdr) = None ->
     find (sameDataset (registry hdr) (serial hdr)) (Datasets db) = Some r ->
     (f_force fl = true ->
      server (SelectDatasetID (registry hdr) (serial hdr)) = None ->
      snd (saveHeaderData server fl db hdr) = Returns (ds_ID r) /\
      Datasets (fst (saveHeaderData server fl db hdr)) = Datasets db) /\
     (f_force fl = false ->
      saveHeaderData server fl db hdr = (db, Fatal duplicateEntry))) /\
  (forall db data hdr sc lastID db1 out,
     f_force fl = false ->
     parseHeader fl (NewScanner data) zeroHeader = Returns (hdr, sc) ->
     snd (saveHeaderData server fl db hdr) = Returns lastID ->
     parseData server fl db data = (db1, out) ->
     saveHeaderData server fl db1 hdr = (db1, Fatal duplicateEntry) /\
     parseData server fl db1 data = (db1, Fatal duplicateEntry)).
Proof.
  split.
  - intros db hdr r SV FD.
    assert (EX : existsb (sameDataset (registry hdr) (serial hdr))
                         (Datasets db) = true).
    { destruct (existsb _ _) eqn:E; [reflexivity|].
      apply find_none_existsb in E. congruence. }
    rewrite saveHeaderData_eq, (execInsertDataset_duplicate _ _ _ SV EX).
    change (ER_DUP_ENTRY =? ER_DUP_ENTRY) with true. cbn [andb].
    split; intros F; rewrite F; [|reflexivity].
    intros SS. unfold queryDatasetID. rewrite SS, FD. cbn [fst snd].
    split; [reflexivity|]. apply saveSummaries_frame.
  - intros db data hdr sc lastID db1 out F PH SH H.
    unfold parseData, ingest in *. rewrite PH in *.
    unfold afterHeader in *.
    rewrite saveHeaderData_eq in SH, H.
    destruct (execInsertDataset server hdr db) as [dbi [id|[n|]]] eqn:X.
    + apply execInsertDataset_created in X.
      destruct X as (SV & EX & -> & D1 & _).
      pose proof (saveSummaries_frame server summaryKeys
                    (nextID (Datasets db)) hdr dbi) as (D2 & _ & _).
      destruct (streamRecords server (nextID (Datasets db)) (enddate hdr) sc
                  zeroCounters _) as [db2 es] eqn:SR.
      pose proof (streamRecords_frame _ _ _ _ _ _ _ _ SR) as (D3 & _ & _).
      assert (E1 : db2 = db1).
      { destruct es; [destruct (closeAll _ _ _)|..]; now injection H. }
      subst db2.
      assert (S2 : saveHeaderData server fl db1 hdr
                   = (db1, Fatal duplicateEntry)).
      { rewrite saveHeaderData_eq.
        rewrite (execInsertDataset_duplicate server hdr db1 SV).
        - rewrite F, andb_false_r. reflexivity.
        - rewrite D3, D2, D1, existsb_app. simpl. rewrite sameDataset_new.
          apply orb_true_r. }
      split; [exact S2|]. now rewrite S2.
    + rewrite F, andb_false_r in SH. discriminate.
    + discriminate.
Qed.

Lemma duplicate_dataset_needs_force_witness :
  f_force strict = false /\
  let once := parseData noFaults strict emptyDB sampleFeed in
  snd once = Returns (mkReport (mkCounters 2 1 0 4 1) 1) /\
  parseData noFaults strict (fst once) sampleFeed
  = (fst once, Fatal duplicateEntry).
Proof.
  split; [reflexivity|]. split; [vm_compute; reflexivity|].
  refine (proj2 (proj2 (duplicate_dataset_needs_force noFaults strict)
                   emptyDB sampleFeed sampleHeader _ 1
                   (fst (parseData noFaults strict emptyDB sampleFeed))
                   (snd (parseData noFaults strict emptyDB sampleFeed))
                   eq_refl _ eq_refl (surjective_pairing _))).
  vm_compute. reflexivity.
Defined.

(** ** What the patterns accept *)

Lemma consumes_weaken r (P Q : string -> Prop) :
  (forall w, P w -> Q w) -> consumes r P -> consumes r Q.
Proof.
  intros PQ H s c s' c' M. destruct (H _ _ _ _ M) as (w & E & C & Pw).
  exists w. auto.
Qed.

Lemma consumes_Eps : consumes Eps (fun w => w = EmptyString).
Proof.
  intros s c s' c' M. inversion M; subst. exists EmptyString. auto.
Qed.

Lemma consumes_Class p : consumes (Class p) (oneOf p).
Proof.
  intros s c s' c' M. inversion M; subst.
  exists (String ch EmptyString). repeat split. exists ch. auto.
Qed.

Lemma consumes_Any :
  consumes AnyNoNL (fun w => w <> EmptyString).
Proof.
  intros s c s' c' M. inversion M; subst.
  destruct (drop_suffix (runeLen (String ch t) - 1) t) as [w Hw].
  exists (String ch w). split; [cbn [append]; f_equal; exact Hw|].
  split; [reflexivity | discriminate].
Qed.

Lemma consumes_Str w0 : consumes (Str w0) (fun w => w = w0).
Proof.
  intros s c s' c' M. apply Match_Str in M. destruct M as [-> ->].
  exists w0. auto.
Qed.

Lemma consumes_Seq a b (P Q : string -> Prop) :
  consumes a P -> consumes b Q ->
  consumes (Seq a b) (fun w => exists u v, w = (u ++ v)%string /\ P u /\ Q v).
Proof.
  intros Ha Hb s c s' c' M. apply Match_Seq_inv in M.
  destruct M as (s1 & c1 & M1 & M2).
  destruct (Ha _ _ _ _ M1) as (u & -> & -> & Pu).
  destruct (Hb _ _ _ _ M2) as (v & -> & -> & Qv).
  exists (u ++ v)%string. rewrite str_app_assoc. repeat split. eauto.
Qed.

Lemma consumes_Alt a b (P Q : string -> Prop) :
  consumes a P -> consumes b Q -> consumes (Alt a b) (fun w => P w \/ Q w).
Proof.
  intros Ha Hb s c s' c' M. apply Match_Alt_inv in M. destruct M as [M | M].
  - destruct (Ha _ _ _ _ M) as (w & E & C & Pw). exists w. auto.
  - destruct (Hb _ _ _ _ M) as (w & E & C & Qw). exists w. auto.
Qed.

Lemma consumes_Star a (P Q : string -> Prop) :
  consumes a P -> Q EmptyString ->
  (forall u v, P u -> Q v -> Q (u ++ v)%string) ->
  consumes (Star a) Q.
Proof.
  intros Ha Q0 Qs s c s' c' M.
  remember (Star a) as r eqn:R. induction M; try discriminate.
  - exists EmptyString. auto.
  - injection R as ->.
    destruct (Ha _ _ _ _ M1) as (u & -> & -> & Pu).
    destruct (IHM2 eq_refl) as (v & -> & -> & Qv).
    exists (u ++ v)%string. rewrite str_app_assoc. auto.
Qed.

Lemma consumes_Star_Class p :
  consumes (Star (Class p)) (fun w => allb p w = true).
Proof.
  apply (consumes_Star _ (oneOf p)); [apply consumes_Class | reflexivity |].
  intros u v (ch & -> & Pc) Av. simpl. now rewrite Pc, Av.
Qed.

Lemma consumes_Plus_Class p :
  consumes (Plus (Class p))
           (fun w => allb p w = true /\ w <> EmptyString).
Proof.
  unfold Plus.
  eapply consumes_weaken;
    [|apply consumes_Seq; [apply consumes_Class | apply consumes_Star_Class]].
  intros w (u & v & -> & (ch & -> & Pc) & Av). simpl.
  rewrite Pc, Av. split; [reflexivity | discriminate].
Qed.

Lemma consumes_Star_Any : consumes (Star AnyNoNL) (fun _ => True).
Proof.
  apply (consumes_Star _ (fun w => w <> EmptyString));
    [apply consumes_Any | exact I | auto].
Qed.

Lemma consumes_AltWords ws :
  ws <> [] -> consumes (AltWords ws) (fun w => In w ws).
Proof.
  induction ws as [|w0 ws IH]; [congruence|]. intros _.
  destruct ws as [|w1 ws].
  - simpl. eapply consumes_weaken; [|apply consumes_Str].
    intros w ->. now left.
  - cbn [AltWords]. eapply consumes_weaken;
      [|apply consumes_Alt; [apply consumes_Str | apply IH; discriminate]].
    intros w [-> | H]; [now left | now right].
Qed.

Lemma consumes_countryCode :
  consumes ((Class (inRange "A" "Z") +> AnyNoNL) <|> Eps)%re countryShape.
Proof.
  eapply consumes_weaken;
    [|apply consumes_Alt;
      [apply consumes_Seq; [apply consumes_Class | apply consumes_Any]
      |apply consumes_Eps]].
  intros w [(u & v & -> & (ch & -> & Pc) & Nv) | ->]; [right | now left].
  exists ch, v. auto.
Qed.

Lemma consumes_date :
  consumes (digits <|> Eps)%re (fun w => allb isDigit w = true).
Proof.
  eapply consumes_weaken;
    [|apply consumes_Alt; [apply consumes_Plus_Class | apply consumes_Eps]].
  intros w [[A _] | ->]; auto.
Qed.

Lemma Match_Group_consumes i r (P : string -> Prop) s c s' c' :
  consumes r P ->
  Match (Group i r) s c s' c' ->
  exists w, s = (w ++ s')%string /\ c' = upd i w c /\ P w.
Proof.
  intros Hr M. apply Match_Group_inv in M. destruct M as (c1 & M & ->).
  destruct (Hr _ _ _ _ M) as (w & -> & -> & Pw).
  exists w. rewrite take_consumed. auto.
Qed.

Lemma Match_bar s c s' c' :
  Match bar s c s' c' -> s = String "|" s' /\ c' = c.
Proof.
  intros M. destruct (consumes_Class _ _ _ _ _ M) as (w & -> & -> & ch & -> & E).
  apply Ascii.eqb_eq in E. subst. auto.
Qed.

(** Takes the next group off a sequence of a pattern. *)
Tactic Notation "take_group" hyp(H) constr(lem) ident(w) ident(P) :=
  let s1 := fresh "s" in
  let c1 := fresh "c" in
  let M := fresh "M" in
  apply Match_Seq_inv in H; destruct H as (s1 & c1 & M & H);
  apply (Match_Group_consumes _ _ _ _ _ _ _ lem) in M;
  destruct M as (w & -> & -> & P).

Ltac take_bar H :=
  let s1 := fresh "s" in
  let c1 := fresh "c" in
  let M := fresh "M" in
  apply Match_Seq_inv in H; destruct H as (s1 & c1 & M & H);
  apply Match_bar in M; destruct M as (-> & ->).

(** What a matching record line is made of. *)
Lemma recordRe_shape line m :
  FindStringSubmatch 8 recordRe line = Some m ->
  exists reg cc ty value extra date state rest,
    line = recordLine reg cc ty value extra date state rest /\
    m = [line; reg; cc; ty; value; extra; date; state; rest] /\
    In reg registryNames /\ countryShape cc /\ In ty typeNames /\
    (allb isValueChar value = true /\ value <> EmptyString) /\
    numeral extra /\ allb isDigit date = true /\ In state stateNames.
Proof.
  intros H. apply FindStringSubmatch_sound in H.
  destruct H as (s' & c' & H & ->). unfold recordRe in H.
  take_group H (consumes_AltWords registryNames ltac:(discriminate)) reg Preg.
  take_bar H.
  take_group H consumes_countryCode cc Pcc.
  take_bar H.
  take_group H (consumes_AltWords typeNames ltac:(discriminate)) ty Pty.
  take_bar H.
  take_group H (consumes_Plus_Class isValueChar) value Pv.
  take_bar H.
  take_group H (consumes_Plus_Class isDigit) extra Pe.
  take_bar H.
  take_group H consumes_date date Pd.
  take_bar H.
  take_group H (consumes_AltWords stateNames ltac:(discriminate)) state Pst.
  take_group H consumes_Star_Any rest Prest.
  inversion H; subst.
  exists reg, cc, ty, value, extra, date, state, rest.
  rewrite str_app_nil_r.
  assert (E : (reg ++ String "|" (cc ++ String "|" (ty ++ String "|"
                 (value ++ String "|" (extra ++ String "|" (date ++
                    String "|" (state ++ rest)))))))%string
              = recordLine reg cc ty value extra date state rest)
    by reflexivity.
  rewrite E, take_all. unfold numeral. intuition.
Qed.

(** ** The record decoder, read backwards *)

Lemma recordDate_set d :
  recordDate d <> EmptyString /\ recordDate d <> "00000000".
Proof.
  unfold recordDate.
  destruct (String.eqb_spec d "00000000") as [->|N1]; simpl;
    [split; discriminate|].
  destruct (String.eqb_spec d "") as [->|N2]; simpl;
    [split; discriminate|]. auto.
Qed.

(** X1.  Decoding loses nothing but the date correction: when [decode]
    accepts a line, the line is its decoded fields joined by bars in the
    order registry, country code, type, value, extra, date, state, with the
    opaque rest directly after the state; the registry, type and state are
    among the known words, the extra is a run of digits, and the date
    handed to the store is never empty and never 00000000. *)
Theorem decode_rebuilds_line line k a :
  decode line = Some (k, a) ->
  exists date,
    line = recordLine (a_registry a) (a_cc a) k (a_value a) (a_extra a)
                      date (a_state a) (a_opaque a) /\
    a_date a = recordDate date /\ a_ext a = EmptyString /\
    In (a_registry a) registryNames /\ In k typeNames /\
    In (a_state a) stateNames /\ numeral (a_extra a) /\
    a_date a <> EmptyString /\ a_date a <> "00000000".
Proof.
  unfold decode.
  destruct (FindStringSubmatch 8 recordRe line) as [m|] eqn:F;
    [|discriminate].
  apply recordRe_shape in F.
  destruct F as (reg & cc & ty & value & extra & date & state & rest &
                 E & -> & Ir & Cc & It & Pv & Pe & Pd & Is).
  intros H. injection H as <- <-. cbn [cap nth].
  exists date. cbn [a_registry a_cc a_value a_extra a_date a_state a_opaque
                    a_ext].
  destruct (recordDate_set date). repeat split; auto; apply Pe.
Qed.

Lemma decode_rebuilds_line_witness :
  decode "arin||ipv4|103.2.0.0|1024||reserved|abc|def" =
    Some ("ipv4",
          mkArgs "arin" "" "103.2.0.0" "1024" "1970-01-01" "reserved"
                 "|abc|def" "") /\
  exists date,
    "arin||ipv4|103.2.0.0|1024||reserved|abc|def" =
      recordLine "arin" "" "ipv4" "103.2.0.0" "1024" date "reserved"
                 "|abc|def" /\
    "1970-01-01" = recordDate date.
Proof.
  split; [reflexivity|].
  destruct (decode_rebuilds_line
              "arin||ipv4|103.2.0.0|1024||reserved|abc|def" "ipv4"
              (mkArgs "arin" "" "103.2.0.0" "1024" "1970-01-01" "reserved"
                      "|abc|def" "") eq_refl)
    as (date & E & D & _).
  exists date. split; [exact E | exact D].
Defined.

Lemma recordLine_head reg cc ty value extra date state rest :
  In reg registryNames ->
  exists x t,
    recordLine reg cc ty value extra date state rest = String x t /\
    isCommentStart x = false.
Proof.
  unfold registryNames, recordLine. simpl.
  intros [<- | [<- | [<- | [<- | [<- | []]]]]]; simpl; eauto.
Qed.

(** X2.  The empty line, a comment line and a summary line are not
    records: when one of them reaches the streaming loop (a summary line
    beyond the three read with the header, a comment among the records),
    it is counted invalid and nothing is sent to the store. *)
Theorem header_lines_are_invalid_records server lastID time l c db :
  notARecord l ->
  decode l = None /\
  processLine server lastID time l c db = (db, Returns (bumpInvalid c)).
Proof.
  intros N.
  assert (D : decode l = None).
  { unfold decode.
    destruct (FindStringSubmatch 8 recordRe l) as [m|] eqn:F;
      [exfalso | reflexivity].
    apply recordRe_shape in F.
    destruct F as (reg' & cc & ty' & value & extra & date' & state & rest'
                   & E' & _ & Ir' & Cc & _).
    destruct (recordLine_head reg' cc ty' value extra date' state rest' Ir')
      as (x & t & Hd & NC).
    destruct N as [-> | [C | (reg & ty & count & rest & [Jr Jt Jc] & ->)]].
    - rewrite Hd in E'. discriminate.
    - rewrite Hd in E'. subst l. simpl in C. congruence.
    - clear Hd NC. unfold summaryLine, recordLine in E'.
      unfold registryNames in Jr, Ir'. simpl in Jr, Ir'.
      destruct Jr as [<- | [<- | [<- | [<- | [<- | []]]]]];
        destruct Ir' as [<- | [<- | [<- | [<- | [<- | []]]]]];
        simpl in E'; try discriminate;
        (destruct Cc as [-> | (c1 & t' & -> & U & _)];
         simpl in E'; [discriminate|]);
        assert (c1 = "*"%char) by congruence; subst c1; discriminate. }
  split; [exact D|]. unfold processLine. now rewrite D.
Qed.

Lemma header_lines_are_invalid_records_witness :
  notARecord "apnic|*|ipv6|*|0|summary" /\
  decode "apnic|*|ipv6|*|0|summary" = None /\
  processLine noFaults 1 "20230101" "apnic|*|ipv6|*|0|summary" zeroCounters
              emptyDB
  = (emptyDB, Returns (bumpInvalid zeroCounters)).
Proof.
  assert (N : notARecord "apnic|*|ipv6|*|0|summary").
  { right. right. exists "apnic", "ipv6", "0", "".
    split; [|reflexivity].
    constructor; unfold numeral; repeat split; simpl; auto 10; discriminate. }
  split; [exact N|].
  exact (header_lines_are_invalid_records noFaults 1 "20230101" _
           zeroCounters emptyDB N).
Defined.

(** ** The summary lines *)

Lemma summaryRe_run fuel reg ty count rest :
  wfSummary reg ty count ->
  (String.length (summaryLine reg ty count rest) < fuel)%nat ->
  run fuel (Group 0 summaryRe) (summaryLine reg ty count rest)
      (repeat "" 4) (fun _ c => Matched c) =
  Matched [take (String.length (summaryLine reg ty count rest)
                 - String.length rest) (summaryLine reg ty count rest);
           reg; ty; count].
Proof.
  intros [Ir It [Ac Nc]] L.
  rewrite run_Group. unfold summaryRe. rewrite run_Seq.
  unfold summaryLine in *.
  apply run_registry; auto.
  step_bar. rewrite run_Seq, run_Chr. step_bar.
  rewrite run_Seq. apply run_type; auto.
  step_bar. rewrite run_Seq, run_Chr. step_bar.
  rewrite run_Seq. apply run_plus_class; auto; [fuel_ok|].
  step_bar. rewrite (run_Str fuel "summary" rest). reflexivity.
Qed.

(** X3.  A summary line (registry, star, record type, star, digits, the
    word summary, then anything) sets the declared count of its type to
    the number written, at most 2^64 - 1, and leaves every other field of
    the descriptor as it was; its registry is not compared with the
    header's. *)
Theorem summary_line_sets_its_count hdr reg ty count rest :
  wfSummary reg ty count ->
  parseSummaryLine hdr (summaryLine reg ty count rest) =
  Returns (setCount hdr ty (Z.min (decimal count) 18446744073709551615)).
Proof.
  intros W. unfold parseSummaryLine, FindStringSubmatch.
  rewrite (summaryRe_run _ reg ty count rest W); auto.
  cbn [cap nth].
  rewrite (ParseUint_numeral count 64 (ws_count _ _ _ W)) by lia.
  change (2 ^ 64 - 1) with 18446744073709551615.
  assert (E : fst (if decimal count <=? 18446744073709551615
                   then (decimal count, @None numError)
                   else (18446744073709551615, Some ErrRange))
              = Z.min (decimal count) 18446744073709551615)
    by (destruct (Z.leb_spec (decimal count) 18446744073709551615);
        simpl; lia).
  rewrite E. unfold setCount.
  pose proof (ws_type _ _ _ W) as It. unfold typeNames in It. simpl in It.
  destruct It as [<- | [<- | [<- | []]]]; reflexivity.
Qed.

Lemma summary_line_sets_its_count_witness :
  wfSummary "arin" "ipv4" "99999999999999999999" /\
  parseSummaryLine sampleHeader
    (summaryLine "arin" "ipv4" "99999999999999999999" "|ignored")
  = Returns (setIpv4Count sampleHeader 18446744073709551615).
Proof.
  assert (W : wfSummary "arin" "ipv4" "99999999999999999999")
    by (constructor; unfold numeral; repeat split; simpl; auto 10;
        discriminate).
  split; [exact W|].
  exact (summary_line_sets_its_count sampleHeader "arin" "ipv4"
           "99999999999999999999" "|ignored" W).
Defined.

(** ** The header assembler, continued *)

Lemma parseHeader_version fl cs sc hdr v r ser n sd ed rest :
  forallb isCommentLine cs = true ->
  wfVersion v r ser n sd ed rest ->
  parseHeader fl (linesThen cs (Some (versionLine v r ser n sd ed rest) :: sc))
              hdr =
  summaryLoop 3
    (mkHeader (lastOr "" v) r (Z.min (decimal ser) 4294967295)
              (Z.min (decimal n) 4294967295)
              (if String.eqb sd "00000000" then "19700101" else sd) ed
              (Z.quot (fst (ParseInt rest 32)) 100)
              (asnCount hdr) (ipv4Count hdr) (ipv6Count hdr))
    sc.
Proof.
  intros C W. destruct (versionLine_not_comment _ _ _ _ _ _ _ W) as [NC NE].
  pose proof (header_line_found cs _ sc C NC NE) as F.
  unfold parseHeader.
  destruct (Scan _) as [[ok line] sc1]. rewrite F. cbn [bindE].
  unfold parseVersionLine. rewrite (versionRe_matches _ _ _ _ _ _ _ W).
  cbn [bindE cap nth].
  rewrite (ParseUint32_numeral ser (wf_serial _ _ _ _ _ _ _ W)).
  rewrite (ParseUint32_numeral n (wf_records _ _ _ _ _ _ _ W)).
  reflexivity.
Qed.

(** X4.  After a version line the header assembler takes the next three
    lines whatever they are: they are not streamed, so a record line in
    one of these places is never decoded, counted or sent to the store. *)
Theorem header_takes_three_lines fl cs sc hdr v r ser n sd ed rest l1 l2 l3 :
  forallb isCommentLine cs = true ->
  wfVersion v r ser n sd ed rest ->
  exists hdr',
    parseHeader fl
      (linesThen cs
         (Some (versionLine v r ser n sd ed rest)
          :: Some l1 :: Some l2 :: Some l3 :: sc))
      hdr = Returns (hdr', sc).
Proof.
  intros C W. rewrite (parseHeader_version fl cs _ hdr _ _ _ _ _ _ _ C W).
  cbn [summaryLoop Scan scanOk scanText].
  match goal with
  | |- context [parseSummaryLine ?h l1] =>
      destruct (parseSummaryLine_returns h l1) as (h1 & -> & _)
  end. cbn [bindE].
  destruct (parseSummaryLine_returns h1 l2) as (h2 & -> & _). cbn [bindE].
  destruct (parseSummaryLine_returns h2 l3) as (h3 & -> & _). cbn [bindE].
  exists h3. reflexivity.
Qed.

Lemma header_takes_three_lines_witness :
  wfVersion "2" "apnic" "20230101" "3" "19830613" "20230101" "+1000" /\
  exists hdr',
    parseHeader strict
      (linesThen ["# no summary lines in this feed"]
         (Some (versionLine "2" "apnic" "20230101" "3" "19830613" "20230101"
                            "+1000")
          :: Some "apnic|JP|asn|173|1|20020801|allocated"
          :: Some "apnic|JP|ipv4|103.2.0.0|1024|20120101|allocated"
          :: Some "apnic|JP|ipv6|2001:200::|35|19990813|allocated"
          :: [Some "apnic|AU|asn|1221|1|20000131|allocated"]))
      zeroHeader
    = Returns (hdr', [Some "apnic|AU|asn|1221|1|20000131|allocated"]).
Proof.
  split; [wf_fields|].
  apply (header_takes_three_lines strict ["# no summary lines in this feed"]
           [Some "apnic|AU|asn|1221|1|20000131|allocated"] zeroHeader
           "2" "apnic" "20230101" "3" "19830613" "20230101" "+1000");
    [reflexivity | wf_fields].
Defined.

Lemma lastOr_one w : forall v,
  w <> EmptyString -> String.length (lastOr v w) = 1%nat.
Proof.
  induction w as [|ch w IH]; intros v N; [congruence|].
  cbn [lastOr]. destruct w as [|ch2 w]; [reflexivity|].
  apply IH. discriminate.
Qed.

(** X5.  Of the version field only the last character is kept: the
    capture group sits inside the repetition, so version 2.3 is stored
    (and later written to Datasets) as 3. *)
Theorem version_keeps_last_character fl cs sc hdr v r ser n sd ed rest :
  forallb isCommentLine cs = true ->
  wfVersion v r ser n sd ed rest ->
  exists hdr' sc',
    parseHeader fl (linesThen cs (Some (versionLine v r ser n sd ed rest) :: sc))
                hdr = Returns (hdr', sc') /\
    version hdr' = lastOr "" v /\ String.length (version hdr') = 1%nat.
Proof.
  intros C W.
  destruct (parseHeader_wf fl cs sc hdr _ _ _ _ _ _ _ C W)
    as (h & sc' & E & V & _).
  exists h, sc'. repeat split; auto.
  rewrite V. apply lastOr_one. apply (wf_version _ _ _ _ _ _ _ W).
Qed.

Lemma version_keeps_last_character_witness :
  wfVersion "2.3" "apnic" "20230101" "3" "20230101" "20230101" "+1000" /\
  exists hdr' sc',
    parseHeader strict
      (linesThen []
         (Some (versionLine "2.3" "apnic" "20230101" "3" "20230101"
                            "20230101" "+1000") :: []))
      zeroHeader = Returns (hdr', sc') /\
    version hdr' = "3" /\ String.length (version hdr') = 1%nat.
Proof.
  split; [wf_fields|].
  apply (version_keeps_last_character strict [] [] zeroHeader "2.3" "apnic"
           "20230101" "3" "20230101" "20230101" "+1000");
    [reflexivity | wf_fields].
Defined.

(** ** What an accepted header holds *)

Lemma parseUintLoop_range maxVal s : forall n,
  0 <= n <= maxVal ->
  0 <= fst (parseUintLoop maxVal s n) <= maxVal.
Proof.
  induction s as [|c s IH]; intros n Hn; simpl; [exact Hn|].
  destruct (isDigit c); [|simpl; lia].
  destruct (n >=? cutoff10); [simpl; lia|].
  destruct (Z.ltb_spec (wrap64 (wrap64 (n * 10) + digitVal c))
                       (wrap64 (n * 10))); simpl; [lia|].
  destruct (Z.gtb_spec (wrap64 (wrap64 (n * 10) + digitVal c)) maxVal);
    simpl; [lia|].
  apply IH. pose proof (wrap64_range (wrap64 (n * 10) + digitVal c)). lia.
Qed.

Lemma ParseUint_range s bits :
  0 <= bits -> 0 <= fst (ParseUint s bits) <= 2 ^ bits - 1.
Proof.
  intros Hb. assert (0 < 2 ^ bits) by (apply Z.pow_pos_nonneg; lia).
  unfold ParseUint. destruct s as [|c s]; [simpl; lia|].
  apply parseUintLoop_range. lia.
Qed.

Lemma ParseInt32_range s :
  - 2147483648 <= fst (ParseInt s 32) <= 2147483647.
Proof.
  unfold ParseInt. destruct s as [|c0 t]; [simpl; lia|].
  match goal with
  | |- context [ParseUint ?b 32] =>
      pose proof (ParseUint_range b 32 ltac:(lia)) as R;
      destruct (ParseUint b 32) as [un [[|]|]]
  end; simpl fst in R; change (2 ^ 32 - 1) with 4294967295 in R;
    change (2 ^ (32 - 1)) with 2147483648.
  - simpl. lia.
  - destruct (Ascii.eqb c0 "-"); simpl negb; cbn [andb].
    + destruct (Z.gtb_spec un 2147483648); simpl; lia.
    + destruct (Z.geb_spec un 2147483648); simpl; lia.
  - destruct (Ascii.eqb c0 "-"); simpl negb; cbn [andb].
    + destruct (Z.gtb_spec un 2147483648); simpl; lia.
    + destruct (Z.geb_spec un 2147483648); simpl; lia.
Qed.

Lemma Match_Star_Group_Class i p s c s' c' :
  Match (Star (Group i (Class p))) s c s' c' ->
  forall v c0, c = upd i v c0 ->
    exists v', c' = upd i v' c0 /\ (v' = v \/ oneOf p v').
Proof.
  intros M. remember (Star (Group i (Class p))) as r eqn:R.
  induction M; try discriminate; intros v c0 E.
  - exists v. auto.
  - injection R as ->.
    apply (Match_Group_consumes _ _ _ _ _ _ _ (consumes_Class p)) in M1.
    destruct M1 as (w & -> & -> & Pw). subst c.
    rewrite upd_upd in IHM2.
    destruct (IHM2 eq_refl w c0 eq_refl) as (v' & -> & [E | Pv]);
      exists v'; subst; auto.
Qed.

Lemma Match_Plus_Group_Class i p s c s' c' :
  Match (Plus (Group i (Class p))) s c s' c' ->
  exists v, c' = upd i v c /\ oneOf p v.
Proof.
  unfold Plus. intros M. apply Match_Seq_inv in M.
  destruct M as (s1 & c1 & M1 & M2).
  apply (Match_Group_consumes _ _ _ _ _ _ _ (consumes_Class p)) in M1.
  destruct M1 as (w & -> & -> & Pw).
  destruct (Match_Star_Group_Class _ _ _ _ _ _ M2 w c eq_refl)
    as (v' & -> & [E | Pv]); subst; eauto.
Qed.

(** What the groups of a matching version line hold. *)
Lemma versionRe_shape line m :
  FindStringSubmatch 7 versionRe line = Some m ->
  oneOf isVersionChar (cap 1 m) /\ In (cap 2 m) registryNames /\
  numeral (cap 3 m) /\ numeral (cap 4 m) /\ numeral (cap 5 m) /\
  numeral (cap 6 m).
Proof.
  intros H. apply FindStringSubmatch_sound in H.
  destruct H as (s' & c' & H & ->). unfold versionRe in H.
  apply Match_Seq_inv in H. destruct H as (s1 & c1 & M & H).
  apply Match_Plus_Group_Class in M. destruct M as (v & -> & Pv).
  take_bar H.
  take_group H (consumes_AltWords registryNames ltac:(discriminate)) reg Preg.
  take_bar H.
  take_group H (consumes_Plus_Class isDigit) ser Ps.
  take_bar H.
  take_group H (consumes_Plus_Class isDigit) n Pn.
  take_bar H.
  take_group H (consumes_Plus_Class isDigit) sd Psd.
  take_bar H.
  take_group H (consumes_Plus_Class isDigit) ed Ped.
  take_bar H.
  apply (Match_Group_consumes _ _ _ _ _ _ _ consumes_Star_Any) in H.
  destruct H as (rest & _ & -> & _).
  cbn [cap nth upd repeat]. unfold numeral. intuition.
Qed.

(** X6.  Whatever line it was read from, a descriptor that
    [parseVersionLine] accepts holds one version character, one of the
    five registry codes, a serial and a record count within 32 bits, start
    and end dates made of digits with the start date never 00000000, and
    an offset of at most 21474836 hours either way; the declared counts
    are untouched. *)
Theorem accepted_header_is_bounded fl hdr line hdr' :
  parseVersionLine fl hdr line = Returns (hdr', true) ->
  oneOf isVersionChar (version hdr') /\
  In (registry hdr') registryNames /\
  0 <= serial hdr' <= 4294967295 /\ 0 <= records hdr' <= 4294967295 /\
  numeral (startdate hdr') /\ startdate hdr' <> "00000000" /\
  numeral (enddate hdr') /\
  - 21474836 <= UTCoffset hdr' <= 21474836 /\
  asnCount hdr' = asnCount hdr /\ ipv4Count hdr' = ipv4Count hdr /\
  ipv6Count hdr' = ipv6Count hdr.
Proof.
  unfold parseVersionLine.
  destruct (FindStringSubmatch 7 versionRe line) as [m|] eqn:F.
  - intros H. injection H as <-.
    destruct (versionRe_shape _ _ F) as (V & R & S1 & N & SD & ED).
    cbn [version registry serial records startdate enddate UTCoffset
         asnCount ipv4Count ipv6Count].
    pose proof (ParseUint_range (cap 3 m) 32 ltac:(lia)) as B3.
    pose proof (ParseUint_range (cap 4 m) 32 ltac:(lia)) as B4.
    pose proof (ParseInt32_range (cap 7 m)) as B7.
    change (2 ^ 32 - 1) with 4294967295 in B3, B4.
    split; [exact V|]. split; [exact R|]. split; [lia|]. split; [lia|].
    split.
    { destruct (String.eqb (cap 5 m) "00000000");
        [split; [reflexivity | discriminate] | exact SD]. }
    split.
    { destruct (String.eqb_spec (cap 5 m) "00000000");
        [discriminate | assumption]. }
    split; [exact ED|].
    split; [|auto].
    pose proof (Z.quot_le_mono (-2147483648) _ 100 eq_refl (proj1 B7)) as Lo.
    pose proof (Z.quot_le_mono _ 2147483647 100 eq_refl (proj2 B7)) as Hi.
    change (-2147483648 ÷ 100) with (-21474836) in Lo.
    change (2147483647 ÷ 100) with 21474836 in Hi.
    split; assumption.
  - destruct (negb (f_invalid_hdr_ok fl)); intros H; [discriminate|].
    injection H as _ H. discriminate.
Qed.

Lemma accepted_header_is_bounded_witness :
  parseVersionLine strict zeroHeader
    "9|lacnic|99999999999|0|00000000|0|-99999999999 and more"
  = Returns (mkHeader "9" "lacnic" 4294967295 0 "19700101" "0" (-21474836)
                      0 0 0, true) /\
  In "lacnic" registryNames /\ 0 <= 4294967295 <= 4294967295.
Proof.
  split; [reflexivity|].
  destruct (accepted_header_is_bounded strict zeroHeader
              "9|lacnic|99999999999|0|00000000|0|-99999999999 and more"
              (mkHeader "9" "lacnic" 4294967295 0 "19700101" "0" (-21474836)
                        0 0 0) eq_refl)
    as (_ & R & S1 & _).
  split; [exact R | exact S1].
Defined.

(** ** The scanner *)

Lemma splitOnLF_nonempty s : splitOnLF s <> [].
Proof.
  destruct s as [|c s]; simpl; [discriminate|].
  destruct (Ascii.eqb c LF); [discriminate|].
  destruct (splitOnLF s); discriminate.
Qed.

Lemma splitOnLF_line l rest :
  allb notLF l = true ->
  splitOnLF (l ++ nl ++ rest) = l :: splitOnLF rest.
Proof.
  induction l as [|c l IH]; intros A.
  - reflexivity.
  - simpl in A. apply andb_true_iff in A. destruct A as [Nc A].
    unfold notLF in Nc. apply negb_true_iff in Nc.
    cbn [append splitOnLF]. rewrite Nc.
    change (l ++ String LF rest)%string with (l ++ nl ++ rest)%string.
    now rewrite (IH A).
Qed.

Lemma tokens_cons l ps :
  ps <> [] -> (String.length l < MaxScanTokenSize)%nat ->
  tokens (l :: ps) = Some (dropCR l) :: tokens ps.
Proof.
  intros N L. apply Nat.ltb_lt in L.
  destruct ps as [|p ps]; [congruence|].
  cbn [tokens]. destruct l; now rewrite L.
Qed.

Lemma dropCR_app_CR l : dropCR (l ++ String CR EmptyString) = l.
Proof.
  induction l as [|c l IH]; [reflexivity|].
  cbn [append]. destruct l as [|c2 l]; [reflexivity|].
  cbn [append] in *. cbn [dropCR]. cbn [dropCR] in IH. now rewrite IH.
Qed.

Lemma allb_app p a b : allb p (a ++ b) = allb p a && allb p b.
Proof.
  induction a as [|c a IH]; simpl; [reflexivity|].
  now rewrite IH, andb_assoc.
Qed.

(** A feed written with LF line ends scans to its lines, each less one
    trailing carriage return. *)
Lemma NewScanner_LF_lines ls :
  (forall l, In l ls -> scannable l) ->
  NewScanner (joinLines nl ls) = map (fun l => Some (dropCR l)) ls.
Proof.
  unfold NewScanner. induction ls as [|l ls IH]; intros H; [reflexivity|].
  destruct (H l (or_introl eq_refl)) as [A L].
  cbn [joinLines map].
  rewrite (splitOnLF_line l _ A).
  rewrite tokens_cons;
    [|apply splitOnLF_nonempty
     |set (M := MaxScanTokenSize) in *; clearbody M; lia].
  rewrite IH; [reflexivity|]. intros; apply H; now right.
Qed.

(** A feed written with CR LF line ends scans to exactly its lines. *)
Lemma NewScanner_CRLF_lines ls :
  (forall l, In l ls -> scannable l) ->
  NewScanner (joinLines CRLF ls) = map Some ls.
Proof.
  unfold NewScanner. induction ls as [|l ls IH]; intros H; [reflexivity|].
  destruct (H l (or_introl eq_refl)) as [A L].
  cbn [joinLines map]. unfold CRLF.
  change (l ++ String CR nl ++ joinLines (String CR nl) ls)%string
    with (l ++ (String CR EmptyString ++ (nl ++ joinLines CRLF ls)))%string.
  rewrite <- str_app_assoc.
  rewrite splitOnLF_line by (rewrite allb_app, A; reflexivity).
  rewrite tokens_cons;
    [|apply splitOnLF_nonempty
     |rewrite str_length_app; cbn [String.length];
      set (M := MaxScanTokenSize) in *; clearbody M; lia].
  rewrite dropCR_app_CR, IH; [reflexivity|]. intros; apply H; now right.
Qed.

(** X7.  Scanning gives back the lines a feed was written from: with
    CR LF line ends exactly the lines, with LF line ends the lines less one
    trailing carriage return each; nothing follows the last line end.  The
    lines must be free of line feeds and fit the scanner's buffer. *)
Theorem scanner_returns_the_lines ls :
  (forall l, In l ls -> scannable l) ->
  NewScanner (joinLines nl ls) = map (fun l => Some (dropCR l)) ls /\
  NewScanner (joinLines CRLF ls) = map Some ls.
Proof.
  intros H. split.
  - now apply NewScanner_LF_lines.
  - now apply NewScanner_CRLF_lines.
Qed.

Lemma scanner_returns_the_lines_witness :
  NewScanner (joinLines nl ["# c"; ""; String "x" (String CR EmptyString)])
  = [Some "# c"; Some ""; Some "x"] /\
  NewScanner (joinLines CRLF ["# c"; ""; "x"])
  = [Some "# c"; Some ""; Some "x"].
Proof.
  assert (H1 : forall l,
             In l ["# c"; ""; String "x" (String CR EmptyString)] ->
             scannable l)
    by (intros l [<- | [<- | [<- | []]]]; split; try reflexivity;
        apply Nat.ltb_lt; vm_compute; reflexivity).
  assert (H2 : forall l, In l ["# c"; ""; "x"] -> scannable l)
    by (intros l [<- | [<- | [<- | []]]]; split; try reflexivity;
        apply Nat.ltb_lt; vm_compute; reflexivity).
  split.
  - exact (proj1 (scanner_returns_the_lines _ H1)).
  - exact (proj2 (scanner_returns_the_lines _ H2)).
Defined.

Lemma splitOnLF_noLF s : Forall (fun p => allb notLF p = true) (splitOnLF s).
Proof.
  induction s as [|c s IH]; simpl; [repeat constructor|].
  destruct (Ascii.eqb c LF) eqn:E; [constructor; auto|].
  destruct (splitOnLF s) as [|l ls]; [repeat constructor; simpl|].
  - unfold notLF. now rewrite E.
  - inversion IH; subst. constructor; auto. simpl. unfold notLF at 1.
    now rewrite E.
Qed.

Lemma dropCR_allb p s : allb p s = true -> allb p (dropCR s) = true.
Proof.
  induction s as [|c s IH]; [auto|]. intros A.
  simpl in A. apply andb_true_iff in A. destruct A as [Pc A].
  destruct s as [|c2 s].
  - cbn [dropCR]. destruct (Ascii.eqb c CR); simpl; [reflexivity | now rewrite Pc].
  - change (dropCR (String c (String c2 s)))
      with (String c (dropCR (String c2 s))).
    cbn [allb]. rewrite Pc. apply IH. exact A.
Qed.

Lemma dropCR_length s : (String.length (dropCR s) <= String.length s)%nat.
Proof.
  induction s as [|c s IH]; [auto|].
  destruct s as [|c2 s].
  - cbn [dropCR]. destruct (Ascii.eqb c CR); simpl; lia.
  - change (dropCR (String c (String c2 s)))
      with (String c (dropCR (String c2 s))).
    change (String.length (String c (dropCR (String c2 s))))
      with (S (String.length (dropCR (String c2 s)))).
    change (String.length (String c (String c2 s)))
      with (S (String.length (String c2 s))).
    lia.
Qed.

Lemma take_allb p n : forall s, allb p s = true -> allb p (take n s) = true.
Proof.
  unfold take. induction n as [|n IH]; intros [|c s] A; simpl; auto.
  simpl in A. apply andb_true_iff in A. destruct A as [Pc A].
  rewrite Pc. simpl. now apply IH.
Qed.

Lemma take_length n : forall s, (String.length (take n s) <= n)%nat.
Proof.
  unfold take. induction n as [|n IH]; intros [|c s]; simpl; try lia.
  specialize (IH s). lia.
Qed.

Lemma tokens_bounded ps :
  Forall (fun p => allb notLF p = true) ps ->
  Forall (fun ev => match ev with
                    | Some l => allb notLF l = true /\
                                (String.length l <= MaxScanTokenSize)%nat
                    | None => True
                    end) (tokens ps).
Proof.
  induction ps as [|p ps IH]; intros F; [constructor|].
  inversion F as [|? ? Ap Fps]; subst. specialize (IH Fps).
  assert (general :
    Forall (fun ev => match ev with
                      | Some l => allb notLF l = true /\
                                  (String.length l <= MaxScanTokenSize)%nat
                      | None => True
                      end)
           (if Nat.ltb (String.length p) MaxScanTokenSize
            then Some (dropCR p) :: tokens ps
            else [None; Some (dropCR (take MaxScanTokenSize p))])).
  { destruct (Nat.ltb (String.length p) MaxScanTokenSize) eqn:E.
    - apply Nat.ltb_lt in E. constructor; [|exact IH].
      split; [now apply dropCR_allb|].
      pose proof (dropCR_length p).
      set (M := MaxScanTokenSize) in *. clearbody M. lia.
    - constructor; [exact I|]. constructor; [|constructor]. split.
      + apply dropCR_allb. now apply take_allb.
      + pose proof (dropCR_length (take MaxScanTokenSize p)).
        pose proof (take_length MaxScanTokenSize p).
        set (M := MaxScanTokenSize) in *. clearbody M. lia. }
  cbn [tokens]. destruct p as [|c p].
  - destruct ps as [|p2 ps]; [constructor | exact general].
  - exact general.
Qed.

(** X8.  Whatever the bytes, no line the scanner delivers holds a line
    feed and none is longer than the scanner's buffer of 65536 bytes. *)
Theorem scanned_lines_are_bounded data l :
  In (Some l) (NewScanner data) ->
  allb notLF l = true /\ (String.length l <= MaxScanTokenSize)%nat.
Proof.
  intros H. unfold NewScanner in H.
  pose proof (tokens_bounded _ (splitOnLF_noLF data)) as F.
  rewrite Forall_forall in F. exact (F _ H).
Qed.

Lemma scanned_lines_are_bounded_witness :
  In (Some "b") (NewScanner ("a" ++ nl ++ "b" ++ CRLF)) /\
  allb notLF "b" = true /\ (String.length "b" <= MaxScanTokenSize)%nat.
Proof.
  assert (H : In (Some "b") (NewScanner ("a" ++ nl ++ "b" ++ CRLF)))
    by (vm_compute; auto).
  split; [exact H|].
  exact (scanned_lines_are_bounded ("a" ++ nl ++ "b" ++ CRLF) "b" H).
Defined.

Lemma dropCR_comment l :
  isCommentLine l = true ->
  dropCR l = EmptyString \/ isCommentLine (dropCR l) = true.
Proof.
  destruct l as [|c l]; [discriminate|]. intros C. simpl in C.
  destruct l as [|c2 l]; cbn [dropCR].
  - destruct (Ascii.eqb c CR); [now left | now right].
  - right. exact C.
Qed.

Lemma skipComments_exhausted ls : forall l0,
  (forall l, In l (l0 :: ls) -> l = EmptyString \/ isCommentLine l = true) ->
  skipComments l0 (map Some ls) = Panics IndexOutOfRange.
Proof.
  induction ls as [|l1 ls IH]; intros l0 H.
  - destruct l0 as [|c l0]; [reflexivity|].
    destruct (H _ (or_introl eq_refl)) as [E | C]; [discriminate|].
    simpl in C. simpl. now rewrite C.
  - destruct l0 as [|c l0]; [reflexivity|].
    destruct (H _ (or_introl eq_refl)) as [E | C]; [discriminate|].
    simpl in C. cbn [map skipComments]. rewrite C. cbn [scanText].
    apply IH. intros l I. apply H. now right.
Qed.

(** X9.  A feed with nothing in it, or with comment lines only, makes the
    run panic in [parseHeader] (the exhausted scanner hands back an empty
    line, which is indexed), with invalid headers tolerated or not; the
    store is not touched. *)
Theorem comment_only_feed_panics server fl db cs :
  (forall l, In l cs -> isCommentLine l = true /\ scannable l) ->
  parseData server fl db (joinLines nl cs) = (db, Panics IndexOutOfRange).
Proof.
  intros H. unfold parseData, ingest, parseHeader.
  rewrite (NewScanner_LF_lines cs (fun l I => proj2 (H l I))).
  assert (P : (let '(_, line, sc1) :=
                 Scan (map (fun l => Some (dropCR l)) cs) in
               skipComments line sc1) = Panics IndexOutOfRange).
  { destruct cs as [|c0 cs]; [reflexivity|].
    cbn [map Scan scanText]. rewrite <- (map_map dropCR Some).
    apply skipComments_exhausted.
    intros l I. change (In l (map dropCR (c0 :: cs))) in I.
    apply in_map_iff in I. destruct I as (l' & <- & I').
    apply dropCR_comment. apply (H l' I'). }
  destruct (Scan _) as [[ok line] sc1]. now rewrite P.
Qed.

Lemma comment_only_feed_panics_witness :
  parseData noFaults tolerant emptyDB EmptyString
  = (emptyDB, Panics IndexOutOfRange) /\
  parseData noFaults tolerant emptyDB
            (joinLines nl ["# generated"; "# nothing today"])
  = (emptyDB, Panics IndexOutOfRange).
Proof.
  split.
  - apply (comment_only_feed_panics noFaults tolerant emptyDB []).
    intros l [].
  - apply (comment_only_feed_panics noFaults tolerant emptyDB
             ["# generated"; "# nothing today"]).
    intros l [<- | [<- | []]]; repeat split;
      apply Nat.ltb_lt; vm_compute; reflexivity.
Defined.

(** ** What a run adds to the store *)

Lemma appended_same {A} (l : list A) (P : A -> Prop) n : appended l l P n.
Proof.
  exists []. rewrite app_nil_r. repeat split; [constructor | simpl; lia].
Qed.

Lemma appended_one {A} (l : list A) (P : A -> Prop) x n :
  P x -> (1 <= n)%nat -> appended l (l ++ [x]) P n.
Proof. intros Px L. exists [x]. repeat split; [repeat constructor; auto | simpl; lia]. Qed.

Lemma appended_trans {A} (a b c : list A) (P : A -> Prop) n m :
  appended a b P n -> appended b c P m -> appended a c P (n + m).
Proof.
  intros (x & -> & Fx & Lx) (y & -> & Fy & Ly).
  exists (x ++ y)%list. rewrite app_assoc. repeat split.
  - apply Forall_app. auto.
  - rewrite length_app. lia.
Qed.

Lemma appended_weaken {A} (a b : list A) (P Q : A -> Prop) n m :
  (forall x, P x -> Q x) -> (n <= m)%nat ->
  appended a b P n -> appended a b Q m.
Proof.
  intros PQ L (x & -> & Fx & Lx). exists x. repeat split; [|lia].
  eapply Forall_impl; eauto.
Qed.

Lemma appended_eq {A} (a b : list A) (P : A -> Prop) n :
  b = a -> appended a b P n.
Proof. intros ->. apply appended_same. Qed.

Lemma execInsertRecord_adds server ty id t a db db' r :
  execInsertRecord server ty id t a db = (db', r) ->
  forall ty', appended (Records ty' db) (Records ty' db') (recordOf id t)
                       (if match ty, ty' with
                           | ipv4, ipv4 | asn, asn | ipv6, ipv6 => true
                           | _, _ => false
                           end then 1 else 0).
Proof.
  unfold execInsertRecord.
  destruct (server (InsertRecord ty id t a)).
  - intros H ty'. injection H as <- _. apply appended_same.
  - destruct (existsb (sameRecord a) (Records ty db)).
    + intros H ty'. injection H as <- _. apply appended_same.
    + intros H ty'. injection H as <- _. rewrite Records_withRecords.
      destruct ty, ty'; try apply appended_same;
        (apply appended_one; [split; reflexivity | lia]).
Qed.

Lemma processLine_adds server id t line c db db' e :
  processLine server id t line c db = (db', e) ->
  forall ty, appended (Records ty db) (Records ty db') (recordOf id t) 1.
Proof.
  unfold processLine. intros H ty.
  destruct (decode line) as [[k a]|];
    [|injection H as <- _; apply appended_same].
  destruct (typeOfName k) as [ty0|];
    [|injection H as <- _; apply appended_same].
  destruct (prepared server id t ty0);
    [|injection H as <- _; apply appended_same].
  destruct (execInsertRecord server ty0 id t a db) as [d r] eqn:E.
  pose proof (execInsertRecord_adds _ _ _ _ _ _ _ _ E ty) as Ad.
  assert (d = db') as <- by (destruct r as [[n|]|]; now injection H).
  eapply appended_weaken; [| |exact Ad]; auto.
  destruct ty0, ty; lia.
Qed.

Lemma streamRecords_adds server id t sc : forall c db db' e,
  streamRecords server id t sc c db = (db', e) ->
  forall ty, appended (Records ty db) (Records ty db') (recordOf id t)
                      (streamed sc).
Proof.
  induction sc as [|[line|] r IH]; intros c db db' e H ty;
    cbn [streamRecords] in H.
  - injection H as <- _. apply appended_same.
  - destruct (processLine server id t line c db) as [d o] eqn:P.
    pose proof (processLine_adds _ _ _ _ _ _ _ _ P ty) as A1.
    cbn [streamed]. change (S (streamed r)) with (1 + streamed r)%nat.
    destruct o as [c1| |].
    + eapply appended_trans; [exact A1|]. eapply IH; eauto.
    + injection H as <- _.
      eapply appended_weaken; [| |exact A1]; auto; lia.
    + injection H as <- _.
      eapply appended_weaken; [| |exact A1]; auto; lia.
  - injection H as <- _. apply appended_same.
Qed.

Lemma execInsertSummary_adds server id k n t db :
  appended (Summaries db)
           (Summaries (fst (execInsertSummary server id k n t db)))
           (summaryOf id t) 1.
Proof.
  unfold execInsertSummary.
  destruct (server (InsertSummary id k n t)); [apply appended_same|].
  destruct (existsb _ _); [apply appended_same|].
  simpl. apply appended_one; [split; reflexivity | lia].
Qed.

Lemma saveSummaries_adds server ks id hdr : forall db,
  appended (Summaries db) (Summaries (saveSummaries server ks id hdr db))
           (summaryOf id (enddate hdr)) (List.length ks).
Proof.
  induction ks as [|k ks IH]; intros db; cbn [saveSummaries].
  - apply appended_same.
  - change (List.length (k :: ks)) with (1 + List.length ks)%nat.
    eapply appended_trans; [apply execInsertSummary_adds | apply IH].
Qed.

Lemma find_In {A} (f : A -> bool) l r :
  find f l = Some r -> In r l /\ f r = true.
Proof. apply find_some. Qed.

(** What [saveHeaderData] leaves behind when it returns. *)
Lemma saveHeaderData_adds server fl db hdr dbh id :
  saveHeaderData server fl db hdr = (dbh, Returns id) ->
  (exists d, In d (Datasets dbh) /\ ds_ID d = id /\
             ds_registry d = registry hdr /\ ds_serial d = serial hdr) /\
  appended (Datasets db) (Datasets dbh) (fun d => ds_ID d = id) 1 /\
  appended (Summaries db) (Summaries dbh) (summaryOf id (enddate hdr)) 3 /\
  (forall ty, Records ty dbh = Records ty db).
Proof.
  intros H.
  pose proof (saveHeaderData_frame server fl db hdr) as FR.
  rewrite H in FR. cbn [fst] in FR.
  rewrite saveHeaderData_eq in H.
  destruct (execInsertDataset server hdr db) as [db1 [id1|[n|]]] eqn:X.
  - injection H as <- <-.
    apply execInsertDataset_created in X.
    destruct X as (_ & _ & E & D1 & S1).
    pose proof (saveSummaries_frame server summaryKeys id1 hdr db1)
      as (D2 & _ & _).
    pose proof (saveSummaries_adds server summaryKeys id1 hdr db1) as A.
    rewrite S1 in A.
    repeat split; auto.
    + eexists. split; [rewrite D2, D1; apply in_or_app; right; left;
                       reflexivity|]. repeat split.
    + rewrite D2, D1. apply appended_one; [reflexivity | lia].
  - apply execInsertDataset_failed in X. destruct X as [-> _].
    destruct ((n =? ER_DUP_ENTRY) && f_force fl); [|discriminate].
    unfold queryDatasetID in H.
    destruct (server (SelectDatasetID (registry hdr) (serial hdr)));
      [discriminate|].
    destruct (find _ (Datasets db)) as [r|] eqn:F; [|discriminate].
    injection H as <- <-.
    apply find_In in F. destruct F as [I SD].
    unfold sameDataset in SD. apply andb_true_iff in SD.
    destruct SD as [E1 E2]. apply String.eqb_eq in E1. apply Z.eqb_eq in E2.
    pose proof (saveSummaries_frame server summaryKeys (ds_ID r) hdr db)
      as (D2 & _ & _).
    repeat split; auto.
    + exists r. rewrite D2. auto.
    + apply appended_eq. exact D2.
    + apply (saveSummaries_adds server summaryKeys (ds_ID r) hdr db).
  - discriminate.
Qed.

Lemma saveHeaderData_stops server fl db hdr dbh e :
  saveHeaderData server fl db hdr = (dbh, e) ->
  (forall id, e <> Returns id) -> dbh = db.
Proof.
  intros H N. rewrite saveHeaderData_eq in H.
  destruct (execInsertDataset server hdr db) as [db1 [id1|[n|]]] eqn:X.
  - injection H as _ <-. exfalso. eapply N. reflexivity.
  - apply execInsertDataset_failed in X. destruct X as [-> _].
    destruct ((n =? ER_DUP_ENTRY) && f_force fl).
    + destruct (queryDatasetID _ _ _ _).
      * injection H as _ <-. exfalso. eapply N. reflexivity.
      * now injection H.
    + now injection H.
  - apply execInsertDataset_failed in X. destruct X as [-> _].
    now injection H.
Qed.

(** X10.  A run only adds rows: every table afterwards is the table
    before with rows added at its end, at most one in Datasets, at most
    three in Summaries, and in each Records table at most as many as lines
    were scanned; this holds however the run ends. *)
Theorem run_only_appends server fl db data db' out :
  parseData server fl db data = (db', out) ->
  appended (Datasets db) (Datasets db') (fun _ => True) 1 /\
  appended (Summaries db) (Summaries db') (fun _ => True) 3 /\
  forall ty, appended (Records ty db) (Records ty db') (fun _ => True)
                      (List.length (NewScanner data)).
Proof.
  unfold parseData, ingest. intros H.
  destruct (parseHeader fl (NewScanner data) zeroHeader)
    as [[hdr sc]| |] eqn:PH;
    try (injection H as <- _; repeat split; intros; apply appended_same).
  apply parseHeader_shrinks in PH.
  unfold afterHeader in H.
  destruct (saveHeaderData server fl db hdr) as [dbh e] eqn:SH.
  destruct e as [id| |];
    try (assert (dbh = db) as ->
           by (eapply saveHeaderData_stops; [exact SH | discriminate]);
         injection H as <- _; repeat split; intros; apply appended_same).
  apply saveHeaderData_adds in SH. destruct SH as (_ & AD & AS & RR).
  destruct (streamRecords server id (enddate hdr) sc zeroCounters dbh)
    as [db2 es] eqn:SR.
  pose proof (streamRecords_frame _ _ _ _ _ _ _ _ SR) as (D & S & _).
  pose proof (streamRecords_adds _ _ _ _ _ _ _ _ SR) as AR.
  assert (db2 = db') as ->
    by (destruct es; [destruct (closeAll _ _ _)|..]; now injection H).
  rewrite D, S. split; [|split].
  - eapply appended_weaken; [| |exact AD]; auto.
  - eapply appended_weaken; [| |exact AS]; auto.
  - intros ty. specialize (AR ty). rewrite RR in AR.
    eapply appended_weaken; [| |exact AR]; auto.
    assert (streamed sc <= List.length sc)%nat; [|lia].
    clear. induction sc as [|[l|] r IH]; simpl; lia.
Qed.

Lemma run_only_appends_witness :
  parseData noFaults strict emptyDB sampleFeed
  = (sampleStore, Returns sampleReport) /\
  appended (Datasets emptyDB) (Datasets sampleStore) (fun _ => True) 1 /\
  appended (Summaries emptyDB) (Summaries sampleStore) (fun _ => True) 3.
Proof.
  assert (H : parseData noFaults strict emptyDB sampleFeed
              = (sampleStore, Returns sampleReport))
    by (vm_compute; reflexivity).
  split; [exact H|].
  destruct (run_only_appends noFaults strict emptyDB sampleFeed sampleStore
              (Returns sampleReport) H) as (A & B & _).
  split; [exact A | exact B].
Defined.

(** X11.  The rows of a run belong to its Dataset: when a run returns,
    Datasets holds a row whose identifier is the one reported and whose
    registry and serial are the header's, and every Summary and Record row
    the run added carries that identifier and the header's end date. *)
Theorem rows_reference_the_dataset server fl db data db' rep :
  parseData server fl db data = (db', Returns rep) ->
  exists hdr sc d,
    parseHeader fl (NewScanner data) zeroHeader = Returns (hdr, sc) /\
    In d (Datasets db') /\ ds_ID d = datasetID rep /\
    ds_registry d = registry hdr /\ ds_serial d = serial hdr /\
    appended (Summaries db) (Summaries db')
             (summaryOf (datasetID rep) (enddate hdr)) 3 /\
    forall ty, appended (Records ty db) (Records ty db')
                        (recordOf (datasetID rep) (enddate hdr))
                        (streamed sc).
Proof.
  unfold parseData, ingest. intros H.
  destruct (parseHeader fl (NewScanner data) zeroHeader)
    as [[hdr sc]| |] eqn:PH; try discriminate.
  exists hdr, sc. unfold afterHeader in H.
  destruct (saveHeaderData server fl db hdr) as [dbh [id| |]] eqn:SH;
    try discriminate.
  apply saveHeaderData_adds in SH.
  destruct SH as ((d & I & E1 & E2 & E3) & _ & AS & RR).
  destruct (streamRecords server id (enddate hdr) sc zeroCounters dbh)
    as [db2 [c| |]] eqn:SR; try discriminate.
  pose proof (streamRecords_frame _ _ _ _ _ _ _ _ SR) as (D & S & _).
  pose proof (streamRecords_adds _ _ _ _ _ _ _ _ SR) as AR.
  destruct (closeAll server id (enddate hdr)); [|discriminate].
  injection H as <- <-. cbn [datasetID].
  exists d. rewrite D, S. repeat split; auto.
  intros ty. specialize (AR ty). now rewrite RR in AR.
Qed.

Lemma rows_reference_the_dataset_witness :
  parseData noFaults strict emptyDB sampleFeed
  = (sampleStore, Returns sampleReport) /\
  exists hdr sc d,
    parseHeader strict (NewScanner sampleFeed) zeroHeader = Returns (hdr, sc)
    /\ In d (Datasets sampleStore) /\ ds_ID d = datasetID sampleReport /\
    ds_registry d = registry hdr /\ ds_serial d = serial hdr.
Proof.
  assert (H : parseData noFaults strict emptyDB sampleFeed
              = (sampleStore, Returns sampleReport))
    by (vm_compute; reflexivity).
  split; [exact H|].
  destruct (rows_reference_the_dataset noFaults strict emptyDB sampleFeed
              sampleStore sampleReport H)
    as (hdr & sc & d & PH & I & E1 & E2 & E3 & _).
  exists hdr, sc, d.
  split; [exact PH|]. split; [exact I|]. split; [exact E1|].
  split; [exact E2 | exact E3].
Defined.

Lemma processLine_rows server id t line c db db' c' n :
  processLine server id t line c db = (db', Returns c') ->
  countersAt c n -> n < 2 ^ 64 - 1 ->
  forall ty, exists added,
    Records ty db' = (Records ty db ++ added)%list /\
    Z.of_nat (List.length added) <= counterOf ty c' - counterOf ty c.
Proof.
  unfold processLine. intros H (A & S & I & P4 & PA & P6) B ty.
  unfold sumOf in S.
  destruct (decode line) as [[k a]|].
  2:{ injection H as <- <-. exists []. rewrite app_nil_r.
      split; [reflexivity|]. destruct ty; simpl; lia. }
  destruct (typeOfName k) as [ty0|]; [|discriminate].
  destruct (prepared server id t ty0); [|discriminate].
  destruct (execInsertRecord server ty0 id t a db) as [d r] eqn:E.
  destruct (execInsertRecord_adds _ _ _ _ _ _ _ _ E ty)
    as (added & EQ & _ & L).
  assert (d = db' /\ c' = bump ty0 c) as [<- ->]
    by (destruct r as [[m|]|]; try discriminate; injection H; auto).
  exists added. split; [exact EQ|].
  destruct ty0, ty; simpl in *; rewrite ?wrap64_succ by lia; lia.
Qed.

Lemma streamRecords_rows server id t sc : forall c db db' c' n,
  streamRecords server id t sc c db = (db', Returns c') ->
  countersAt c n -> n + Z.of_nat (List.length sc) < 2 ^ 64 ->
  forall ty, exists added,
    Records ty db' = (Records ty db ++ added)%list /\
    Z.of_nat (List.length added) <= counterOf ty c' - counterOf ty c.
Proof.
  induction sc as [|[line|] r IH]; intros c db db' c' n H C B ty;
    cbn [streamRecords] in H.
  - injection H as <- <-. exists []. rewrite app_nil_r. split; [auto|simpl; lia].
  - destruct (processLine server id t line c db) as [d [c1| |]] eqn:P;
      try discriminate.
    cbn [List.length] in B. rewrite Nat2Z.inj_succ in B.
    destruct (processLine_rows _ _ _ _ _ _ _ _ n P C ltac:(lia) ty)
      as (x & E1 & L1).
    pose proof (countersAt_step c c1 n C ltac:(lia)
                  (processLine_counts _ _ _ _ _ _ _ _ P)) as C1.
    destruct (IH _ _ _ _ (n + 1) H C1 ltac:(lia) ty) as (y & E2 & L2).
    exists (x ++ y)%list. rewrite E2, E1, app_assoc. split; [reflexivity|].
    rewrite length_app, Nat2Z.inj_add.
    assert (counterOf ty (bumpAll c1) = counterOf ty c1)
      by (destruct ty; reflexivity).
    lia.
  - injection H as <- <-. exists []. rewrite app_nil_r. split; [auto|simpl; lia].
Qed.

(** X12.  The counters count lines, not rows: when a run over fewer than
    2^63 bytes returns, the rows it added to a Records table are at most
    the lines counted under that type (a duplicate or refused record is
    counted and adds nothing). *)
Theorem counters_bound_the_rows server fl db data db' rep :
  Z.of_nat (String.length data) < 2 ^ 63 ->
  parseData server fl db data = (db', Returns rep) ->
  forall ty, exists added,
    Records ty db' = (Records ty db ++ added)%list /\
    Z.of_nat (List.length added) <= counterOf ty (counts rep).
Proof.
  intros B H ty. unfold parseData, ingest in H.
  destruct (parseHeader fl (NewScanner data) zeroHeader)
    as [[hdr sc]| |] eqn:PH; try discriminate.
  unfold afterHeader in H.
  destruct (saveHeaderData server fl db hdr) as [dbh [id| |]] eqn:SH;
    try discriminate.
  apply saveHeaderData_adds in SH. destruct SH as (_ & _ & _ & RR).
  destruct (streamRecords server id (enddate hdr) sc zeroCounters dbh)
    as [db2 [c| |]] eqn:SR; try discriminate.
  destruct (closeAll server id (enddate hdr)); [|discriminate].
  injection H as <- <-. cbn [counts].
  apply parseHeader_shrinks in PH. pose proof (NewScanner_length data) as NL.
  destruct (streamRecords_rows _ _ _ _ _ _ _ _ 0 SR) with (ty := ty)
    as (added & E & L).
  - unfold countersAt, sumOf. simpl. lia.
  - assert (2 ^ 63 + 2 < 2 ^ 64) by reflexivity. lia.
  - exists added. rewrite <- RR. split; [exact E|].
    destruct ty; simpl in L |- *; lia.
Qed.

Lemma counters_bound_the_rows_witness :
  Z.of_nat (String.length sampleFeed) < 2 ^ 63 /\
  parseData noFaults strict emptyDB sampleFeed
  = (sampleStore, Returns sampleReport) /\
  exists added,
    Records ipv4 sampleStore = (Records ipv4 emptyDB ++ added)%list /\
    Z.of_nat (List.length added) <= counterOf ipv4 (counts sampleReport).
Proof.
  assert (B : Z.of_nat (String.length sampleFeed) < 2 ^ 63)
    by (now vm_compute).
  assert (H : parseData noFaults strict emptyDB sampleFeed
              = (sampleStore, Returns sampleReport))
    by (vm_compute; reflexivity).
  split; [exact B|]. split; [exact H|].
  exact (counters_bound_the_rows noFaults strict emptyDB sampleFeed
           sampleStore sampleReport B H ipv4).
Defined.

(** ** Force mode *)

Lemma parseHeader_flags fl fl' sc hdr :
  f_invalid_hdr_ok fl' = f_invalid_hdr_ok fl ->
  parseHeader fl' sc hdr = parseHeader fl sc hdr.
Proof.
  intros E. unfold parseHeader, parseVersionLine. now rewrite E.
Qed.

Lemma saveHeaderData_unforced server fl fl' db hdr dbh id :
  f_force fl = false ->
  saveHeaderData server fl db hdr = (dbh, Returns id) ->
  saveHeaderData server fl' db hdr = (dbh, Returns id).
Proof.
  intros F H. rewrite saveHeaderData_eq in *.
  destruct (execInsertDataset server hdr db) as [db1 [id1|[n|]]];
    [exact H | | discriminate].
  rewrite F, andb_false_r in H. discriminate.
Qed.

(** X13.  Force mode never harms a first import: a run that returns
    without force returns with force as well, with the same store and the
    same report. *)
Theorem force_keeps_a_clean_run server fl fl' db data db' rep :
  f_force fl = false ->
  f_invalid_hdr_ok fl' = f_invalid_hdr_ok fl ->
  parseData server fl db data = (db', Returns rep) ->
  parseData server fl' db data = (db', Returns rep).
Proof.
  intros F E H. unfold parseData, ingest in *.
  rewrite (parseHeader_flags fl fl' _ _ E).
  destruct (parseHeader fl (NewScanner data) zeroHeader)
    as [[hdr sc]| |]; try discriminate.
  unfold afterHeader in *.
  destruct (saveHeaderData server fl db hdr) as [dbh [id| |]] eqn:SH;
    try discriminate.
  now rewrite (saveHeaderData_unforced server fl fl' db hdr dbh id F SH).
Qed.

Lemma force_keeps_a_clean_run_witness :
  parseData noFaults strict emptyDB sampleFeed
  = (sampleStore, Returns sampleReport) /\
  parseData noFaults forced emptyDB sampleFeed
  = (sampleStore, Returns sampleReport).
Proof.
  assert (H : parseData noFaults strict emptyDB sampleFeed
              = (sampleStore, Returns sampleReport))
    by (vm_compute; reflexivity).
  split; [exact H|].
  exact (force_keeps_a_clean_run noFaults strict forced emptyDB sampleFeed
           sampleStore sampleReport eq_refl eq_refl H).
Defined.

Lemma find_app_l {A} (f : A -> bool) l m x :
  find f l = Some x -> find f (l ++ m) = Some x.
Proof.
  induction l as [|y l IH]; simpl; [discriminate|].
  destruct (f y); auto.
Qed.

Lemma find_existsb {A} (f : A -> bool) l x :
  find f l = Some x -> existsb f l = true.
Proof.
  induction l as [|y l IH]; simpl; [discriminate|].
  destruct (f y); auto.
Qed.

(** The Dataset a returning [saveHeaderData] settles on is the first row
    of Datasets with the header's registry and serial. *)
Lemma saveHeaderData_finds server fl db hdr dbh id :
  saveHeaderData server fl db hdr = (dbh, Returns id) ->
  (exists d, find (sameDataset (registry hdr) (serial hdr)) (Datasets dbh)
             = Some d /\ ds_ID d = id) /\
  (server (InsertDataset hdr) = None \/
   exists n, server (InsertDataset hdr) = Some (MySQLError n) /\
             (n =? ER_DUP_ENTRY) = true).
Proof.
  intros H. rewrite saveHeaderData_eq in H.
  unfold execInsertDataset in H.
  destruct (server (InsertDataset hdr)) as [[n|]|] eqn:SV.
  - destruct (n =? ER_DUP_ENTRY) eqn:N; [|discriminate].
    destruct (f_force fl); [|discriminate]. cbn [andb] in H.
    unfold queryDatasetID in H.
    destruct (server (SelectDatasetID _ _)); [discriminate|].
    destruct (find _ (Datasets db)) as [r|] eqn:F; [|discriminate].
    injection H as <- <-. split; [|right; eauto].
    exists r. split; [|reflexivity].
    now rewrite (proj1 (saveSummaries_frame server summaryKeys _ hdr db)).
  - discriminate.
  - split; [|now left].
    destruct (existsb _ (Datasets db)) eqn:EX.
    + destruct ((ER_DUP_ENTRY =? ER_DUP_ENTRY) && f_force fl);
        [|discriminate].
      unfold queryDatasetID in H.
      destruct (server (SelectDatasetID _ _)); [discriminate|].
      destruct (find _ (Datasets db)) as [r|] eqn:F; [|discriminate].
      injection H as <- <-. exists r. split; [|reflexivity].
      now rewrite (proj1 (saveSummaries_frame server summaryKeys _ hdr db)).
    + injection H as <- <-.
      rewrite (proj1 (saveSummaries_frame server summaryKeys _ hdr _)).
      cbn [Datasets]. eexists. split;
        [apply (find_app_fresh _ _ _ EX (sameDataset_new _ hdr))|reflexivity].
Qed.

Lemma saveHeaderData_regrown server fl db hdr dbh id db2 :
  f_force fl = true ->
  server (SelectDatasetID (registry hdr) (serial hdr)) = None ->
  saveHeaderData server fl db hdr = (dbh, Returns id) ->
  (exists more, Datasets db2 = (Datasets dbh ++ more)%list) ->
  coversS dbh db2 ->
  saveHeaderData server fl db2 hdr = (db2, Returns id).
Proof.
  intros F SS H (more & D) C.
  destruct (saveHeaderData_finds _ _ _ _ _ _ H) as ((d & FD & <-) & SV).
  assert (F2 : find (sameDataset (registry hdr) (serial hdr)) (Datasets db2)
               = Some d) by (rewrite D; now apply find_app_l).
  assert (Q : queryDatasetID server (registry hdr) (serial hdr) db2
              = inl (ds_ID d))
    by (unfold queryDatasetID; now rewrite SS, F2).
  assert (S2 : saveSummaries server summaryKeys (ds_ID d) hdr db2 = db2).
  { rewrite saveHeaderData_eq in H.
    destruct (execInsertDataset server hdr db) as [db1 [id1|[n|]]] eqn:X;
      [|destruct ((n =? ER_DUP_ENTRY) && f_force fl);
        [destruct (queryDatasetID _ _ _ _)|]|];
      try discriminate; injection H as <- E; subst;
      eapply saveSummaries_again; exact C. }
  rewrite saveHeaderData_eq.
  destruct SV as [SV | (n & SV & N)].
  - rewrite (execInsertDataset_duplicate server hdr db2 SV
               (find_existsb _ _ _ F2)).
    change (ER_DUP_ENTRY =? ER_DUP_ENTRY) with true.
    rewrite F. cbn [andb]. now rewrite Q, S2.
  - unfold execInsertDataset. rewrite SV, N, F. cbn [andb].
    now rewrite Q, S2.
Qed.

(** A forced run that has returned is a no-op on every store grown from
    the one it left. *)
Lemma parseData_regrown server fl db data db1 rep db2 :
  f_force fl = true ->
  (forall reg ser, server (SelectDatasetID reg ser) = None) ->
  parseData server fl db data = (db1, Returns rep) ->
  grownFrom db1 db2 ->
  parseData server fl db2 data = (db2, Returns rep).
Proof.
  intros F SS H ((more & D) & CS & CR). unfold parseData, ingest in *.
  destruct (parseHeader fl (NewScanner data) zeroHeader)
    as [[hdr sc]| |]; try discriminate.
  unfold afterHeader in *.
  destruct (saveHeaderData server fl db hdr) as [dbh [id| |]] eqn:SH;
    try discriminate.
  destruct (streamRecords server id (enddate hdr) sc zeroCounters dbh)
    as [dbs es] eqn:SR.
  pose proof (streamRecords_frame _ _ _ _ _ _ _ _ SR) as (D1 & S1 & _).
  assert (dbs = db1) as ->
    by (destruct es; [destruct (closeAll _ _ _)|..]; now injection H).
  rewrite (saveHeaderData_regrown server fl db hdr dbh id db2 F (SS _ _) SH).
  - rewrite (streamRecords_again _ _ _ _ _ _ _ _ db2 SR CR).
    destruct es as [c| |]; try discriminate.
    destruct (closeAll server id (enddate hdr)); [|discriminate].
    injection H as <-. reflexivity.
  - exists more. now rewrite D, D1.
  - eapply coversS_trans; [apply coversS_eq; exact S1 | exact CS].
Qed.

(** X14.  Re-importing stays a no-op after other imports: when a run with
    force mode has returned, running it again over the same bytes on any
    later state of the store (Datasets grown at its end, no Summary or
    Record key removed) writes nothing and returns the same report,
    provided the lookup of the Dataset is answered. *)
Theorem reimport_after_growth server fl db data db1 rep db2 :
  f_force fl = true ->
  (forall reg ser, server (SelectDatasetID reg ser) = None) ->
  parseData server fl db data = (db1, Returns rep) ->
  grownFrom db1 db2 ->
  parseData server fl db2 data = (db2, Returns rep).
Proof.
  intros F SS H G. exact (parseData_regrown _ _ _ _ _ _ _ F SS H G).
Qed.

(** ** Stores grown by runs *)

Lemma coversS_refl db : coversS db db.
Proof. intros ? ?; auto. Qed.

Lemma grownFrom_refl db : grownFrom db db.
Proof.
  split; [exists []; now rewrite app_nil_r|].
  split; [apply coversS_refl | apply coversR_refl].
Qed.

Lemma grownFrom_trans a b c : grownFrom a b -> grownFrom b c -> grownFrom a c.
Proof.
  intros ((m1 & D1) & S1 & R1) ((m2 & D2) & S2 & R2). split; [|split].
  - exists (m1 ++ m2)%list. now rewrite D2, D1, app_assoc.
  - eapply coversS_trans; eauto.
  - eapply coversR_trans; eauto.
Qed.

Lemma appended_covers {A} (f : A -> bool) old new P n :
  appended old new P n -> existsb f old = true -> existsb f new = true.
Proof.
  intros (added & -> & _) E. rewrite existsb_app, E. reflexivity.
Qed.

(** Whatever its outcome, a run leaves a store grown from the one it
    started on. *)
Lemma parseData_grows server fl db data db' out :
  parseData server fl db data = (db', out) -> grownFrom db db'.
Proof.
  unfold parseData, ingest. intros H.
  destruct (parseHeader fl (NewScanner data) zeroHeader) as [[hdr sc]| |];
    try (injection H as <- _; apply grownFrom_refl).
  unfold afterHeader in H.
  destruct (saveHeaderData server fl db hdr) as [dbh e] eqn:SH.
  destruct e as [id| |];
    try (assert (dbh = db) as ->
           by (eapply saveHeaderData_stops; [exact SH | discriminate]);
         injection H as <- _; apply grownFrom_refl).
  apply saveHeaderData_adds in SH. destruct SH as (_ & AD & AS & RR).
  destruct (streamRecords server id (enddate hdr) sc zeroCounters dbh)
    as [dbs es] eqn:SR.
  pose proof (streamRecords_frame _ _ _ _ _ _ _ _ SR) as (D & S & C).
  assert (dbs = db') as ->
    by (destruct es; [destruct (closeAll _ _ _)|..]; now injection H).
  split; [|split].
  - rewrite D. destruct AD as (added & E & _). now exists added.
  - intros i k. rewrite S. now apply (appended_covers _ _ _ _ _ AS).
  - intros ty a E. apply C. unfold Records in *.
    specialize (RR ty). unfold Records in RR.
    destruct ty; now rewrite RR.
Qed.

Lemma reimport_after_growth_witness :
  parseData noFaults forced emptyDB sampleFeed
  = (sampleStore, Returns sampleReport) /\
  parseData noFaults forced sampleStore laterFeed
  = (laterStore, Returns laterReport) /\
  parseData noFaults forced laterStore sampleFeed
  = (laterStore, Returns sampleReport).
Proof.
  assert (H : parseData noFaults forced emptyDB sampleFeed
              = (sampleStore, Returns sampleReport))
    by (vm_compute; reflexivity).
  assert (L : parseData noFaults forced sampleStore laterFeed
              = (laterStore, Returns laterReport))
    by (vm_compute; reflexivity).
  split; [exact H|]. split; [exact L|].
  exact (reimport_after_growth noFaults forced emptyDB sampleFeed
           sampleStore sampleReport laterStore eq_refl
           (fun _ _ => eq_refl) H
           (parseData_grows noFaults forced sampleStore laterFeed
              laterStore _ L)).
Defined.

(** ** The command line *)

Ltac eqb_cases :=
  repeat match goal with
         | |- context [String.eqb ?a ?b] =>
             destruct (String.eqb_spec a b); subst; cbn
         | H : context [String.eqb ?a ?b] |- _ =>
             destruct (String.eqb_spec a b); subst; cbn in H
         end.

(** X15.  What [parseArguments] hands to [main] when it returns: the
    file name, the URL and the mode flags are as parsed; a source given
    on the command line is kept, whatever it is; a missing source becomes
    "file" or "download" according to which of the two inputs is set, and
    stays empty when neither is; source "file" comes with a file name and
    source "download" with a URL; the verbosity is 5 under [-debug]. *)
Theorem parseArguments_settles_source parsed o :
  parseArguments parsed = inl o ->
  f_inputFileName o = f_inputFileName parsed /\
  f_URL o = f_URL parsed /\
  f_mode o = f_mode parsed /\
  (f_source parsed <> "" -> f_source o = f_source parsed) /\
  (f_source parsed = "" ->
   f_source o = if negb (isEmpty (f_inputFileName parsed)) then "file"
                else if negb (isEmpty (f_URL parsed)) then "download"
                else "") /\
  (f_source o = "file" -> f_inputFileName o <> "") /\
  (f_source o = "download" -> f_URL o <> "") /\
  f_verbose o = (if f_debug parsed then 5 else f_verbose parsed).
Proof.
  destruct parsed as [i u s v d m].
  unfold parseArguments, isEmpty. cbn.
  destruct (String.eqb_spec u ""), (String.eqb_spec i ""),
    (String.eqb_spec s ""); subst; cbn;
    eqb_cases; cbn in *; try discriminate; try congruence;
    intros H; injection H as <-; destruct d; cbn;
    repeat split; try congruence; try discriminate.
Qed.

Lemma parseArguments_settles_source_witness :
  let parsed := mkOptions "delegated-apnic-latest" "" "" 1 true forced in
  let o := mkOptions "delegated-apnic-latest" "" "file" 5 true forced in
  parseArguments parsed = inl o /\
  f_source o = "file" /\ f_verbose o = 5.
Proof.
  intros parsed o.
  assert (H : parseArguments parsed = inl o) by reflexivity.
  split; [exact H|].
  destruct (parseArguments_settles_source parsed o H)
    as (_ & _ & _ & _ & S & _ & _ & V).
  split; [exact (S eq_refl) | exact V].
Defined.

(** X16.  [parseArguments] ends the program in exactly three cases: no
    source with both a file name and a URL, source "file" without a file
    name, source "download" without a URL.  A source it has inferred
    itself is never rejected, and any other source passes unchecked, the
    empty one included. *)
Theorem parseArguments_rejects parsed :
  (exists u, parseArguments parsed = inr u) <->
  (f_source parsed = "" /\ f_inputFileName parsed <> "" /\
   f_URL parsed <> "") \/
  (f_source parsed = "file" /\ f_inputFileName parsed = "") \/
  (f_source parsed = "download" /\ f_URL parsed = "").
Proof.
  destruct parsed as [i u s v d m].
  unfold parseArguments, isEmpty. cbn.
  destruct (String.eqb_spec u ""), (String.eqb_spec i ""),
    (String.eqb_spec s ""); subst; cbn; eqb_cases; cbn in *;
    (split;
     [intros (x & H); try discriminate; intuition congruence
     |intros [(A & B & C) | [(A & B) | (A & B)]];
      try congruence; try discriminate; eauto]).
Qed.

(** X17.  A registry name or "all" given as [-source] makes [main] ignore
    [-in] and [-url]: whatever they hold, the run is the same, the data
    being fetched from the location the Registries table gives. *)
Theorem explicit_source_ignores_inputs server w o name url db :
  In (f_source o) ("all" :: registryNames) ->
  main server w (withInputs name url o) db = main server w o db.
Proof.
  destruct o as [i u s v d m]. unfold withInputs. cbn [f_source].
  intros H. cbn in H. unfold main, parseArguments, isEmpty.
  cbn [f_source f_URL f_inputFileName f_debug f_mode f_verbose].
  repeat destruct H as [<- | H]; try easy;
    destruct (String.eqb u ""), (String.eqb i ""), (String.eqb url ""),
      (String.eqb name ""), d; reflexivity.
Qed.

Lemma explicit_source_ignores_inputs_witness :
  main noFaults sampleWorld
       (mkOptions "local.txt" "http://elsewhere.example/feed" "apnic" 1 false
                  strict) emptyDB
  = main noFaults sampleWorld (mkOptions "" "" "apnic" 1 false strict)
         emptyDB.
Proof.
  apply (explicit_source_ignores_inputs noFaults sampleWorld
           (mkOptions "" "" "apnic" 1 false strict)
           "local.txt" "http://elsewhere.example/feed" emptyDB).
  cbn. auto.
Defined.

(** ** Running the program again *)

Lemma parseArguments_kept parsed o :
  parseArguments parsed = inl o -> f_mode o = f_mode parsed.
Proof.
  unfold parseArguments. intros H.
  destruct (_ && _ && _); [discriminate|]. cbv zeta in H.
  destruct (_ && _) in H; [discriminate|].
  destruct (_ && _) in H; [discriminate|].
  injection H as <-.
  repeat match goal with |- context [if ?b then _ else _] => destruct b end;
    reflexivity.
Qed.

Section Rerun.

Variable server : statement -> option dbError.
Variable w : World.
Variable fl : Flags.
Hypothesis force : f_force fl = true.
Hypothesis answered : forall reg ser, server (SelectDatasetID reg ser) = None.

Lemma runOn_grows db data db' out :
  runOn server fl db data = (db', out) -> grownFrom db db'.
Proof.
  unfold runOn. intros H.
  destruct (parseData server fl db data) as [d e] eqn:P.
  apply parseData_grows in P.
  destruct e; injection H as <- _; exact P.
Qed.

Lemma runOn_regrown db data db1 db2 :
  runOn server fl db data = (db1, Done) -> grownFrom db1 db2 ->
  runOn server fl db2 data = (db2, Done).
Proof.
  unfold runOn. intros H G.
  destruct (parseData server fl db data) as [d [rep| |]] eqn:P;
    try discriminate.
  injection H as ->.
  now rewrite (parseData_regrown _ _ _ _ _ _ _ force answered P G).
Qed.

Lemma download_grows n url db db' out :
  download server w fl n url db = (db', out) -> grownFrom db db'.
Proof.
  unfold download. destruct (downloadFile w n url).
  - apply runOn_grows.
  - intros H. injection H as <- _. apply grownFrom_refl.
Qed.

Lemma download_regrown n url db db1 db2 :
  download server w fl n url db = (db1, Done) -> grownFrom db1 db2 ->
  download server w fl n url db2 = (db2, Done).
Proof.
  unfold download. destruct (downloadFile w n url).
  - apply runOn_regrown.
  - discriminate.
Qed.

Lemma eachRegistry_grows regs : forall n db db' out,
  eachRegistry server w fl n regs db = (db', out) -> grownFrom db db'.
Proof.
  induction regs as [|reg rest IH]; intros n db db' out H;
    cbn [eachRegistry] in H.
  - injection H as <- _. apply grownFrom_refl.
  - destruct (getRegistryURL w reg) as [url|e];
      [|injection H as <- _; apply grownFrom_refl].
    destruct (download server w fl n url db) as [d o] eqn:Dl.
    apply download_grows in Dl.
    destruct o; [|injection H as <- _; exact Dl..].
    eapply grownFrom_trans; [exact Dl | eapply IH; exact H].
Qed.

Lemma eachRegistry_regrown regs : forall n db db1 db2,
  eachRegistry server w fl n regs db = (db1, Done) -> grownFrom db1 db2 ->
  eachRegistry server w fl n regs db2 = (db2, Done).
Proof.
  induction regs as [|reg rest IH]; intros n db db1 db2 H G;
    cbn [eachRegistry] in *; [reflexivity|].
  destruct (getRegistryURL w reg) as [url|e]; [|discriminate].
  destruct (download server w fl n url db) as [d o] eqn:Dl.
  destruct o; try discriminate.
  rewrite (download_regrown _ _ _ _ db2 Dl).
  - eapply IH; eauto.
  - eapply grownFrom_trans; [eapply eachRegistry_grows; exact H | exact G].
Qed.

End Rerun.

(** X18.  Running the program a second time with [-force] changes
    nothing: when [main] has run to its end, the same command line in the
    same world (same file, same answers of the Registries table and of the
    downloads) runs to its end again on the store it left, and on any
    store grown from it, without writing a row.  This holds for every
    source, the five downloads of "all" included; the lookups of the
    Dataset must be answered. *)
Theorem second_run_changes_nothing server w parsed db db1 db2 :
  f_force (f_mode parsed) = true ->
  (forall reg ser, server (SelectDatasetID reg ser) = None) ->
  main server w parsed db = (db1, Done) ->
  grownFrom db1 db2 ->
  main server w parsed db2 = (db2, Done).
Proof.
  intros F SS H G. unfold main in *.
  destruct (parseArguments parsed) as [o|u] eqn:PA; [|discriminate].
  assert (F' : f_force (f_mode o) = true).
  { apply parseArguments_kept in PA. now rewrite PA. }
  destruct (negb (setupDB w)); [discriminate|].
  cbv zeta in *.
  destruct (String.eqb (f_source o) "file").
  { destruct (w_ReadFile w (f_inputFileName o)); [|discriminate].
    eapply runOn_regrown; eauto. }
  destruct (existsb _ _).
  { destruct (getRegistryURL w (f_source o)); [|discriminate].
    eapply download_regrown; eauto. }
  destruct (String.eqb (f_source o) "download").
  { eapply download_regrown; eauto. }
  destruct (String.eqb (f_source o) "all"); [|discriminate].
  eapply eachRegistry_regrown; eauto.
Qed.

Lemma second_run_changes_nothing_witness :
  let cmd := mkOptions "" "" "all" 1 false forced in
  main noFaults sampleWorld cmd emptyDB = (sampleStore, Done) /\
  main noFaults sampleWorld cmd sampleStore = (sampleStore, Done) /\
  main noFaults sampleWorld cmd laterStore = (laterStore, Done).
Proof.
  intros cmd.
  assert (H : main noFaults sampleWorld cmd emptyDB = (sampleStore, Done))
    by (vm_compute; reflexivity).
  assert (L : parseData noFaults forced sampleStore laterFeed
              = (laterStore, Returns laterReport))
    by (vm_compute; reflexivity).
  split; [exact H|]. split.
  - exact (second_run_changes_nothing noFaults sampleWorld cmd emptyDB
             sampleStore sampleStore eq_refl (fun _ _ => eq_refl) H
             (grownFrom_refl sampleStore)).
  - exact (second_run_changes_nothing noFaults sampleWorld cmd emptyDB
             sampleStore laterStore eq_refl (fun _ _ => eq_refl) H
             (parseData_grows noFaults forced sampleStore laterFeed
                laterStore _ L)).
Defined.

(** X19.  [main] never takes anything away: whatever the command line,
    the world and the way the program ends (to its end, by [log.Fatal] or
    by a panic, in the middle of the "all" loop as well), the Datasets
    table afterwards is the one before with rows added at its end, and
    every Summary and Record key that was in the store is still there. *)
Theorem main_only_grows server w parsed db :
  grownFrom db (fst (main server w parsed db)).
Proof.
  destruct (main server w parsed db) as [db' out] eqn:H. cbn [fst].
  unfold main in H.
  destruct (parseArguments parsed) as [o|u];
    [|injection H as <- _; apply grownFrom_refl].
  destruct (negb (setupDB w)); [injection H as <- _; apply grownFrom_refl|].
  cbv zeta in H.
  destruct (String.eqb (f_source o) "file").
  { destruct (w_ReadFile w (f_inputFileName o));
      [eapply runOn_grows; exact H
      |injection H as <- _; apply grownFrom_refl]. }
  destruct (existsb _ _).
  { destruct (getRegistryURL w (f_source o));
      [eapply download_grows; exact H
      |injection H as <- _; apply grownFrom_refl]. }
  destruct (String.eqb (f_source o) "download");
    [eapply download_grows; exact H|].
  destruct (String.eqb (f_source o) "all");
    [eapply eachRegistry_grows; exact H
    |injection H as <- _; apply grownFrom_refl].
Qed.
